(** * QR login session of the web channel (src/web/login-qr.ts)

    Line numbers (l.N) refer to that file.

    A shallow embedding of the module as a transition system.  The module
    keeps one process-wide slot [activeLogin] that refers to a mutable
    [ActiveLogin] object; the two exported async functions and the promise
    continuations they register all read and write that object through
    aliases.  The embedding therefore has

    - a heap of [ActiveLogin] objects addressed by reference, and the slot
      holding such a reference (or [None] for [null]);
    - one entry per running call of [startWebLoginWithQr] / [waitForWebLogin],
      holding the call's local variables and the [await] it is suspended at;
    - one transition per event of the JavaScript event loop: a call, the
      settling of an awaited promise, a timer, a callback of the transport.

    Every [await] of the source is a point where other events may run; the
    model lets any enabled event run there, which is at least what the event
    loop allows.

    Two clocks are kept apart: [now] is the wall clock that [Date.now()]
    reads, which the host may set to any value, and [mono] is the clock the
    timers of [setTimeout] run on, which only moves forward.  Times are whole
    milliseconds; a [timeoutMs] option is any JavaScript number but for
    fractions of a millisecond.

    Dereferencing a reference that was never allocated has no counterpart in
    JavaScript; the functions below return [None] there, and [None] is also
    the answer of [step] to an event that is not enabled. *)

From stdpp Require Import gmap strings list fin_maps.
From Stdlib Require Import ZArith.

Local Open Scope string_scope.
Local Open Scope Z_scope.

(** ** Data *)

(** [type ActiveLogin] (l.21-33).  [sock] names a transport handle and
    [waitPromise] a promise of the promise table.  [id] is the value drawn
    from [randomUUID()]: no two calls give the same one, and the model draws
    the next unused number. *)
Record ActiveLogin := {
  id : nat;
  sock : nat;
  startedAt : Z;
  qr : option string;
  qrDataUrl : option string;
  connected : bool;
  error : option string;
  errorStatus : option Z;
  waitPromise : nat;
  restartAttempted : bool;
  verbose : bool
}.

Definition set_sock (s : nat) (l : ActiveLogin) : ActiveLogin :=
  {| id := id l; sock := s; startedAt := startedAt l; qr := qr l;
     qrDataUrl := qrDataUrl l; connected := connected l; error := error l;
     errorStatus := errorStatus l; waitPromise := waitPromise l;
     restartAttempted := restartAttempted l; verbose := verbose l |}.

Definition set_qr (v : option string) (l : ActiveLogin) : ActiveLogin :=
  {| id := id l; sock := sock l; startedAt := startedAt l; qr := v;
     qrDataUrl := qrDataUrl l; connected := connected l; error := error l;
     errorStatus := errorStatus l; waitPromise := waitPromise l;
     restartAttempted := restartAttempted l; verbose := verbose l |}.

Definition set_qrDataUrl (v : option string) (l : ActiveLogin) : ActiveLogin :=
  {| id := id l; sock := sock l; startedAt := startedAt l; qr := qr l;
     qrDataUrl := v; connected := connected l; error := error l;
     errorStatus := errorStatus l; waitPromise := waitPromise l;
     restartAttempted := restartAttempted l; verbose := verbose l |}.

Definition set_connected (v : bool) (l : ActiveLogin) : ActiveLogin :=
  {| id := id l; sock := sock l; startedAt := startedAt l; qr := qr l;
     qrDataUrl := qrDataUrl l; connected := v; error := error l;
     errorStatus := errorStatus l; waitPromise := waitPromise l;
     restartAttempted := restartAttempted l; verbose := verbose l |}.

Definition set_error (v : option string) (l : ActiveLogin) : ActiveLogin :=
  {| id := id l; sock := sock l; startedAt := startedAt l; qr := qr l;
     qrDataUrl := qrDataUrl l; connected := connected l; error := v;
     errorStatus := errorStatus l; waitPromise := waitPromise l;
     restartAttempted := restartAttempted l; verbose := verbose l |}.

Definition set_errorStatus (v : option Z) (l : ActiveLogin) : ActiveLogin :=
  {| id := id l; sock := sock l; startedAt := startedAt l; qr := qr l;
     qrDataUrl := qrDataUrl l; connected := connected l; error := error l;
     errorStatus := v; waitPromise := waitPromise l;
     restartAttempted := restartAttempted l; verbose := verbose l |}.

Definition set_waitPromise (p : nat) (l : ActiveLogin) : ActiveLogin :=
  {| id := id l; sock := sock l; startedAt := startedAt l; qr := qr l;
     qrDataUrl := qrDataUrl l; connected := connected l; error := error l;
     errorStatus := errorStatus l; waitPromise := p;
     restartAttempted := restartAttempted l; verbose := verbose l |}.

Definition set_restartAttempted (v : bool) (l : ActiveLogin) : ActiveLogin :=
  {| id := id l; sock := sock l; startedAt := startedAt l; qr := qr l;
     qrDataUrl := qrDataUrl l; connected := connected l; error := error l;
     errorStatus := errorStatus l; waitPromise := waitPromise l;
     restartAttempted := v; verbose := verbose l |}.

(** Modelled from the spec: [formatError] and [getStatusCode] of session.ts
    are not in this file.  Section 4.3 gives them as the formatted error and
    "a numeric status code extracted from the rejection, if present".  A
    rejection value is kept as the three things the module reads off it:
    [String(err)] (l.155, l.177), [formatError(err)] and [getStatusCode(err)]
    (l.69-70, l.93-94). *)
Record JsError := {
  e_string : string;
  e_formatted : string;
  e_status : option Z
}.

(** Modelled from the spec: [waitForWaConnection] of session.ts is not in
    this file.  Section 6 gives it as [TransportHandle.awaitReady() ->
    Future<void>], which settles once: fulfilled, or rejected with an error
    that may carry a status code. *)
Inductive ConnOutcome :=
| ConnReady
| ConnRejected (err : JsError).

(** [login.waitPromise]: [Promise.resolve()] (l.163) is fulfilled from the
    start; the promise built by [attachLoginWaiter] is pending until the
    connection promise of [sock] settles and the continuation closed over
    [login] has run, and is fulfilled from then on ([.catch] handles the
    rejection). *)
Inductive PromiseState :=
| PFulfilled
| PWaiting (login : nat) (sock : nat).

(** A JavaScript [number] as [timeoutMs] can hold it. *)
Inductive JsNumber :=
| Num (z : Z)
| PosInf
| NegInf
| NaN.

(** [qrPromise] of one call of [startWebLoginWithQr] (l.128). *)
Inductive QrState :=
| QrPending
| QrResolved (qr : string)
| QrRejected (err : string).

(** [qrPromise] and [qrTimer], shared by the call, the [onQr] callback and
    the timer callback.  [qrTimer = Some t0]: armed, due when the timer
    clock [mono] reaches [t0]. *)
Record QrLocals := {
  qrPromise : QrState;
  qrTimer : option Z
}.

Record StartOpts := {
  o_verbose : option bool;
  o_timeoutMs : option JsNumber;
  o_force : option bool
}.

Record StartResult := {
  r_qrDataUrl : option string;
  r_message : string
}.

Record WaitResult := {
  r_connected : bool;
  r_wmessage : string
}.

(** The [await] a call of [startWebLoginWithQr] is suspended at. *)
Inductive StartPc :=
| SAwaitAuth                                    (* l.108 webAuthExists() *)
| SAwaitReset                                   (* l.124 resetActiveLogin() *)
| SAwaitSocket                                  (* l.142 createWaSocket(..) *)
| SAwaitResetOpenFailed (err : string)          (* l.153 *)
| SAwaitQr (login : nat)                        (* l.172 qrPromise *)
| SAwaitResetQrFailed (err : string)            (* l.175 *)
| SAwaitRender (login : nat) (qr : string)      (* l.181 renderQrPngBase64 *)
| SReturned (r : StartResult)
| SThrown (err : JsError).                      (* the call rejected with [err] *)

(** The [await] a call of [waitForWebLogin] is suspended at. *)
Inductive WaitPc :=
| WAwaitResetStale                                      (* l.202 *)
| WRace (login : nat) (deadline : JsNumber) (p : nat) (due : Z)
    (* l.223; the timer of l.220-222 is due when [mono] reaches [due] *)
| WAwaitLogout (login : nat)                            (* l.238 *)
| WAwaitResetLoggedOut (message : string)               (* l.241 *)
| WAwaitRestartSocket (login : nat) (deadline : JsNumber) (* l.85 *)
| WAwaitRestart (login : nat) (deadline : JsNumber) (restarted : bool) (* l.246 *)
| WAwaitResetFailed (message : string)                  (* l.252 *)
| WAwaitResetLinked (message : string)                  (* l.260 *)
| WReturned (r : WaitResult).

Inductive Task :=
| TStart (opts : StartOpts) (locals : option QrLocals) (pc : StartPc)
| TWait (pc : WaitPc).

Inductive Severity := Info | Success | Danger.

(** Calls into the collaborators, in the order they are made, and rejections
    that nothing handles, which the JavaScript host is told about (Node.js:
    the [unhandledRejection] event of the process, which by default ends the
    process; what the host does is not part of this module). *)
Inductive Effect :=
| ECreateSocket (verbose : bool) (onQr : option nat)
    (* createWaSocket(false, verbose, {onQr}) ; onQr of the given call *)
| ECloseSocket (s : nat)              (* sock.ws?.close() *)
| ELogoutWeb                          (* logoutWeb(runtime) *)
| ELogInfo (m : string)               (* logInfo(reason) *)
| ERuntimeLog (sev : Severity) (m : string)   (* runtime.log(sev(m)) *)
| EUnhandledRejection (err : string). (* a promise rejected with no handler *)

(** Modelled from the spec: the persisted-credentials collaborator of
    session.ts ([webAuthExists], [readWebSelfId], [logoutWeb]) is not in this
    file.  Section 6 gives it as [hasPersistedCredentials() -> bool],
    [readIdentity() -> {displayId?}] and [clearPersistedCredentials()]. *)
Record Creds := {
  linked : bool;
  e164 : option string;
  jid : option string
}.

Record World := {
  activeLogin : option nat;            (* let activeLogin (l.36) *)
  heap : gmap nat ActiveLogin;         (* the ActiveLogin objects *)
  promises : gmap nat PromiseState;    (* the waitPromise promises *)
  tasks : gmap nat Task;               (* running and finished calls *)
  creds : Creds;
  now : Z;                             (* Date.now() *)
  mono : Z;                            (* the clock of setTimeout *)
  trace : list Effect;
  next_login : nat;
  next_sock : nat;
  next_promise : nat;
  next_task : nat
}.

Definition set_activeLogin (a : option nat) (w : World) : World :=
  {| activeLogin := a; heap := heap w; promises := promises w;
     tasks := tasks w; creds := creds w; now := now w; mono := mono w;
     trace := trace w;
     next_login := next_login w; next_sock := next_sock w;
     next_promise := next_promise w; next_task := next_task w |}.

Definition set_heap (h : gmap nat ActiveLogin) (w : World) : World :=
  {| activeLogin := activeLogin w; heap := h; promises := promises w;
     tasks := tasks w; creds := creds w; now := now w; mono := mono w;
     trace := trace w;
     next_login := next_login w; next_sock := next_sock w;
     next_promise := next_promise w; next_task := next_task w |}.

Definition set_promises (ps : gmap nat PromiseState) (w : World) : World :=
  {| activeLogin := activeLogin w; heap := heap w; promises := ps;
     tasks := tasks w; creds := creds w; now := now w; mono := mono w;
     trace := trace w;
     next_login := next_login w; next_sock := next_sock w;
     next_promise := next_promise w; next_task := next_task w |}.

Definition set_tasks (ts : gmap nat Task) (w : World) : World :=
  {| activeLogin := activeLogin w; heap := heap w; promises := promises w;
     tasks := ts; creds := creds w; now := now w; mono := mono w;
     trace := trace w;
     next_login := next_login w; next_sock := next_sock w;
     next_promise := next_promise w; next_task := next_task w |}.

Definition set_creds (c : Creds) (w : World) : World :=
  {| activeLogin := activeLogin w; heap := heap w; promises := promises w;
     tasks := tasks w; creds := c; now := now w; mono := mono w;
     trace := trace w;
     next_login := next_login w; next_sock := next_sock w;
     next_promise := next_promise w; next_task := next_task w |}.

Definition set_now (t : Z) (w : World) : World :=
  {| activeLogin := activeLogin w; heap := heap w; promises := promises w;
     tasks := tasks w; creds := creds w; now := t; mono := mono w;
     trace := trace w;
     next_login := next_login w; next_sock := next_sock w;
     next_promise := next_promise w; next_task := next_task w |}.

Definition set_mono (t : Z) (w : World) : World :=
  {| activeLogin := activeLogin w; heap := heap w; promises := promises w;
     tasks := tasks w; creds := creds w; now := now w; mono := t;
     trace := trace w;
     next_login := next_login w; next_sock := next_sock w;
     next_promise := next_promise w; next_task := next_task w |}.

Definition emit (e : Effect) (w : World) : World :=
  {| activeLogin := activeLogin w; heap := heap w; promises := promises w;
     tasks := tasks w; creds := creds w; now := now w; mono := mono w;
     trace := trace w ++ [e];
     next_login := next_login w; next_sock := next_sock w;
     next_promise := next_promise w; next_task := next_task w |}.

Definition bump_login (w : World) : World :=
  {| activeLogin := activeLogin w; heap := heap w; promises := promises w;
     tasks := tasks w; creds := creds w; now := now w; mono := mono w;
     trace := trace w;
     next_login := S (next_login w); next_sock := next_sock w;
     next_promise := next_promise w; next_task := next_task w |}.

Definition bump_sock (w : World) : World :=
  {| activeLogin := activeLogin w; heap := heap w; promises := promises w;
     tasks := tasks w; creds := creds w; now := now w; mono := mono w;
     trace := trace w;
     next_login := next_login w; next_sock := S (next_sock w);
     next_promise := next_promise w; next_task := next_task w |}.

Definition bump_promise (w : World) : World :=
  {| activeLogin := activeLogin w; heap := heap w; promises := promises w;
     tasks := tasks w; creds := creds w; now := now w; mono := mono w;
     trace := trace w;
     next_login := next_login w; next_sock := next_sock w;
     next_promise := S (next_promise w); next_task := next_task w |}.

Definition bump_task (w : World) : World :=
  {| activeLogin := activeLogin w; heap := heap w; promises := promises w;
     tasks := tasks w; creds := creds w; now := now w; mono := mono w;
     trace := trace w;
     next_login := next_login w; next_sock := next_sock w;
     next_promise := next_promise w; next_task := S (next_task w) |}.

(** [login.f = v] for the object at reference [l]. *)
Definition write (l : nat) (f : ActiveLogin → ActiveLogin) (w : World) : World :=
  set_heap (alter f l (heap w)) w.

Definition set_task (t : nat) (tk : Task) (w : World) : World :=
  set_tasks (<[t := tk]> (tasks w)) w.

(** ** JavaScript helpers *)

(** Truthiness of a [string | undefined] value, as [if (x)] tests it. *)
Definition truthy (o : option string) : bool :=
  match o with
  | Some s => negb (String.eqb s EmptyString)
  | None => false
  end.

(** [Boolean(b)] and [!b] on a [boolean | undefined] option. *)
Definition Boolean (o : option bool) : bool := default false o.

(** Interpolation [`${x}`] of a [string | undefined] value. *)
Definition interpolate (o : option string) : string := default "undefined" o.

(** [Math.max(a, b)] for a finite [b]. *)
Definition Math_max (a : JsNumber) (b : Z) : JsNumber :=
  match a with
  | Num z => Num (Z.max z b)
  | PosInf => PosInf
  | NegInf => Num b
  | NaN => NaN
  end.

(** [n + a] and [a - n] for a finite [n]. *)
Definition js_add (n : Z) (a : JsNumber) : JsNumber :=
  match a with Num z => Num (n + z) | x => x end.

Definition js_sub (a : JsNumber) (n : Z) : JsNumber :=
  match a with Num z => Num (z - n) | x => x end.

(** [a <= 0] *)
Definition js_le0 (a : JsNumber) : bool :=
  match a with
  | Num z => z <=? 0
  | NegInf => true
  | PosInf | NaN => false
  end.

(** [setTimeout(f, a)] of Node.js, the host of this module: a delay that is
    not within 1 .. 2^31-1 ms (also [NaN]) is replaced by 1 ms.  The answer
    is the delay the timer gets. *)
Definition TIMEOUT_MAX : Z := 2147483647.

Definition setTimeout_delay (a : JsNumber) : Z :=
  match a with
  | Num z => if (1 <=? z) && (z <=? TIMEOUT_MAX) then z else 1
  | PosInf | NegInf | NaN => 1
  end.

(** [DisconnectReason.loggedOut] of the transport library
    (@whiskeysockets/baileys): the status 401. *)
Definition DisconnectReason_loggedOut : Z := 401.

Definition ACTIVE_LOGIN_TTL_MS : Z := 3 * 60000.

(** ** The session store (l.38-58) *)

(** [closeSocket]: the close call, with any exception it raises swallowed. *)
Definition closeSocket (s : nat) (w : World) : World :=
  emit (ECloseSocket s) w.

(** [logInfo(reason)] under [if (reason)]. *)
Definition log_reason (reason : option string) (w : World) : World :=
  match reason with
  | Some r => if truthy reason then emit (ELogInfo r) w else w
  | None => w
  end.

Definition resetActiveLogin (reason : option string) (w : World) : option World :=
  w1 ← match activeLogin w with
       | Some a =>
           lg ← heap w !! a;
           Some (set_activeLogin None (closeSocket (sock lg) w))
       | None => Some w
       end;
  Some (log_reason reason w1).

Definition isLoginFresh (w : World) (login : ActiveLogin) : bool :=
  now w - startedAt login <? ACTIVE_LOGIN_TTL_MS.

(** ** The completion continuation (l.60-73) *)

(** [activeLogin?.id === login.id] *)
Definition same_attempt (login : nat) (w : World) : option bool :=
  lg ← heap w !! login;
  match activeLogin w with
  | None => Some false
  | Some a => alg ← heap w !! a; Some (bool_decide (id alg = id lg))
  end.

(** The [.then] handler of the promise attached for [login]. *)
Definition on_ready (login : nat) (w : World) : option World :=
  b ← same_attempt login w;
  if b : bool then
    a ← activeLogin w;
    Some (write a (set_connected true) w)
  else Some w.

(** The [.catch] handler of the promise attached for [login]. *)
Definition on_rejected (login : nat) (err : JsError) (w : World) : option World :=
  b ← same_attempt login w;
  if b : bool then
    a ← activeLogin w;
    Some (write a (set_errorStatus (e_status err))
           (write a (set_error (Some (e_formatted err))) w))
  else Some w.

Definition continuation (login : nat) (o : ConnOutcome) (w : World) : option World :=
  match o with
  | ConnReady => on_ready login w
  | ConnRejected err => on_rejected login err w
  end.

(** [attachLoginWaiter]: a new pending promise over [login.sock] is stored
    in [login.waitPromise]. *)
Definition attachLoginWaiter (login : nat) (w : World) : option World :=
  lg ← heap w !! login;
  let p := next_promise w in
  Some (write login (set_waitPromise p)
         (bump_promise (set_promises (<[p := PWaiting login (sock lg)]> (promises w)) w))).

(** The connection promise behind pending promise [p] settles with [o]: the
    continuation runs, then [p] is fulfilled. *)
Definition conn_settles (p : nat) (o : ConnOutcome) (w : World) : option World :=
  match promises w !! p with
  | Some (PWaiting login _) =>
      w1 ← continuation login o w;
      Some (set_promises (<[p := PFulfilled]> (promises w1)) w1)
  | _ => None
  end.

(** ** restartLoginSocket (l.75-97) *)

Definition restart_notice : string :=
  "WhatsApp asked for a restart after pairing (code 515); retrying connection once…".

(** Up to the [await createWaSocket] of l.85, or to the [return false] of
    l.76.  The answer is the [await] the caller is left at. *)
Definition restartLoginSocket_enter (login : nat) (deadline : JsNumber) (w : World)
  : option (World * WaitPc) :=
  lg ← heap w !! login;
  if restartAttempted lg then Some (w, WAwaitRestart login deadline false)
  else
    let w1 := write login (set_restartAttempted true) w in
    let w2 := emit (ERuntimeLog Info restart_notice) w1 in
    let w3 := closeSocket (sock lg) w2 in
    Some (emit (ECreateSocket (verbose lg) None) w3,
          WAwaitRestartSocket login deadline).

(** l.86-91, with the new transport handle [s]. *)
Definition restartLoginSocket_opened (login : nat) (s : nat) (w : World) : option World :=
  let w1 := write login (set_sock s) w in
  let w2 := write login (set_connected false) w1 in
  let w3 := write login (set_error None) w2 in
  let w4 := write login (set_errorStatus None) w3 in
  attachLoginWaiter login w4.

(** l.92-95 *)
Definition restartLoginSocket_failed (login : nat) (err : JsError) (w : World) : World :=
  write login (set_errorStatus (e_status err))
    (write login (set_error (Some (e_formatted err))) w).

(** ** startWebLoginWithQr (l.99-187) *)

Definition msg_already_linked (who : string) : string :=
  "WhatsApp is already linked (" +:+ who +:+ "). Say “relink” if you want a fresh QR.".
Definition msg_qr_active : string :=
  "QR already active. Scan it in WhatsApp → Linked Devices.".
Definition msg_scan : string :=
  "Scan this QR in WhatsApp → Linked Devices.".
Definition msg_start_failed (err : string) : string :=
  "Failed to start WhatsApp login: " +:+ err.
Definition msg_qr_failed (err : string) : string :=
  "Failed to get QR: " +:+ err.
(** [String(new Error("Timed out waiting for WhatsApp QR"))] *)
Definition qr_timeout_error : string :=
  "Error: Timed out waiting for WhatsApp QR".

Definition start_return (t : nat) (opts : StartOpts) (locals : option QrLocals)
    (r : StartResult) (w : World) : World :=
  set_task t (TStart opts locals (SReturned r)) w.

(** The call itself, up to [await webAuthExists()]. *)
Definition startWebLoginWithQr (opts : StartOpts) (w : World) : World :=
  set_task (next_task w) (TStart opts None SAwaitAuth) (bump_task w).

(** [clearTimeout(qrTimer)] *)
Definition clear_timer (locals : option QrLocals) : option QrLocals :=
  (λ q, {| qrPromise := qrPromise q; qrTimer := None |}) <$> locals.

(** The [onQr] callback registered by call [t] (l.143-149). *)
Definition onQr (t : nat) (code : string) (w : World) : option World :=
  tk ← tasks w !! t;
  match tk with
  | TStart opts (Some q) pc =>
      match activeLogin w with
      | None => Some w
      | Some a =>
          lg ← heap w !! a;
          if truthy (qr lg) then Some w
          else
            let w1 := write a (set_qr (Some code)) w in
            let w2 := emit (ERuntimeLog Info "WhatsApp QR received.") w1 in
            let q' := {| qrPromise := match qrPromise q with
                                      | QrPending => QrResolved code
                                      | s => s
                                      end;
                         qrTimer := None |} in
            Some (set_task t (TStart opts (Some q') pc) w2)
      end
  | _ => None
  end.

(** [qrPromise] has a handler once the call awaits it (l.172). *)
Definition awaits_qr (pc : StartPc) : bool :=
  match pc with SAwaitQr _ => true | _ => false end.

(** Rejecting [qrPromise] while it is pending and not yet awaited is a
    rejection that nothing handles. *)
Definition qr_unhandled (q : QrLocals) (pc : StartPc) : bool :=
  match qrPromise q with
  | QrPending => negb (awaits_qr pc)
  | _ => false
  end.

(** The callback of [qrTimer] (l.134-136), due once [mono] reaches the time
    the timer was armed for. *)
Definition qr_timer_fires (t : nat) (w : World) : option World :=
  tk ← tasks w !! t;
  match tk with
  | TStart opts (Some q) pc =>
      match qrTimer q with
      | Some due =>
          if due <=? mono w then
            let q' := {| qrPromise := match qrPromise q with
                                      | QrPending => QrRejected qr_timeout_error
                                      | s => s
                                      end;
                         qrTimer := None |} in
            let w1 := if qr_unhandled q pc
                      then emit (EUnhandledRejection qr_timeout_error) w
                      else w in
            Some (set_task t (TStart opts (Some q') pc) w1)
          else None
      | None => None
      end
  | _ => None
  end.

(** The delay [qrTimer] is armed with (l.137). *)
Definition qr_delay (opts : StartOpts) : Z :=
  setTimeout_delay (Math_max (default (Num 30000) (o_timeoutMs opts)) 5000).

(** The slot's attempt when it can be served again (l.117). *)
Definition reusable (w : World) : option (option ActiveLogin) :=
  match activeLogin w with
  | None => Some None
  | Some a =>
      lg ← heap w !! a;
      Some (if isLoginFresh w lg && truthy (qrDataUrl lg) then Some lg else None)
  end.

(** Resuming call [t] of [startWebLoginWithQr] at an [await] that needs no
    answer from outside: [webAuthExists()] (answered from [creds]), the
    [resetActiveLogin()] calls, and [qrPromise] once it is settled. *)
Definition start_resume (t : nat) (opts : StartOpts) (locals : option QrLocals)
    (pc : StartPc) (w : World) : option World :=
  match pc with
  | SAwaitAuth =>
      let hasWeb := linked (creds w) in
      if hasWeb && negb (Boolean (o_force opts)) then
        let who := default (default "unknown" (jid (creds w))) (e164 (creds w)) in
        Some (start_return t opts locals
                {| r_qrDataUrl := None; r_message := msg_already_linked who |} w)
      else
        r ← reusable w;
        match r with
        | Some lg =>
            Some (start_return t opts locals
                    {| r_qrDataUrl := qrDataUrl lg; r_message := msg_qr_active |} w)
        | None =>
            w1 ← resetActiveLogin None w;
            Some (set_task t (TStart opts locals SAwaitReset) w1)
        end
  | SAwaitReset =>
      let q := {| qrPromise := QrPending;
                  qrTimer := Some (mono w + qr_delay opts) |} in
      let w1 := emit (ECreateSocket (Boolean (o_verbose opts)) (Some t)) w in
      Some (set_task t (TStart opts (Some q) SAwaitSocket) w1)
  | SAwaitResetOpenFailed err =>
      Some (start_return t opts locals
              {| r_qrDataUrl := None; r_message := msg_start_failed err |} w)
  | SAwaitQr login =>
      q ← locals;
      match qrPromise q with
      | QrPending => None
      | QrResolved code =>
          Some (set_task t (TStart opts locals (SAwaitRender login code)) w)
      | QrRejected err =>
          w1 ← resetActiveLogin None w;
          Some (set_task t (TStart opts (clear_timer locals) (SAwaitResetQrFailed err)) w1)
      end
  | SAwaitResetQrFailed err =>
      Some (start_return t opts locals
              {| r_qrDataUrl := None; r_message := msg_qr_failed err |} w)
  | SAwaitSocket | SAwaitRender _ _ | SReturned _ | SThrown _ => None
  end.

(** [createWaSocket] of call [t] resolves with a new handle (l.158-172). *)
Definition start_socket_opened (t : nat) (opts : StartOpts)
    (locals : option QrLocals) (w : World) : option World :=
  let s := next_sock w in
  let l := next_login w in
  let p0 := next_promise w in
  let login :=
    {| id := l; sock := s; startedAt := now w; qr := None; qrDataUrl := None;
       connected := false; error := None; errorStatus := None;
       waitPromise := p0; restartAttempted := false;
       verbose := Boolean (o_verbose opts) |} in
  let w1 := bump_promise (set_promises (<[p0 := PFulfilled]> (promises w))
              (bump_login (bump_sock w))) in
  let w2 := set_heap (<[l := login]> (heap w1)) w1 in
  let w3 := set_activeLogin (Some l) w2 in
  w4 ← attachLoginWaiter l w3;
  Some (set_task t (TStart opts locals (SAwaitQr l)) w4).

(** [createWaSocket] of call [t] rejects (l.151-157). *)
Definition start_socket_failed (t : nat) (opts : StartOpts)
    (locals : option QrLocals) (err : JsError) (w : World) : option World :=
  w1 ← resetActiveLogin None w;
  Some (set_task t (TStart opts (clear_timer locals)
                      (SAwaitResetOpenFailed (e_string err))) w1).

(** [`data:image/png;base64,${base64}`] (l.182) *)
Definition data_url (base64 : string) : string :=
  "data:image/png;base64," +:+ base64.

(** Modelled from the spec: [renderQrPngBase64] of qr-image.ts is not in this
    file; section 6 gives it as [renderLinkingArtifact(code) -> base64 image
    payload].  Its answer [base64] arrives here (l.181-186). *)
Definition start_rendered (t : nat) (opts : StartOpts) (locals : option QrLocals)
    (login : nat) (base64 : string) (w : World) : option World :=
  let w1 := write login (set_qrDataUrl (Some (data_url base64))) w in
  lg ← heap w1 !! login;
  Some (start_return t opts locals
          {| r_qrDataUrl := qrDataUrl lg; r_message := msg_scan |} w1).

(** ** waitForWebLogin (l.189-266) *)

Definition msg_no_login : string := "No active WhatsApp login in progress.".
Definition msg_expired : string :=
  "The login QR expired. Ask me to generate a new one.".
Definition msg_still_waiting : string :=
  "Still waiting for the QR scan. Let me know when you’ve scanned it.".
Definition msg_logged_out : string :=
  "WhatsApp reported the session is logged out. Cleared cached web session; please scan a new QR.".
Definition msg_failed (err : option string) : string :=
  "WhatsApp login failed: " +:+ interpolate err.
Definition msg_linked : string := "✅ Linked! WhatsApp is ready.".
Definition msg_no_connection : string := "Login ended without a connection.".

Definition wait_return (t : nat) (r : WaitResult) (w : World) : World :=
  set_task t (TWait (WReturned r)) w.

Definition wait_at (t : nat) (pc : WaitPc) (w : World) : World :=
  set_task t (TWait pc) w.

(** Modelled from the spec: [logoutWeb] of session.ts is not in this file;
    section 6 gives it as [clearPersistedCredentials()]. *)
Definition logoutWeb (w : World) : World :=
  set_creds {| linked := false; e164 := None; jid := None |} (emit ELogoutWeb w).

(** One turn of [while (true)] from its head (l.212) to the race (l.223). *)
Definition wait_loop (t : nat) (login : nat) (deadline : JsNumber) (w : World)
  : option World :=
  let remaining := js_sub deadline (now w) in
  if js_le0 remaining then
    Some (wait_return t {| r_connected := false; r_wmessage := msg_still_waiting |} w)
  else
    lg ← heap w !! login;
    Some (wait_at t (WRace login deadline (waitPromise lg)
                       (mono w + setTimeout_delay remaining)) w).

(** l.251-252 *)
Definition wait_fail (t : nat) (login : nat) (w : World) : option World :=
  lg ← heap w !! login;
  let message := msg_failed (error lg) in
  w1 ← resetActiveLogin (Some message) w;
  Some (wait_at t (WAwaitResetFailed message) w1).

(** The call itself, up to its first [await] or [return]. *)
Definition waitForWebLogin (timeoutMs : option JsNumber) (w : World) : option World :=
  let t := next_task w in
  let w0 := bump_task w in
  match activeLogin w0 with
  | None =>
      Some (wait_return t {| r_connected := false; r_wmessage := msg_no_login |} w0)
  | Some login =>
      lg ← heap w0 !! login;
      if negb (isLoginFresh w0 lg) then
        w1 ← resetActiveLogin None w0;
        Some (wait_at t WAwaitResetStale w1)
      else
        let timeoutMs := Math_max (default (Num 120000) timeoutMs) 1000 in
        let deadline := js_add (now w0) timeoutMs in
        wait_loop t login deadline w0
  end.

(** The race of l.223 is won by [login.waitPromise] (l.236-264). *)
Definition wait_done (t : nat) (login : nat) (deadline : JsNumber) (w : World)
  : option World :=
  lg ← heap w !! login;
  if truthy (error lg) then
    if bool_decide (errorStatus lg = Some DisconnectReason_loggedOut) then
      Some (wait_at t (WAwaitLogout login) (logoutWeb w))
    else if bool_decide (errorStatus lg = Some 515) then
      '(w1, pc) ← restartLoginSocket_enter login deadline w;
      Some (wait_at t pc w1)
    else wait_fail t login w
  else if connected lg then
    let w1 := emit (ERuntimeLog Success msg_linked) w in
    w2 ← resetActiveLogin None w1;
    Some (wait_at t (WAwaitResetLinked msg_linked) w2)
  else
    Some (wait_return t {| r_connected := false; r_wmessage := msg_no_connection |} w).

(** Resuming call [t] of [waitForWebLogin] at an [await] that needs no answer
    from outside; the race is resumed here once its promise is fulfilled. *)
Definition wait_resume (t : nat) (pc : WaitPc) (w : World) : option World :=
  match pc with
  | WAwaitResetStale =>
      Some (wait_return t {| r_connected := false; r_wmessage := msg_expired |} w)
  | WRace login deadline p _ =>
      match promises w !! p with
      | Some PFulfilled => wait_done t login deadline w
      | _ => None
      end
  | WAwaitLogout login =>
      w1 ← resetActiveLogin (Some msg_logged_out) w;
      Some (wait_at t (WAwaitResetLoggedOut msg_logged_out) w1)
  | WAwaitResetLoggedOut message | WAwaitResetFailed message =>
      Some (wait_return t {| r_connected := false; r_wmessage := message |}
              (emit (ERuntimeLog Danger message) w))
  | WAwaitRestart login deadline restarted =>
      lg ← heap w !! login;
      if restarted && isLoginFresh w lg then wait_loop t login deadline w
      else wait_fail t login w
  | WAwaitResetLinked message =>
      Some (wait_return t {| r_connected := true; r_wmessage := message |} w)
  | WAwaitRestartSocket _ _ | WReturned _ => None
  end.

(** The timer of l.220-222 wins the race: it is due, and the promise it
    races is still pending. *)
Definition race_timeout (t : nat) (w : World) : option World :=
  tk ← tasks w !! t;
  match tk with
  | TWait (WRace login deadline p due) =>
      match promises w !! p with
      | Some (PWaiting _ _) =>
          if due <=? mono w then
            Some (wait_return t
                    {| r_connected := false; r_wmessage := msg_still_waiting |} w)
          else None
      | _ => None
      end
  | _ => None
  end.

(** ** The event loop *)

(** One event of the event loop.  Modelled from the spec: [createWaSocket]
    of session.ts is not in this file; section 6 gives it as
    [openTransportSession(resumeExisting, verbose, {onLinkingCode}) ->
    TransportHandle], which "fails with an OpenError on connection setup
    failure" ([SocketOpened], [SocketFailed]) and calls [onLinkingCode] when
    the transport produces a code ([QrEmitted]).  [Resume] continues a call
    at an [await] whose answer the module itself holds.  [Tick] is time
    passing, on both clocks; [ClockSet] is the host setting the wall clock.
    [AuthFailed] and [RenderFailed] are [webAuthExists()] (or
    [readWebSelfId()]) and [renderQrPngBase64(qr)] failing: l.108-109 and
    l.181 are inside no [try], so the call rejects with the error. *)

Inductive Event :=
| Tick (d : N)                            (* [d] ms pass *)
| CredsSaved (c : Creds)                  (* the credential store changes *)
| CallStart (opts : StartOpts)            (* startWebLoginWithQr(opts) *)
| CallWait (timeoutMs : option JsNumber)  (* waitForWebLogin({timeoutMs}) *)
| Resume (t : nat)                        (* call [t] continues after its await *)
| SocketOpened (t : nat)                  (* createWaSocket of call [t] resolves *)
| SocketFailed (t : nat) (err : JsError)  (* ... rejects *)
| QrEmitted (t : nat) (code : string)     (* the transport calls onQr(code) *)
| QrTimerFires (t : nat)
| Rendered (t : nat) (base64 : string)    (* renderQrPngBase64 resolves *)
| ConnSettles (p : nat) (o : ConnOutcome) (* waitForWaConnection settles *)
| RaceTimeout (t : nat)
| ClockSet (z : Z)                        (* the wall clock is set to [z] *)
| AuthFailed (t : nat) (err : JsError)    (* webAuthExists of call [t] rejects *)
| RenderFailed (t : nat) (err : JsError). (* renderQrPngBase64 ... rejects *)

Definition step (e : Event) (w : World) : option World :=
  match e with
  | Tick d => Some (set_mono (mono w + Z.of_N d) (set_now (now w + Z.of_N d) w))
  | CredsSaved c => Some (set_creds c w)
  | CallStart opts => Some (startWebLoginWithQr opts w)
  | CallWait timeoutMs => waitForWebLogin timeoutMs w
  | Resume t =>
      tk ← tasks w !! t;
      match tk with
      | TStart opts locals pc => start_resume t opts locals pc w
      | TWait pc => wait_resume t pc w
      end
  | SocketOpened t =>
      tk ← tasks w !! t;
      match tk with
      | TStart opts locals SAwaitSocket => start_socket_opened t opts locals w
      | TWait (WAwaitRestartSocket login deadline) =>
          w1 ← restartLoginSocket_opened login (next_sock w) (bump_sock w);
          Some (wait_at t (WAwaitRestart login deadline true) w1)
      | _ => None
      end
  | SocketFailed t err =>
      tk ← tasks w !! t;
      match tk with
      | TStart opts locals SAwaitSocket => start_socket_failed t opts locals err w
      | TWait (WAwaitRestartSocket login deadline) =>
          Some (wait_at t (WAwaitRestart login deadline false)
                  (restartLoginSocket_failed login err w))
      | _ => None
      end
  | QrEmitted t code => onQr t code w
  | QrTimerFires t => qr_timer_fires t w
  | Rendered t base64 =>
      tk ← tasks w !! t;
      match tk with
      | TStart opts locals (SAwaitRender login _) =>
          start_rendered t opts locals login base64 w
      | _ => None
      end
  | ConnSettles p o => conn_settles p o w
  | RaceTimeout t => race_timeout t w
  | ClockSet z => Some (set_now z w)
  | AuthFailed t err =>
      tk ← tasks w !! t;
      match tk with
      | TStart opts locals SAwaitAuth =>
          Some (set_task t (TStart opts locals (SThrown err)) w)
      | _ => None
      end
  | RenderFailed t err =>
      tk ← tasks w !! t;
      match tk with
      | TStart opts locals (SAwaitRender _ _) =>
          Some (set_task t (TStart opts locals (SThrown err)) w)
      | _ => None
      end
  end.

Fixpoint run (es : list Event) (w : World) : option World :=
  match es with
  | [] => Some w
  | e :: es' => w1 ← step e w; run es' w1
  end.

Definition init : World :=
  {| activeLogin := None; heap := ∅; promises := ∅; tasks := ∅;
     creds := {| linked := false; e164 := None; jid := None |};
     now := 0; mono := 0; trace := [];
     next_login := 0; next_sock := 0; next_promise := 0; next_task := 0 |}.

Definition reachable (w : World) : Prop :=
  ∃ es, run es init = Some w.

(** ** The results of [startWebLoginWithQr] *)

Inductive StartResultKind :=
| AlreadyLinked
| ReusedPending
| NewArtifact
| Failure.

Definition start_result_is (k : StartResultKind) (r : StartResult) : Prop :=
  match k with
  | AlreadyLinked =>
      ∃ who, r = {| r_qrDataUrl := None; r_message := msg_already_linked who |}
  | ReusedPending =>
      ∃ url, r = {| r_qrDataUrl := Some url; r_message := msg_qr_active |}
  | NewArtifact =>
      ∃ base64, r = {| r_qrDataUrl := Some (data_url base64); r_message := msg_scan |}
  | Failure =>
      ∃ err, r = {| r_qrDataUrl := None; r_message := msg_start_failed err |} ∨
             r = {| r_qrDataUrl := None; r_message := msg_qr_failed err |}
  end.

(** ** Invariants of the reachable states *)

(** What a suspended call relies on. *)
Definition pending_for (w : World) (l : nat) : Prop :=
  ∃ p s, promises w !! p = Some (PWaiting l s).

Definition restarting (w : World) (l : nat) : Prop :=
  ∃ t d, tasks w !! t = Some (TWait (WAwaitRestartSocket l d)).

(** While [qrPromise] is pending its timer is armed. *)
Definition locals_ok (locals : option QrLocals) : Prop :=
  ∃ q, locals = Some q ∧ (qrPromise q = QrPending → is_Some (qrTimer q)).

Definition task_ok (w : World) (tk : Task) : Prop :=
  match tk with
  | TStart _ locals SAwaitSocket => locals_ok locals
  | TStart _ locals (SAwaitQr l) => is_Some (heap w !! l) ∧ locals_ok locals
  | TStart _ _ (SAwaitRender l _) => is_Some (heap w !! l)
  | TStart _ _ (SReturned r) => ∃ k, start_result_is k r
  | TWait (WRace l _ _ _) => is_Some (heap w !! l)
  | TWait (WAwaitRestart l _ _) => is_Some (heap w !! l)
  | TWait (WAwaitRestartSocket l _) =>
      ∃ lg, heap w !! l = Some lg ∧ restartAttempted lg = true ∧
            connected lg = false ∧ ¬ pending_for w l
  | _ => True
  end.

Record Inv (w : World) : Prop := {
  inv_slot : ∀ a, activeLogin w = Some a → is_Some (heap w !! a);
  inv_ids : ∀ l lg, heap w !! l = Some lg → id lg = l ∧ (l < next_login w)%nat;
  inv_promise_fresh : ∀ p st, promises w !! p = Some st → (p < next_promise w)%nat;
  inv_task_fresh : ∀ t tk, tasks w !! t = Some tk → (t < next_task w)%nat;
  inv_task_ok : ∀ t tk, tasks w !! t = Some tk → task_ok w tk;
  inv_restart_uniq : ∀ t t' l d d',
    tasks w !! t = Some (TWait (WAwaitRestartSocket l d)) →
    tasks w !! t' = Some (TWait (WAwaitRestartSocket l d')) → t = t';
  inv_excl : ∀ l lg, heap w !! l = Some lg → connected lg = true → error lg = None;
  inv_pending : ∀ p l s, promises w !! p = Some (PWaiting l s) →
    ∃ lg, heap w !! l = Some lg ∧ connected lg = false ∧ error lg = None;
  inv_pending_uniq : ∀ p q l s s',
    promises w !! p = Some (PWaiting l s) →
    promises w !! q = Some (PWaiting l s') → p = q;
  inv_artifact : ∀ l lg, heap w !! l = Some lg →
    qrDataUrl lg = None ∨ truthy (qrDataUrl lg) = true
}.

(** ** Effects of one step *)

(** The handle [resetActiveLogin] closes: that of the slot's attempt. *)
Definition slot_sockets (w : World) : list nat :=
  match activeLogin w with
  | Some a => match heap w !! a with Some lg => [sock lg] | None => [] end
  | None => []
  end.

Definition reason_log (reason : option string) : list Effect :=
  match reason with
  | Some r => if truthy reason then [ELogInfo r] else []
  | None => []
  end.

(** [s] is closed the way [resetActiveLogin] does it: it is the handle of the
    slot's attempt, and the slot is empty afterwards. *)
Definition reset_closed (w w' : World) (s : nat) : Prop :=
  ∃ a lg, activeLogin w = Some a ∧ heap w !! a = Some lg ∧ sock lg = s ∧
          activeLogin w' = None.

(** The step takes attempt [l] through l.77: [restartAttempted] goes from
    [false] to [true]. *)
Definition restart_flip (w w' : World) (l : nat) (lg : ActiveLogin) : Prop :=
  heap w !! l = Some lg ∧ restartAttempted lg = false ∧
  heap w' !! l = Some (set_restartAttempted true lg).

(** The step is the code timer of a call firing (l.135) while [qrPromise]
    is pending and the call does not await it yet. *)
Definition timer_unhandled (w w' : World) (err : string) : Prop :=
  ∃ t opts q pc due,
    tasks w !! t = Some (TStart opts (Some q) pc) ∧
    qrPromise q = QrPending ∧ awaits_qr pc = false ∧
    qrTimer q = Some due ∧ due ≤ mono w ∧
    err = qr_timeout_error ∧
    tasks w' !! t = Some (TStart opts (Some {| qrPromise := QrRejected err;
                                               qrTimer := None |}) pc).

Definition effect_justified (w w' : World) (x : Effect) : Prop :=
  match x with
  | ECloseSocket s =>
      reset_closed w w' s ∨ ∃ l lg, restart_flip w w' l lg ∧ sock lg = s
  | ECreateSocket v None => ∃ l lg, restart_flip w w' l lg ∧ verbose lg = v
  | EUnhandledRejection err =>
      timer_unhandled w w' err
  | _ => True
  end.

(** Every transport handle closed by a step, every reconnection opened by
    it, and every rejection it leaves unhandled, is accounted for. *)
Definition step_effects_ok (w w' : World) : Prop :=
  ∃ new, trace w' = (trace w ++ new)%list ∧ ∀ x, x ∈ new → effect_justified w w' x.

(** The step empties the slot by a call of [resetActiveLogin]: the call is
    made in a world [w0] that has the slot and the attempts of [w], after
    the step has emitted [pre], and all the step does after it is to move on
    the record of one call. *)
Definition emptied_by_reset (w w' : World) : Prop :=
  ∃ r w0 w1 pre t tk,
    activeLogin w0 = activeLogin w ∧ heap w0 = heap w ∧
    trace w0 = (trace w ++ pre)%list ∧
    resetActiveLogin r w0 = Some w1 ∧ w' = set_task t tk w1.

(** What one step may do to the slot: leave it, empty it by
    [resetActiveLogin], or (l.167) put the attempt just created by a call at
    [createWaSocket] into it. *)
Definition slot_step (e : Event) (w w' : World) : Prop :=
  activeLogin w' = activeLogin w ∨
  (activeLogin w' = None ∧ emptied_by_reset w w') ∨
  ∃ t opts locals, e = SocketOpened t ∧
    tasks w !! t = Some (TStart opts locals SAwaitSocket) ∧
    activeLogin w' = Some (next_login w) ∧ trace w' = trace w.

(** One attempt object later in time: same identity, and a restart once
    attempted stays attempted. *)
Definition evolves (lg lg' : ActiveLogin) : Prop :=
  id lg' = id lg ∧ startedAt lg' = startedAt lg ∧ verbose lg' = verbose lg ∧
  (restartAttempted lg = true → restartAttempted lg' = true).

Definition heap_evolves (h h' : gmap nat ActiveLogin) : Prop :=
  ∀ k x, h !! k = Some x → ∃ x', h' !! k = Some x' ∧ evolves x x'.

(** ** Example runs *)

Definition opts0 : StartOpts :=
  {| o_verbose := None; o_timeoutMs := None; o_force := None |}.

Definition err515 : JsError :=
  {| e_string := "Error: restart required";
     e_formatted := "restart required";
     e_status := Some 515 |}.

(** A login is started and its code rendered (call 0); a poll (call 1) sees
    the connection rejected with 515. *)
Definition run_to_515 : list Event :=
  [CallStart opts0; Resume 0%nat; Resume 0%nat; SocketOpened 0%nat;
   QrEmitted 0%nat "abc"; Resume 0%nat; Rendered 0%nat "AAAA";
   CallWait None; ConnSettles 1%nat (ConnRejected err515)].

(** ... the poll reconnects, and the new connection becomes ready. *)
Definition run_to_linked : list Event :=
  (run_to_515 ++ [Resume 1%nat; SocketOpened 1%nat; Resume 1%nat;
                  ConnSettles 2%nat ConnReady])%list.

(** The transport emits a code while [createWaSocket] is still awaited, and
    another one after the attempt is installed. *)
Definition run_early_code : list Event :=
  [CallStart opts0; Resume 0%nat; Resume 0%nat; QrEmitted 0%nat "early";
   SocketOpened 0%nat; QrEmitted 0%nat "late"; Resume 0%nat;
   Rendered 0%nat "AAAA"].

(** What a run leaves of attempt [l]: is it the slot's attempt, its id, its
    two markers. *)
Definition markers (es : list Event) (l : nat)
  : option (option nat * nat * bool * option string) :=
  w ← run es init;
  lg ← heap w !! l;
  Some (activeLogin w, id lg, connected lg, error lg).

(** The slot before and after event [e] at the end of run [es], and what the
    event emitted. *)
Definition last_step (es : list Event) (e : Event)
  : option (option nat * option nat * list Effect) :=
  w ← run es init;
  w' ← step e w;
  Some (activeLogin w, activeLogin w', drop (length (trace w)) (trace w')).

(** The result of call [t] of [startWebLoginWithQr] after run [es]. *)
Definition start_result (es : list Event) (t : nat) : option StartResult :=
  w ← run es init;
  tk ← tasks w !! t;
  match tk with
  | TStart _ _ (SReturned r) => Some r
  | _ => None
  end.

(** ** Counting reconnections *)

(** [login.restartAttempted] of the attempt at reference [l]. *)
Definition restart_flag (w : World) (l : nat) : bool :=
  match heap w !! l with
  | Some lg => restartAttempted lg
  | None => false
  end.

(** The steps of a run that take attempt [l] through l.77, its flag going
    from [false] to [true]: the steps that reconnect it. *)
Fixpoint reconnects (l : nat) (es : list Event) (w : World) : nat :=
  match es with
  | [] => 0
  | e :: es' =>
      match step e w with
      | Some w' =>
          ((if negb (restart_flag w l) && restart_flag w' l then 1 else 0)
           + reconnects l es' w')%nat
      | None => 0%nat
      end
  end.

(** ** Progress of [startWebLoginWithQr] *)

(** An upper bound on the [await]s a call still has before it returns. *)
Definition start_rank (pc : StartPc) : nat :=
  match pc with
  | SAwaitAuth => 5
  | SAwaitReset => 4
  | SAwaitSocket => 3
  | SAwaitQr _ => 2
  | SAwaitResetOpenFailed _ | SAwaitResetQrFailed _ | SAwaitRender _ _ => 1
  | SReturned _ | SThrown _ => 0
  end.

(** The control flow of [startWebLoginWithQr] from one [await] to the
    next. *)
Definition start_next (pc pc' : StartPc) : Prop :=
  match pc, pc' with
  | SAwaitAuth, (SReturned _ | SAwaitReset | SThrown _) => True
  | SAwaitReset, SAwaitSocket => True
  | SAwaitSocket, (SAwaitQr _ | SAwaitResetOpenFailed _) => True
  | SAwaitQr _, (SAwaitRender _ _ | SAwaitResetQrFailed _) => True
  | (SAwaitResetOpenFailed _ | SAwaitResetQrFailed _ | SAwaitRender _ _),
    SReturned _ => True
  | SAwaitRender _ _, SThrown _ => True
  | _, _ => False
  end.

(** What step [e] may do to the record of call [t]: a call of
    [startWebLoginWithQr] keeps its options and follows its control flow,
    and it ends by rejecting only when [webAuthExists] or the renderer
    does. *)
Definition task_step (e : Event) (t : nat) (old : option Task) (tk' : Task) : Prop :=
  match old with
  | None => True
  | Some (TStart opts _ pc) =>
      ∃ locals' pc', tk' = TStart opts locals' pc' ∧
        (pc' = pc ∨ start_next pc pc') ∧
        (∀ err, pc' = SThrown err →
           pc = SThrown err ∨ e = AuthFailed t err ∨ e = RenderFailed t err)
  | Some (TWait _) => ∃ pc', tk' = TWait pc'
  end.

Definition tasks_step (e : Event) (w w' : World) : Prop :=
  tasks w' = tasks w ∨
  ∃ t tk', tasks w' = <[t := tk']> (tasks w) ∧ task_step e t (tasks w !! t) tk'.

(** Every answer the collaborators can give at the [await] a call is
    suspended at is taken: the step is defined. *)
Definition start_never_stuck (w : World) (t : nat) (locals : option QrLocals)
    (pc : StartPc) : Prop :=
  match pc with
  | SAwaitAuth =>
      is_Some (step (Resume t) w) ∧
      ∀ err, is_Some (step (AuthFailed t err) w)
  | SAwaitReset | SAwaitResetOpenFailed _ | SAwaitResetQrFailed _ =>
      is_Some (step (Resume t) w)
  | SAwaitSocket =>
      is_Some (step (SocketOpened t) w) ∧
      ∀ err, is_Some (step (SocketFailed t err) w)
  | SAwaitQr _ =>
      ∃ q, locals = Some q ∧
        match qrPromise q with
        | QrPending =>
            ∃ due, qrTimer q = Some due ∧
                   (due ≤ mono w → is_Some (step (QrTimerFires t) w))
        | _ => is_Some (step (Resume t) w)
        end
  | SAwaitRender _ _ =>
      (∀ base64, is_Some (step (Rendered t base64) w)) ∧
      ∀ err, is_Some (step (RenderFailed t err) w)
  | SReturned _ | SThrown _ => True
  end.

(** The events that answer the [await] of call [t]. *)
Definition answers (t : nat) (e : Event) : Prop :=
  match e with
  | Resume t' | SocketOpened t' | SocketFailed t' _ | Rendered t' _
  | AuthFailed t' _ | RenderFailed t' _ => t' = t
  | _ => False
  end.

Definition err401 : JsError :=
  {| e_string := "Error: logged out";
     e_formatted := "logged out";
     e_status := Some 401 |}.

(** The attempt of call 0 is installed and its code rendered. *)
Definition run_to_pending : list Event := take 7 run_to_515.

(** As [run_to_515], the connection being rejected as logged out. *)
Definition run_to_logged_out : list Event :=
  (run_to_pending ++ [CallWait None; ConnSettles 1%nat (ConnRejected err401)])%list.

(** The attempt of call 0 is more than three minutes old. *)
Definition run_to_stale : list Event := (run_to_pending ++ [Tick 180001%N])%list.

(** Call 0 installs attempt 0, which gets no code; call 1 disposes of it and
    installs attempt 1.  The completion promise 1 of attempt 0 is still
    pending. *)
Definition run_to_superseded : list Event :=
  [CallStart opts0; Resume 0%nat; Resume 0%nat; SocketOpened 0%nat;
   CallStart opts0; Resume 1%nat; Resume 1%nat; SocketOpened 1%nat].

(** The world a run from [init] ends in. *)
Definition world_after (es : list Event) : World :=
  default init (run es init).

(** Attempt 0 of the example runs once its code is rendered, with the error
    recorded on it. *)
Definition attempt_rendered (err : option string) (status : option Z) : ActiveLogin :=
  {| id := 0; sock := 0; startedAt := 0; qr := Some "abc";
     qrDataUrl := Some (data_url "AAAA"); connected := false; error := err;
     errorStatus := status; waitPromise := 1; restartAttempted := false;
     verbose := false |}.

(** The result of call [t] of [waitForWebLogin] after run [es]. *)
Definition wait_result (es : list Event) (t : nat) : option WaitResult :=
  w ← run es init;
  tk ← tasks w !! t;
  match tk with
  | TWait (WReturned r) => Some r
  | _ => None
  end.

(** The slot and the trace after run [es]. *)
Definition outcome (es : list Event) : option (option nat * list Effect) :=
  w ← run es init;
  Some (activeLogin w, trace w).

Definition creds_linked : Creds :=
  {| linked := true; e164 := Some "+15550100"; jid := None |}.

Definition opts_5s : StartOpts :=
  {| o_verbose := None; o_timeoutMs := Some (Num 5000); o_force := None |}.

(** The delay the race timer of a poll gets on entry (l.208-222). *)
Definition poll_delay (tm : option JsNumber) : Z :=
  setTimeout_delay (Math_max (default (Num 120000) tm) 1000).



Definition err500 : JsError :=
  {| e_string := "Error: boom"; e_formatted := "boom"; e_status := Some 500 |}.

(** Where call [t] of [startWebLoginWithQr] is after run [es]. *)
Definition start_pc (es : list Event) (t : nat) : option StartPc :=
  w ← run es init;
  tk ← tasks w !! t;
  match tk with
  | TStart _ _ pc => Some pc
  | TWait _ => None
  end.


(** ** Further relations between a world and its successor *)

(** The step is a poll that sees a rejection with the logged-out status
    (l.236-238). *)
Definition logout_step (e : Event) (w : World) : Prop :=
  ∃ t login d p due lg, e = Resume t ∧
    tasks w !! t = Some (TWait (WRace login d p due)) ∧
    promises w !! p = Some PFulfilled ∧
    heap w !! login = Some lg ∧ truthy (error lg) = true ∧
    errorStatus lg = Some DisconnectReason_loggedOut.

(** What one step may do to the clock and to the persisted credentials. *)
Definition env_step (e : Event) (w w' : World) : Prop :=
  (now w' = now w ∨ (∃ d, e = Tick d ∧ now w' = now w + Z.of_N d) ∨
   (∃ z, e = ClockSet z ∧ now w' = z)) ∧
  (creds w' = creds w ∨ (∃ c, e = CredsSaved c ∧ creds w' = c) ∨
   (logout_step e w ∧ linked (creds w') = false)).

(** A code once recorded on an attempt stays. *)
Definition keeps_code (lg lg' : ActiveLogin) : Prop :=
  truthy (qr lg) = true → qr lg' = qr lg.

Definition heap_keeps_code (h h' : gmap nat ActiveLogin) : Prop :=
  ∀ k x, h !! k = Some x → ∃ x', h' !! k = Some x' ∧ keeps_code x x'.

(** ** Transports that are left behind *)

(** The handles of the attempts after a step that may create handle [n]:
    every attempt has the handle it had, or [n]. *)
Definition socks_from (n : nat) (h h' : gmap nat ActiveLogin) : Prop :=
  ∀ k x', h' !! k = Some x' → sock x' = n ∨ ∃ x, h !! k = Some x ∧ sock x' = sock x.

Definition socks_step (w w' : World) : Prop :=
  (next_sock w ≤ next_sock w')%nat ∧ socks_from (next_sock w) (heap w) (heap w').

(** Handle [s] exists, and an attempt that holds it is not in the slot and
    has used up its restart. *)
Definition abandoned_by (w : World) (s : nat) (k : nat) (x : ActiveLogin) : bool :=
  negb (bool_decide (sock x = s)) ||
  (negb (bool_decide (activeLogin w = Some k)) && restartAttempted x).

Definition abandoned (w : World) (s : nat) : bool :=
  bool_decide (s < next_sock w)%nat &&
  forallb (λ kx, abandoned_by w s kx.1 kx.2) (map_to_list (heap w)).

(** ** The results of [waitForWebLogin] *)

Definition wait_result_ok (r : WaitResult) : Prop :=
  r = {| r_connected := true; r_wmessage := msg_linked |} ∨
  r_connected r = false ∧
  (r_wmessage r = msg_no_login ∨ r_wmessage r = msg_expired ∨
   r_wmessage r = msg_still_waiting ∨ r_wmessage r = msg_logged_out ∨
   r_wmessage r = msg_no_connection ∨ ∃ err, r_wmessage r = msg_failed err).

(** The message a poll carries across its last [await] is the one it
    returns. *)
Definition wait_pc_ok (tk : Task) : Prop :=
  match tk with
  | TWait (WAwaitResetLoggedOut m) => m = msg_logged_out
  | TWait (WAwaitResetFailed m) => ∃ err, m = msg_failed err
  | TWait (WAwaitResetLinked m) => m = msg_linked
  | TWait (WReturned r) => wait_result_ok r
  | _ => True
  end.

Definition waits_ok (w : World) : Prop :=
  ∀ t tk, tasks w !! t = Some tk → wait_pc_ok tk.

(** ** Further example runs *)


(** The connection of attempt 0 becomes ready while a poll waits. *)
Definition run_to_connected : list Event :=
  (run_to_pending ++ [CallWait None; ConnSettles 1%nat ConnReady])%list.

(** ... is rejected with a status that is neither logged-out nor 515. *)
Definition run_to_other_error : list Event :=
  (run_to_pending ++ [CallWait None; ConnSettles 1%nat (ConnRejected err500)])%list.

(** The poll of [run_to_515] is inside [restartLoginSocket], at l.85. *)
Definition run_to_restart_socket : list Event :=
  (run_to_515 ++ [Resume 1%nat])%list.

(** ... and has its new transport, at l.246. *)
Definition run_to_restarted : list Event :=
  (run_to_restart_socket ++ [SocketOpened 1%nat])%list.

(** Two polls (calls 1 and 2) wait on attempt 0 when it is rejected with
    515.  Call 1 starts the restart; call 2 finds it attempted, fails and
    disposes of the attempt; then the restart of call 1 completes and its new
    connection becomes ready, the slot being empty. *)
Definition run_two_polls : list Event :=
  (run_to_pending ++
   [CallWait None; CallWait None; ConnSettles 1%nat (ConnRejected err515);
    Resume 1%nat; Resume 2%nat; Resume 2%nat; Resume 2%nat;
    SocketOpened 1%nat; Resume 1%nat; ConnSettles 2%nat ConnReady])%list.

(** Attempt 0 is installed and has no code yet when [startWebLoginWithQr] is
    called again (call 1). *)
Definition run_to_second_start : list Event :=
  [CallStart opts0; Resume 0%nat; Resume 0%nat; SocketOpened 0%nat;
   CallStart opts0].

(** Attempt 0 of the example runs before any code arrived. *)
Definition attempt_installed : ActiveLogin :=
  {| id := 0; sock := 0; startedAt := 0; qr := None; qrDataUrl := None;
     connected := false; error := None; errorStatus := None;
     waitPromise := 1; restartAttempted := false; verbose := false |}.

(** Two calls of [startWebLoginWithQr] overlap: both are past the reset and
    wait for their transports when that of call 0 opens and attempt 0 is
    installed. *)
Definition run_two_starts : list Event :=
  [CallStart opts0; Resume 0%nat; Resume 0%nat;
   CallStart opts0; Resume 1%nat; Resume 1%nat; SocketOpened 0%nat].

(** The world run [es] ends in, after [resetActiveLogin(r)]. *)
Definition disposed (r : option string) (es : list Event) : World :=
  default init (w ← run es init; resetActiveLogin r w).

(** Attempt 0 of the example runs after its restart. *)
Definition attempt_restarted : ActiveLogin :=
  set_restartAttempted true (set_waitPromise 2 (set_sock 1 (attempt_rendered None None))).

(** The account is linked again while the poll of [run_to_logged_out] has
    not yet looked at the rejection. *)
Definition run_to_relinked : list Event :=
  (run_to_logged_out ++ [CredsSaved creds_linked])%list.

(** * Proofs *)

Lemma World_ext w1 w2 :
  activeLogin w1 = activeLogin w2 → heap w1 = heap w2 →
  promises w1 = promises w2 → tasks w1 = tasks w2 → creds w1 = creds w2 →
  now w1 = now w2 → mono w1 = mono w2 → trace w1 = trace w2 →
  next_login w1 = next_login w2 →
  next_sock w1 = next_sock w2 → next_promise w1 = next_promise w2 →
  next_task w1 = next_task w2 → w1 = w2.
Proof. destruct w1, w2; simpl; intros; by subst. Qed.

(** Equal worlds, field by field; consecutive writes to one object merge. *)
Ltac world_eq :=
  apply World_ext; simpl; rewrite ?alter_alter_eq; try done.

Lemma run_cons e es w : run (e :: es) w = step e w ≫= run es.
Proof. done. Qed.

Lemma run_app es1 es2 w : run (es1 ++ es2) w = run es1 w ≫= run es2.
Proof.
  revert w. induction es1 as [|e es1 IH]; intros w; simpl; [done|].
  destruct (step e w); simpl; [apply IH|done].
Qed.

Lemma option_bind_Some {A B} (x : A) (f : A → option B) : Some x ≫= f = f x.
Proof. done. Qed.

Lemma step_Resume_start t w opts locals pc :
  tasks w !! t = Some (TStart opts locals pc) →
  step (Resume t) w = start_resume t opts locals pc w.
Proof. intros H. simpl. by rewrite H. Qed.

Lemma step_Resume_wait t w pc :
  tasks w !! t = Some (TWait pc) →
  step (Resume t) w = wait_resume t pc w.
Proof. intros H. simpl. by rewrite H. Qed.

(** ** Preservation of [Inv] by the elementary updates *)

Lemma Inv_init : Inv init.
Proof. split; simpl; intros; try done. Qed.

(** Updates that leave slot, heap, promises, calls and counters alone. *)
Lemma Inv_frame w w' :
  activeLogin w' = activeLogin w → heap w' = heap w →
  promises w' = promises w → tasks w' = tasks w →
  next_login w' = next_login w → next_promise w' = next_promise w →
  next_task w' = next_task w →
  Inv w → Inv w'.
Proof.
  intros Ha Hh Hp Ht Hl Hnp Hnt [I1 I2 I3 I4 I5 I6 I7 I8 I9 I10].
  split; rewrite ?Ha, ?Hh, ?Hp, ?Ht, ?Hl, ?Hnp, ?Hnt; try done.
  intros t tk Htk. specialize (I5 t tk Htk).
  destruct tk as [o l pc|pc]; [destruct pc|destruct pc]; simpl in *;
    unfold pending_for in *; rewrite ?Hh, ?Hp; done.
Qed.

Lemma task_ok_frame w w' tk :
  heap w' = heap w → promises w' = promises w → task_ok w tk → task_ok w' tk.
Proof.
  intros Hh Hp.
  destruct tk as [o l pc|pc]; [destruct pc|destruct pc]; simpl;
    unfold pending_for; rewrite ?Hh, ?Hp; done.
Qed.

Lemma Inv_emit e w : Inv w → Inv (emit e w).
Proof. by apply Inv_frame. Qed.

Lemma Inv_set_now t w : Inv w → Inv (set_now t w).
Proof. by apply Inv_frame. Qed.

Lemma Inv_set_mono t w : Inv w → Inv (set_mono t w).
Proof. by apply Inv_frame. Qed.

Lemma Inv_set_creds c w : Inv w → Inv (set_creds c w).
Proof. by apply Inv_frame. Qed.

Lemma Inv_bump_sock w : Inv w → Inv (bump_sock w).
Proof. by apply Inv_frame. Qed.

Lemma Inv_bump_task w : Inv w → Inv (bump_task w).
Proof.
  intros [I1 I2 I3 I4 I5 I6 I7 I8 I9 I10]. split; simpl; try done.
  intros t tk Htk. specialize (I4 t tk Htk). lia.
Qed.

Lemma Inv_set_slot a w :
  Inv w → (∀ l, a = Some l → is_Some (heap w !! l)) → Inv (set_activeLogin a w).
Proof.
  intros [I1 I2 I3 I4 I5 I6 I7 I8 I9 I10] Ha. split; simpl; done.
Qed.

Lemma Inv_set_task t tk w :
  Inv w → (t < next_task w)%nat → task_ok w tk →
  (∀ l d, tk = TWait (WAwaitRestartSocket l d) →
     ∀ t' d', tasks w !! t' = Some (TWait (WAwaitRestartSocket l d')) → t' = t) →
  Inv (set_task t tk w).
Proof.
  intros [I1 I2 I3 I4 I5 I6 I7 I8 I9 I10] Ht Hok Hu. split; simpl; try done.
  - intros t' tk'. rewrite lookup_insert. case_decide; [by subst|eauto].
  - intros t' tk'. rewrite lookup_insert. case_decide.
    + intros [= <-]. eapply task_ok_frame; [..|exact Hok]; done.
    + intros Htk. eapply task_ok_frame; [..|by eapply I5]; done.
  - intros t1 t2 l d d'. rewrite !lookup_insert.
    repeat case_decide; subst; try congruence.
    + intros [= ->] H2. symmetry. by eapply Hu.
    + intros H1 [= ->]. by eapply Hu.
    + eauto.
Qed.

Lemma Inv_fulfil p w :
  Inv w → (p < next_promise w)%nat →
  Inv (set_promises (<[p := PFulfilled]> (promises w)) w).
Proof.
  intros [I1 I2 I3 I4 I5 I6 I7 I8 I9 I10] Hp. split; simpl; try done.
  - intros q st. rewrite lookup_insert. case_decide; [by subst|eauto].
  - intros t tk Htk. specialize (I5 t tk Htk).
    destruct tk as [o l pc|pc]; [destruct pc|destruct pc]; simpl in *; try done.
    destruct I5 as (lg & ? & ? & ? & Hn). exists lg. split_and!; try done.
    intros (q & s & Hq). apply Hn. exists q, s.
    simpl in Hq. rewrite lookup_insert in Hq. by case_decide.
  - intros q l s. rewrite lookup_insert. case_decide; [done|eauto].
  - intros q1 q2 l s s'. rewrite !lookup_insert.
    repeat case_decide; try done. eauto.
Qed.

(** [login.f = v] *)
Lemma Inv_write l f w :
  Inv w →
  (∀ lg, heap w !! l = Some lg →
     id (f lg) = id lg ∧
     (connected (f lg) = true → error (f lg) = None) ∧
     (pending_for w l → connected (f lg) = false ∧ error (f lg) = None) ∧
     (restarting w l → restartAttempted (f lg) = true ∧ connected (f lg) = false) ∧
     (qrDataUrl (f lg) = None ∨ truthy (qrDataUrl (f lg)) = true)) →
  Inv (write l f w).
Proof.
  intros [I1 I2 I3 I4 I5 I6 I7 I8 I9 I10] Hf.
  assert (Hal : ∀ k, is_Some (heap w !! k) → is_Some (alter f l (heap w) !! k)).
  { intros k [x Hx]. rewrite lookup_alter. case_decide; subst; rewrite Hx; eauto. }
  split; simpl; try done.
  - eauto.
  - intros k lg. rewrite lookup_alter. case_decide; [|eauto]. subst k.
    destruct (heap w !! l) as [lg0|] eqn:E; [|done]. intros [= <-].
    destruct (Hf lg0 eq_refl) as (-> & _). eauto.
  - intros t tk Htk. specialize (I5 t tk Htk).
    destruct tk as [o lc pc|pc]; [destruct pc|destruct pc]; simpl in *;
      try done; try (by apply Hal); try (by destruct I5; split; [apply Hal|]).
    destruct I5 as (lg & Hlg & Hr & Hc & Hn).
    destruct (decide (l = login)) as [->|Hne].
    + destruct (Hf lg Hlg) as (_ & _ & _ & Hrs & _).
      destruct Hrs as [? ?]; [by exists t, deadline|].
      exists (f lg). rewrite lookup_alter_eq, Hlg. done.
    + exists lg. rewrite lookup_alter_ne by done. done.
  - intros k lg. rewrite lookup_alter. case_decide; [|eauto]. subst k.
    destruct (heap w !! l) as [lg0|] eqn:E; [|done]. intros [= <-].
    by destruct (Hf lg0 eq_refl) as (_ & ? & _).
  - intros p k s Hp. destruct (I8 p k s Hp) as (lg & Hlg & Hc & He).
    destruct (decide (l = k)) as [->|Hne].
    + destruct (Hf lg Hlg) as (_ & _ & Hpd & _).
      destruct Hpd as [? ?]; [by exists p, s|].
      exists (f lg). rewrite lookup_alter_eq, Hlg. done.
    + exists lg. rewrite lookup_alter_ne by done. done.
  - intros k lg. rewrite lookup_alter. case_decide; [|eauto]. subst k.
    destruct (heap w !! l) as [lg0|] eqn:E; [|done]. intros [= <-].
    by destruct (Hf lg0 eq_refl) as (_ & _ & _ & _ & ?).
Qed.

Lemma Inv_write_neutral l f w :
  (∀ lg, id (f lg) = id lg ∧ connected (f lg) = connected lg ∧
         error (f lg) = error lg ∧ qrDataUrl (f lg) = qrDataUrl lg ∧
         (restartAttempted lg = true → restartAttempted (f lg) = true)) →
  Inv w → Inv (write l f w).
Proof.
  intros Hf HI. apply Inv_write; [done|]. intros lg Hlg.
  destruct (Hf lg) as (Hi & Hc & He & Hq & Hr). rewrite Hi, Hc, He, Hq.
  split_and!; [done|by eapply inv_excl|..|by eapply inv_artifact].
  - intros (p & s & Hp). destruct (inv_pending _ HI p l s Hp) as (lg' & ? & ? & ?).
    by simplify_eq.
  - intros (t & d & Ht). pose proof (inv_task_ok _ HI t _ Ht) as Hok. simpl in Hok.
    destruct Hok as (lg' & ? & ? & ? & _). simplify_eq. eauto.
Qed.

(** A new pending promise is attached for [l]. *)
Lemma Inv_add_pending l s lg w :
  Inv w → heap w !! l = Some lg → connected lg = false → error lg = None →
  ¬ pending_for w l → ¬ restarting w l →
  Inv (bump_promise (set_promises (<[next_promise w := PWaiting l s]> (promises w)) w)).
Proof.
  intros HI Hl Hc He Hnp Hnr. pose proof HI as [I1 I2 I3 I4 I5 I6 I7 I8 I9 I10].
  split; simpl; try done.
  - intros p st. rewrite lookup_insert. case_decide; [intros; subst; lia|].
    intros Hp. specialize (I3 p st Hp). lia.
  - intros t tk Htk. specialize (I5 t tk Htk).
    destruct tk as [o lc pc|pc]; [destruct pc|destruct pc]; simpl in *; try done.
    destruct I5 as (lg' & ? & ? & ? & Hn). exists lg'. split_and!; try done.
    intros (q & s' & Hq). simpl in Hq. rewrite lookup_insert in Hq.
    case_decide; [|apply Hn; by exists q, s'].
    simplify_eq. apply Hnr. by exists t, deadline.
  - intros p k s'. rewrite lookup_insert. case_decide; [|eauto].
    intros [= <- <-]. eauto.
  - intros p q k s1 s2. rewrite !lookup_insert.
    repeat case_decide; subst; try done.
    + intros [= <- <-] Hq. destruct Hnp. by exists q, s2.
    + intros Hp [= <- <-]. destruct Hnp. by exists p, s1.
    + eauto.
Qed.

Lemma attachLoginWaiter_Inv l lg w w' :
  attachLoginWaiter l w = Some w' →
  Inv w → heap w !! l = Some lg → connected lg = false → error lg = None →
  ¬ pending_for w l → ¬ restarting w l → Inv w'.
Proof.
  unfold attachLoginWaiter. intros H HI Hl Hc He Hnp Hnr.
  rewrite Hl in H. simpl in H. injection H as <-.
  apply Inv_write_neutral; [done|]. by eapply Inv_add_pending.
Qed.

(** A new object is stored at the next free reference. *)
Lemma Inv_alloc lg w :
  Inv w → id lg = next_login w → connected lg = false → error lg = None →
  qrDataUrl lg = None →
  Inv (set_heap (<[next_login w := lg]> (heap w)) (bump_login w)).
Proof.
  intros HI Hi Hc He Hq. pose proof HI as [I1 I2 I3 I4 I5 I6 I7 I8 I9 I10].
  assert (Hfresh : heap w !! next_login w = None).
  { destruct (heap w !! next_login w) eqn:E; [|done].
    destruct (I2 _ _ E). lia. }
  assert (Hal : ∀ k, is_Some (heap w !! k) →
                     <[next_login w := lg]> (heap w) !! k = heap w !! k).
  { intros k [x Hx]. rewrite lookup_insert_ne; [done|]. intros <-. congruence. }
  split; simpl; try done.
  - intros a Ha. rewrite Hal; eauto.
  - intros k x. rewrite lookup_insert. case_decide.
    + intros [= <-]. subst k. split; [done|lia].
    + intros Hx. destruct (I2 _ _ Hx). split; [done|lia].
  - intros t tk Htk. specialize (I5 t tk Htk).
    destruct tk as [o lc pc|pc]; [destruct pc|destruct pc]; simpl in *;
      try done; try (by rewrite Hal); try (by destruct I5; split; [rewrite Hal|]).
    destruct I5 as (lg' & Hl' & ? & ? & Hn). exists lg'.
    rewrite Hal by eauto. done.
  - intros k x. rewrite lookup_insert. case_decide; [|eauto].
    intros [= <-]. congruence.
  - intros p k s Hp. destruct (I8 p k s Hp) as (x & Hx & ? & ?).
    exists x. rewrite Hal by eauto. done.
  - intros k x. rewrite lookup_insert. case_decide; [|eauto].
    intros [= <-]. by left.
Qed.

Lemma resetActiveLogin_Inv r w w' :
  resetActiveLogin r w = Some w' → Inv w → Inv w'.
Proof.
  unfold resetActiveLogin. intros H HI.
  assert (Hlog : ∀ w0, Inv w0 → Inv (log_reason r w0)).
  { intros w0 H0. unfold log_reason. destruct r; [|done].
    destruct (truthy _); [by apply Inv_emit|done]. }
  destruct (activeLogin w) as [a|]; simpl in H.
  - destruct (heap w !! a) as [lg|]; simpl in H; [|done]. injection H as <-.
    apply Hlog. apply Inv_set_slot; [|done]. by apply Inv_emit.
  - injection H as <-. by apply Hlog.
Qed.

Lemma resetActiveLogin_frame r w w' :
  resetActiveLogin r w = Some w' →
  activeLogin w' = None ∧ heap w' = heap w ∧ promises w' = promises w ∧
  tasks w' = tasks w ∧ creds w' = creds w ∧ now w' = now w ∧
  next_login w' = next_login w ∧ next_sock w' = next_sock w ∧
  next_promise w' = next_promise w ∧ next_task w' = next_task w.
Proof.
  unfold resetActiveLogin, log_reason. intros H.
  destruct (activeLogin w) as [a|] eqn:Ea; simpl in H.
  - destruct (heap w !! a) as [lg|]; simpl in H; [|done]. injection H as <-.
    destruct r; [destruct (truthy _)|]; done.
  - injection H as <-. destruct r; [destruct (truthy _)|]; done.
Qed.

(** Call [t] moves on to another [await], or returns. *)
Lemma Inv_goto t tk0 tk w :
  Inv w → tasks w !! t = Some tk0 → task_ok w tk →
  (∀ l d, tk ≠ TWait (WAwaitRestartSocket l d)) →
  Inv (set_task t tk w).
Proof.
  intros HI Ht Hok Hne. apply Inv_set_task; try done.
  - by eapply inv_task_fresh.
  - intros l d ->. by destruct (Hne l d).
Qed.

Lemma Inv_reset_goto r t tk0 tk w w1 :
  Inv w → tasks w !! t = Some tk0 → resetActiveLogin r w = Some w1 →
  task_ok w tk → (∀ l d, tk ≠ TWait (WAwaitRestartSocket l d)) →
  Inv (set_task t tk w1).
Proof.
  intros HI Ht Hr Hok Hne.
  destruct (resetActiveLogin_frame _ _ _ Hr) as (_ & Hh & Hp & Hts & _).
  eapply Inv_goto; [by eapply resetActiveLogin_Inv|by rewrite Hts| |done].
  eapply task_ok_frame; [..|exact Hok]; done.
Qed.

Lemma truthy_Some o : truthy o = true → ∃ s, o = Some s.
Proof. destruct o; [eauto|done]. Qed.

Lemma start_resume_Inv t opts locals pc w w' :
  tasks w !! t = Some (TStart opts locals pc) →
  start_resume t opts locals pc w = Some w' → Inv w → Inv w'.
Proof.
  intros Ht H HI. pose proof (inv_task_ok _ HI _ _ Ht) as Hok.
  destruct pc; simpl in H, Hok; try done.
  - (* l.108-124 *)
    destruct (linked (creds w) && negb (Boolean (o_force opts))).
    { injection H as <-. eapply Inv_goto; [done..| |done].
      exists AlreadyLinked. simpl. eauto. }
    destruct (reusable w) as [[lg|]|] eqn:Er; simpl in H; [| |done].
    + injection H as <-. eapply Inv_goto; [done..| |done].
      exists ReusedPending. simpl.
      unfold reusable in Er. destruct (activeLogin w) as [a|]; [|done].
      destruct (heap w !! a) as [lg'|]; simpl in Er; [|done].
      destruct (isLoginFresh w lg' && truthy (qrDataUrl lg')) eqn:Ef; [|done].
      injection Er as ->. apply andb_prop in Ef as [_ Hq].
      apply truthy_Some in Hq as [url ->]. eauto.
    + destruct (resetActiveLogin None w) as [w1|] eqn:Hr; simpl in H; [|done].
      injection H as <-. by eapply Inv_reset_goto.
  - (* l.126-142 *)
    injection H as <-. eapply Inv_goto; [by apply Inv_emit|done| |done].
    simpl. eexists. split; [done|]. simpl. eauto.
  - injection H as <-. eapply Inv_goto; [done..| |done].
    exists Failure. simpl. eauto.
  - (* l.172 *)
    destruct Hok as (Hl & q & -> & Hq). simpl in H.
    destruct (qrPromise q) as [|code|err]; [done| |].
    + injection H as <-. by eapply Inv_goto.
    + destruct (resetActiveLogin None w) as [w1|] eqn:Hr; simpl in H; [|done].
      injection H as <-. by eapply Inv_reset_goto.
  - injection H as <-. eapply Inv_goto; [done..| |done].
    exists Failure. simpl. eauto.
Qed.

Lemma wait_loop_Inv t tk0 l d w w' :
  tasks w !! t = Some tk0 → wait_loop t l d w = Some w' → Inv w → Inv w'.
Proof.
  unfold wait_loop. intros Ht H HI. destruct (js_le0 _).
  - injection H as <-. by eapply Inv_goto.
  - destruct (heap w !! l) as [lg|] eqn:El; simpl in H; [|done].
    injection H as <-. eapply Inv_goto; [done..| |done]. simpl. by rewrite El.
Qed.

Lemma wait_fail_Inv t tk0 l w w' :
  tasks w !! t = Some tk0 → wait_fail t l w = Some w' → Inv w → Inv w'.
Proof.
  unfold wait_fail. intros Ht H HI.
  destruct (heap w !! l) as [lg|]; simpl in H; [|done].
  destruct (resetActiveLogin _ w) as [w1|] eqn:Hr; simpl in H; [|done].
  injection H as <-. by eapply Inv_reset_goto.
Qed.

Lemma error_truthy_not_pending w l lg :
  Inv w → heap w !! l = Some lg → truthy (error lg) = true →
  connected lg = false ∧ ¬ pending_for w l.
Proof.
  intros HI Hl He. split.
  - destruct (connected lg) eqn:Ec; [|done].
    rewrite (inv_excl _ HI _ _ Hl Ec) in He. done.
  - intros (p & s & Hp). destruct (inv_pending _ HI _ _ _ Hp) as (lg' & ? & _ & He').
    simplify_eq. by rewrite He' in He.
Qed.

Lemma restart_enter_Inv t tk0 l d w w1 pc :
  tasks w !! t = Some tk0 →
  (∀ lg, heap w !! l = Some lg → truthy (error lg) = true) →
  restartLoginSocket_enter l d w = Some (w1, pc) → Inv w →
  Inv (wait_at t pc w1).
Proof.
  unfold restartLoginSocket_enter. intros Ht He H HI.
  destruct (heap w !! l) as [lg|] eqn:El; simpl in H; [|done].
  specialize (He lg eq_refl).
  destruct (error_truthy_not_pending _ _ _ HI El He) as [Hc Hnp].
  destruct (restartAttempted lg) eqn:Er.
  - injection H as <- <-. eapply Inv_goto; [done..| |done]. simpl. by rewrite El.
  - injection H as <- <-.
    assert (Hnr : ¬ restarting w l).
    { intros (t' & d' & Ht'). pose proof (inv_task_ok _ HI _ _ Ht') as Hok.
      simpl in Hok. destruct Hok as (lg' & ? & ? & _). congruence. }
    apply Inv_set_task.
    + do 3 apply Inv_emit. apply Inv_write_neutral; [done|done].
    + simpl. by eapply (inv_task_fresh _ HI).
    + simpl. exists (set_restartAttempted true lg).
      rewrite lookup_alter_eq, El. done.
    + intros l' d' [= <- <-] t' d'' Ht'. destruct Hnr. by exists t', d''.
Qed.

Lemma wait_done_Inv t tk0 l d w w' :
  tasks w !! t = Some tk0 → wait_done t l d w = Some w' → Inv w → Inv w'.
Proof.
  unfold wait_done. intros Ht H HI.
  destruct (heap w !! l) as [lg|] eqn:El; simpl in H; [|done].
  destruct (truthy (error lg)) eqn:Ee.
  - case_bool_decide.
    { injection H as <-. eapply Inv_goto; [|done..].
      apply Inv_set_creds. by apply Inv_emit. }
    case_bool_decide; [|by eapply wait_fail_Inv].
    destruct (restartLoginSocket_enter l d w) as [[w1 pc]|] eqn:Hr; simpl in H; [|done].
    injection H as <-. eapply restart_enter_Inv; [done| |done..].
    intros lg' Hlg'. by simplify_eq.
  - destruct (connected lg).
    + destruct (resetActiveLogin None _) as [w2|] eqn:Hr; simpl in H; [|done].
      injection H as <-. eapply (Inv_reset_goto _ _ _ _ (emit _ w)); [|done..].
      by apply Inv_emit.
    + injection H as <-. by eapply Inv_goto.
Qed.

Lemma wait_resume_Inv t pc w w' :
  tasks w !! t = Some (TWait pc) →
  wait_resume t pc w = Some w' → Inv w → Inv w'.
Proof.
  intros Ht H HI. destruct pc; simpl in H; try done.
  - injection H as <-. by eapply Inv_goto.
  - destruct (promises w !! p) as [[|]|]; try done. by eapply wait_done_Inv.
  - destruct (resetActiveLogin _ w) as [w1|] eqn:Hr; simpl in H; [|done].
    injection H as <-. by eapply Inv_reset_goto.
  - injection H as <-. eapply (Inv_goto _ _ _ (emit _ w)); [|done..].
    by apply Inv_emit.
  - destruct (heap w !! login) as [lg|]; simpl in H; [|done].
    destruct (restarted && isLoginFresh w lg);
      [by eapply wait_loop_Inv|by eapply wait_fail_Inv].
  - injection H as <-. eapply (Inv_goto _ _ _ (emit _ w)); [|done..].
    by apply Inv_emit.
  - injection H as <-. by eapply Inv_goto.
Qed.

Lemma waitForWebLogin_Inv tm w w' :
  waitForWebLogin tm w = Some w' → Inv w → Inv w'.
Proof.
  unfold waitForWebLogin. intros H HI.
  assert (Hnew : ∀ w0 tk, Inv w0 → next_task w0 = S (next_task w) →
            task_ok w0 tk → (∀ l d, tk ≠ TWait (WAwaitRestartSocket l d)) →
            Inv (set_task (next_task w) tk w0)).
  { intros w0 tk H0 Hn Hok Hne. apply Inv_set_task; try done; [lia|].
    intros l d ->. by destruct (Hne l d). }
  pose proof (Inv_bump_task _ HI) as HI0.
  destruct (activeLogin (bump_task w)) as [login|].
  - destruct (heap (bump_task w) !! login) as [lg|] eqn:El; simpl in H; [|done].
    destruct (negb (isLoginFresh (bump_task w) lg)).
    + destruct (resetActiveLogin None _) as [w1|] eqn:Hr; simpl in H; [|done].
      injection H as <-.
      destruct (resetActiveLogin_frame _ _ _ Hr) as (_ & _ & _ & _ & _ & _ & _ & _ & _ & Hn).
      apply Hnew; [by eapply resetActiveLogin_Inv|by rewrite Hn|done..].
    + unfold wait_loop in H. destruct (js_le0 _).
      * injection H as <-. by apply Hnew.
      * rewrite El in H. simpl in H. injection H as <-. apply Hnew; try done.
        simpl. simpl in El. by rewrite El.
  - injection H as <-. by apply Hnew.
Qed.

(** [Promise.resolve()] *)
Lemma Inv_new_fulfilled w :
  Inv w →
  Inv (bump_promise (set_promises (<[next_promise w := PFulfilled]> (promises w)) w)).
Proof.
  intros HI. pose proof HI as [I1 I2 I3 I4 I5 I6 I7 I8 I9 I10].
  assert (Hfresh : promises w !! next_promise w = None).
  { destruct (promises w !! next_promise w) eqn:E; [|done].
    specialize (I3 _ _ E). lia. }
  split; simpl; try done.
  - intros q st. rewrite lookup_insert. case_decide; [intros; subst; lia|].
    intros Hq. specialize (I3 _ _ Hq). lia.
  - intros t tk Htk. specialize (I5 t tk Htk).
    destruct tk as [o l pc|pc]; [destruct pc|destruct pc]; simpl in *; try done.
    destruct I5 as (lg & ? & ? & ? & Hn). exists lg. split_and!; try done.
    intros (q & s & Hq). apply Hn. exists q, s.
    simpl in Hq. rewrite lookup_insert in Hq. by case_decide.
  - intros q l s. rewrite lookup_insert. case_decide; [done|eauto].
  - intros q1 q2 l s s'. rewrite !lookup_insert.
    repeat case_decide; try done. eauto.
Qed.

Lemma start_socket_opened_Inv t opts locals w w' :
  tasks w !! t = Some (TStart opts locals SAwaitSocket) →
  start_socket_opened t opts locals w = Some w' → Inv w → Inv w'.
Proof.
  unfold start_socket_opened. intros Ht H HI.
  pose proof (inv_task_ok _ HI _ _ Ht) as Hok. simpl in Hok.
  set (l := next_login w) in *.
  set (lg := {| id := l; sock := next_sock w; startedAt := now w; qr := None;
                qrDataUrl := None; connected := false; error := None;
                errorStatus := None; waitPromise := next_promise w;
                restartAttempted := false;
                verbose := Boolean (o_verbose opts) |}) in *.
  assert (Hfresh : heap w !! l = None).
  { destruct (heap w !! l) eqn:E; [|done].
    destruct (inv_ids _ HI _ _ E). unfold l in *. lia. }
  set (w0 := bump_promise (set_promises (<[next_promise w := PFulfilled]> (promises w))
               (bump_sock w))).
  assert (HI0 : Inv w0).
  { apply (Inv_new_fulfilled (bump_sock w)). by apply Inv_bump_sock. }
  set (w3 := set_activeLogin (Some l)
               (set_heap (<[l := lg]> (heap w0)) (bump_login w0))).
  assert (HI3 : Inv w3).
  { apply Inv_set_slot.
    - by apply (Inv_alloc lg w0).
    - intros ? [= <-]. simpl. rewrite lookup_insert_eq. eauto. }
  assert (Hl3 : heap w3 !! l = Some lg) by (simpl; by rewrite lookup_insert_eq).
  assert (Hnp : ¬ pending_for w3 l).
  { intros (p & s & Hp). simpl in Hp. rewrite lookup_insert in Hp.
    case_decide; [done|].
    destruct (inv_pending _ HI _ _ _ Hp) as (? & ? & _). congruence. }
  assert (Hnr : ¬ restarting w3 l).
  { intros (t' & d & Ht'). simpl in Ht'.
    pose proof (inv_task_ok _ HI _ _ Ht') as Hok'. simpl in Hok'.
    destruct Hok' as (? & ? & _). congruence. }
  change (attachLoginWaiter l w3 ≫= (λ w4, Some (set_task t (TStart opts locals (SAwaitQr l)) w4)) = Some w') in H.
  destruct (attachLoginWaiter l w3) as [w4|] eqn:Ha; simpl in H; [|done].
  injection H as <-.
  pose proof (attachLoginWaiter_Inv _ _ _ _ Ha HI3 Hl3 eq_refl eq_refl Hnp Hnr) as HI4.
  unfold attachLoginWaiter in Ha. rewrite Hl3 in Ha. simpl in Ha. injection Ha as <-.
  apply Inv_set_task; [done|simpl; by eapply (inv_task_fresh _ HI)| |done].
  simpl. rewrite lookup_alter_eq, lookup_insert_eq. split; [eauto|done].
Qed.

Lemma start_socket_failed_Inv t opts locals err w w' :
  tasks w !! t = Some (TStart opts locals SAwaitSocket) →
  start_socket_failed t opts locals err w = Some w' → Inv w → Inv w'.
Proof.
  unfold start_socket_failed. intros Ht H HI.
  destruct (resetActiveLogin None w) as [w1|] eqn:Hr; simpl in H; [|done].
  injection H as <-. by eapply Inv_reset_goto.
Qed.

Lemma restart_opened_Inv t l d w w1 :
  tasks w !! t = Some (TWait (WAwaitRestartSocket l d)) →
  restartLoginSocket_opened l (next_sock w) (bump_sock w) = Some w1 →
  Inv w → Inv (wait_at t (WAwaitRestart l d true) w1).
Proof.
  unfold restartLoginSocket_opened. intros Ht H HI.
  pose proof (inv_task_ok _ HI _ _ Ht) as Hok. simpl in Hok.
  destruct Hok as (lg & Hl & Hr & Hc & Hnp).
  set (w0 := set_task t (TWait (WAwaitRestart l d true)) (bump_sock w)).
  assert (HI0 : Inv w0).
  { eapply Inv_goto; [by apply Inv_bump_sock|done| |done]. simpl. by rewrite Hl. }
  assert (Hnr : ¬ restarting w0 l).
  { intros (t' & d' & Ht'). simpl in Ht'. rewrite lookup_insert in Ht'.
    case_decide; [done|]. apply H0. symmetry. by eapply (inv_restart_uniq _ HI). }
  set (f := λ x, set_errorStatus None (set_error None
                   (set_connected false (set_sock (next_sock w) x)))).
  assert (HI1 : Inv (write l f w0)).
  { apply Inv_write; [done|]. intros x Hx. simpl in Hx. simplify_eq. simpl.
    split_and!; try done. by eapply inv_artifact. }
  unfold attachLoginWaiter in H. simpl in H.
  rewrite !lookup_alter_eq, Hl in H. simpl in H. injection H as <-.
  pose (X := write l (set_waitPromise (next_promise w))
      (bump_promise (set_promises
         (<[next_promise w := PWaiting l (next_sock w)]> (promises w)) (write l f w0)))).
  match goal with |- Inv ?W => assert (HW : W = X) by world_eq end.
  rewrite HW. apply Inv_write_neutral; [done|].
  eapply (Inv_add_pending l _ (f lg) (write l f w0)); try done.
  simpl. by rewrite lookup_alter_eq, Hl.
Qed.

Lemma restart_failed_Inv t l d err w :
  tasks w !! t = Some (TWait (WAwaitRestartSocket l d)) → Inv w →
  Inv (wait_at t (WAwaitRestart l d false) (restartLoginSocket_failed l err w)).
Proof.
  intros Ht HI. pose proof (inv_task_ok _ HI _ _ Ht) as Hok. simpl in Hok.
  destruct Hok as (lg & Hl & Hr & Hc & Hnp).
  set (w0 := set_task t (TWait (WAwaitRestart l d false)) w).
  assert (HI0 : Inv w0).
  { eapply Inv_goto; [done|done| |done]. simpl. by rewrite Hl. }
  assert (Hnr : ¬ restarting w0 l).
  { intros (t' & d' & Ht'). simpl in Ht'. rewrite lookup_insert in Ht'.
    case_decide; [done|]. apply H. symmetry. by eapply (inv_restart_uniq _ HI). }
  set (f := λ x, set_errorStatus (e_status err) (set_error (Some (e_formatted err)) x)).
  assert (HI1 : Inv (write l f w0)).
  { apply Inv_write; [done|]. intros x Hx. simpl in Hx. simplify_eq. simpl.
    split_and!; try done; try congruence. by eapply inv_artifact. }
  match goal with |- Inv ?W => assert (HW : W = write l f w0) by world_eq end.
  by rewrite HW.
Qed.

Lemma onQr_Inv t code w w' : onQr t code w = Some w' → Inv w → Inv w'.
Proof.
  unfold onQr. intros H HI.
  destruct (tasks w !! t) as [[opts [q|] pc|]|] eqn:Ht; simpl in H; try done.
  destruct (activeLogin w) as [a|]; [|by injection H as <-].
  destruct (heap w !! a) as [lg|]; simpl in H; [|done].
  destruct (truthy (qr lg)); [by injection H as <-|]. injection H as <-.
  pose proof (inv_task_ok _ HI _ _ Ht) as Hok.
  eapply Inv_goto.
  - apply Inv_emit. by apply Inv_write_neutral.
  - done.
  - eapply (task_ok_frame (write a (set_qr (Some code)) w)); [done..|].
    assert (Hq : locals_ok (Some {| qrPromise := match qrPromise q with
                                                 | QrPending => QrResolved code
                                                 | s => s
                                                 end; qrTimer := None |})).
    { eexists. split; [done|]. simpl. by destruct (qrPromise q). }
    assert (Hal : ∀ k, is_Some (heap w !! k) →
                       is_Some (alter (set_qr (Some code)) a (heap w) !! k)).
    { intros k [x Hx]. rewrite lookup_alter. case_decide; subst; rewrite Hx; eauto. }
    destruct pc; simpl in *; try done; try (by apply Hal).
    destruct Hok. split; [by apply Hal|done].
  - by destruct pc.
Qed.

Lemma qr_timer_fires_Inv t w w' : qr_timer_fires t w = Some w' → Inv w → Inv w'.
Proof.
  unfold qr_timer_fires. intros H HI.
  destruct (tasks w !! t) as [[opts [q|] pc|]|] eqn:Ht; simpl in H; try done.
  destruct (qrTimer q) as [due|]; [|done].
  destruct (due <=? mono w); [|done]. injection H as <-.
  pose proof (inv_task_ok _ HI _ _ Ht) as Hok.
  assert (Hq : locals_ok (Some {| qrPromise := match qrPromise q with
                                               | QrPending => QrRejected qr_timeout_error
                                               | s => s
                                               end; qrTimer := None |})).
  { eexists. split; [done|]. simpl. by destruct (qrPromise q). }
  assert (HI1 : Inv (if qr_unhandled q pc
                     then emit (EUnhandledRejection qr_timeout_error) w else w)).
  { destruct (qr_unhandled q pc); [by apply Inv_emit|done]. }
  eapply Inv_goto; [done|by destruct (qr_unhandled q pc)| |by destruct pc].
  eapply task_ok_frame with (w := w); [by destruct (qr_unhandled q pc)..|].
  destruct pc; simpl in *; try done. by destruct Hok.
Qed.

Lemma start_rendered_Inv t opts locals l code base64 w w' :
  tasks w !! t = Some (TStart opts locals (SAwaitRender l code)) →
  start_rendered t opts locals l base64 w = Some w' → Inv w → Inv w'.
Proof.
  unfold start_rendered. intros Ht H HI.
  pose proof (inv_task_ok _ HI _ _ Ht) as [lg Hl]. simpl in H.
  rewrite lookup_alter_eq, Hl in H. simpl in H. injection H as <-.
  eapply Inv_goto; [|done| |done].
  - apply Inv_write; [done|]. intros x Hx. simplify_eq. simpl.
    split_and!; try done.
    + by eapply inv_excl.
    + intros (p & s & Hp).
      destruct (inv_pending _ HI _ _ _ Hp) as (? & ? & ? & ?). by simplify_eq.
    + intros (t' & d & Ht'). pose proof (inv_task_ok _ HI _ _ Ht') as Hok.
      simpl in Hok. destruct Hok as (? & ? & ? & ? & _). by simplify_eq.
    + by right.
  - exists NewArtifact. simpl. eauto.
Qed.

Lemma race_timeout_Inv t w w' : race_timeout t w = Some w' → Inv w → Inv w'.
Proof.
  unfold race_timeout. intros H HI.
  destruct (tasks w !! t) as [[|[]]|] eqn:Ht; simpl in H; try done.
  destruct (promises w !! p) as [[|]|]; try done.
  destruct (due <=? mono w); [|done]. injection H as <-.
  by eapply Inv_goto.
Qed.

Lemma same_attempt_true w l b :
  Inv w → same_attempt l w = Some b →
  b = true ↔ activeLogin w = Some l.
Proof.
  unfold same_attempt. intros HI H.
  destruct (heap w !! l) as [lg|] eqn:El; simpl in H; [|done].
  destruct (inv_ids _ HI _ _ El) as [Hid _].
  destruct (activeLogin w) as [a|]; [|by injection H as <-].
  destruct (heap w !! a) as [alg|] eqn:Ea; simpl in H; [|done].
  destruct (inv_ids _ HI _ _ Ea) as [Hida _].
  injection H as <-. rewrite Hid, Hida.
  rewrite bool_decide_eq_true. split; [by intros ->|by intros [= ->]].
Qed.

Lemma conn_settles_Inv p o w w' : conn_settles p o w = Some w' → Inv w → Inv w'.
Proof.
  unfold conn_settles. intros H HI.
  destruct (promises w !! p) as [[|l s]|] eqn:Hp; try done.
  destruct (continuation l o w) as [w1|] eqn:Hk; simpl in H; [|done].
  injection H as <-.
  destruct (inv_pending _ HI _ _ _ Hp) as (lg & Hl & Hc & He).
  set (w0 := set_promises (<[p := PFulfilled]> (promises w)) w).
  assert (HI0 : Inv w0).
  { apply Inv_fulfil; [done|]. by eapply inv_promise_fresh. }
  assert (Hnp : ¬ pending_for w0 l).
  { intros (q & s' & Hq). simpl in Hq. rewrite lookup_insert in Hq.
    case_decide; [done|]. apply H. by eapply (inv_pending_uniq _ HI). }
  assert (Hnr : ¬ restarting w0 l).
  { intros (t & d & Ht). pose proof (inv_task_ok _ HI _ _ Ht) as Hok.
    simpl in Hok. destruct Hok as (_ & _ & _ & _ & Hn). apply Hn. by exists p, s. }
  assert (Hwr : ∀ f, id (f lg) = id lg →
                  (connected (f lg) = true → error (f lg) = None) →
                  qrDataUrl (f lg) = qrDataUrl lg → Inv (write l f w0)).
  { intros f Hfi Hfe Hfq. apply Inv_write; [done|]. intros x Hx. simpl in Hx.
    simplify_eq. rewrite Hfq. split_and!; try done. by eapply inv_artifact. }
  destruct o as [|err]; simpl in Hk.
  - unfold on_ready in Hk.
    destruct (same_attempt l w) as [b|] eqn:Hs; simpl in Hk; [|done].
    pose proof (same_attempt_true _ _ _ HI Hs) as Hb. destruct b.
    + destruct Hb as [Hb _]. rewrite (Hb eq_refl) in Hk. simpl in Hk.
      injection Hk as <-. by apply (Hwr (set_connected true)).
    + by injection Hk as <-.
  - unfold on_rejected in Hk.
    destruct (same_attempt l w) as [b|] eqn:Hs; simpl in Hk; [|done].
    pose proof (same_attempt_true _ _ _ HI Hs) as Hb. destruct b.
    + destruct Hb as [Hb _]. rewrite (Hb eq_refl) in Hk. simpl in Hk.
      injection Hk as <-.
      pose (X := write l (λ x, set_errorStatus (e_status err)
                            (set_error (Some (e_formatted err)) x)) w0).
      match goal with |- Inv ?W => assert (HW : W = X) by world_eq end.
      rewrite HW. apply Hwr; simpl; congruence.
    + by injection Hk as <-.
Qed.

Lemma startWebLoginWithQr_Inv opts w : Inv w → Inv (startWebLoginWithQr opts w).
Proof.
  intros HI. unfold startWebLoginWithQr.
  apply Inv_set_task; [by apply Inv_bump_task|simpl; lia|done|done].
Qed.

Lemma step_Inv e w w' : step e w = Some w' → Inv w → Inv w'.
Proof.
  intros H HI. destruct e; simpl in H.
  - injection H as <-. by apply Inv_set_mono, Inv_set_now.
  - injection H as <-. by apply Inv_set_creds.
  - injection H as <-. by apply startWebLoginWithQr_Inv.
  - by eapply waitForWebLogin_Inv.
  - destruct (tasks w !! t) as [[opts locals pc|pc]|] eqn:Ht; simpl in H; [| |done].
    + by eapply start_resume_Inv.
    + by eapply wait_resume_Inv.
  - destruct (tasks w !! t) as [[opts locals pc|pc]|] eqn:Ht; simpl in H; [| |done].
    + destruct pc; try done. by eapply start_socket_opened_Inv.
    + destruct pc; try done.
      destruct (restartLoginSocket_opened _ _ _) as [w1|] eqn:Hr; simpl in H; [|done].
      injection H as <-. by eapply restart_opened_Inv.
  - destruct (tasks w !! t) as [[opts locals pc|pc]|] eqn:Ht; simpl in H; [| |done].
    + destruct pc; try done. by eapply start_socket_failed_Inv.
    + destruct pc; try done. injection H as <-. by eapply restart_failed_Inv.
  - by eapply onQr_Inv.
  - by eapply qr_timer_fires_Inv.
  - destruct (tasks w !! t) as [[opts locals pc|pc]|] eqn:Ht; simpl in H; try done.
    destruct pc; try done. by eapply start_rendered_Inv.
  - by eapply conn_settles_Inv.
  - by eapply race_timeout_Inv.
  - injection H as <-. by apply Inv_set_now.
  - destruct (tasks w !! t) as [[opts locals pc|pc]|] eqn:Ht; simpl in H; try done.
    destruct pc; try done. injection H as <-. by eapply Inv_goto.
  - destruct (tasks w !! t) as [[opts locals pc|pc]|] eqn:Ht; simpl in H; try done.
    destruct pc; try done. injection H as <-. by eapply Inv_goto.
Qed.

Lemma run_Inv es w w' : run es w = Some w' → Inv w → Inv w'.
Proof.
  revert w. induction es as [|e es IH]; simpl; intros w H HI.
  - by injection H as <-.
  - destruct (step e w) as [w1|] eqn:Hs; simpl in H; [|done].
    eapply IH; [done|]. by eapply step_Inv.
Qed.

Lemma reachable_Inv w : reachable w → Inv w.
Proof. intros [es H]. eapply run_Inv; [done|]. apply Inv_init. Qed.

(** ** What a step emits, and how it changes the attempts *)

Lemma resetActiveLogin_effects r w w1 :
  resetActiveLogin r w = Some w1 →
  trace w1 = (trace w ++ map ECloseSocket (slot_sockets w) ++ reason_log r)%list.
Proof.
  unfold resetActiveLogin, slot_sockets, reason_log, log_reason. intros H.
  destruct (activeLogin w) as [a|]; simpl in H.
  - destruct (heap w !! a) as [lg|]; simpl in H; [|done]. injection H as <-.
    destruct r; [destruct (truthy _)|]; simpl; by rewrite <- ?app_assoc, ?app_nil_r.
  - injection H as <-.
    destruct r; [destruct (truthy _)|]; simpl; by rewrite ?app_nil_r.
Qed.

Lemma resetActiveLogin_is_Some r w :
  (∀ a, activeLogin w = Some a → is_Some (heap w !! a)) →
  is_Some (resetActiveLogin r w).
Proof.
  unfold resetActiveLogin. intros H. destruct (activeLogin w) as [a|]; simpl; [|eauto].
  destruct (H a eq_refl) as [lg ->]. simpl. eauto.
Qed.

Lemma effects_none w w' : trace w' = trace w → step_effects_ok w w'.
Proof.
  intros H. exists []. split; [by rewrite app_nil_r|]. intros x Hx. by apply elem_of_nil in Hx.
Qed.

Lemma effects_unjustified w w' new :
  trace w' = (trace w ++ new)%list →
  (∀ x, x ∈ new → match x with
                  | ECloseSocket _ | ECreateSocket _ None
                  | EUnhandledRejection _ => False
                  | _ => True
                  end) →
  step_effects_ok w w'.
Proof.
  intros H Hn. exists new. split; [done|]. intros x Hx. specialize (Hn x Hx).
  destruct x as [v [?|]| | | | |]; done.
Qed.

(** A step whose only closing is a [resetActiveLogin], run on a world with
    the slot and heap of [w], after which the slot is left alone. *)
Lemma effects_reset r w w0 w1 w' pre post :
  resetActiveLogin r w0 = Some w1 →
  activeLogin w0 = activeLogin w → heap w0 = heap w →
  trace w0 = (trace w ++ pre)%list →
  trace w' = (trace w1 ++ post)%list → activeLogin w' = None →
  (∀ x, x ∈ (pre ++ post)%list → match x with
                  | ECloseSocket _ | ECreateSocket _ None
                  | EUnhandledRejection _ => False
                  | _ => True
                  end) →
  step_effects_ok w w'.
Proof.
  intros Hr Ha Hh Hpre Hpost Hs Hn.
  exists (pre ++ (map ECloseSocket (slot_sockets w0) ++ reason_log r) ++ post)%list.
  split.
  { rewrite Hpost, (resetActiveLogin_effects _ _ _ Hr), Hpre.
    by rewrite <- !app_assoc. }
  intros x. rewrite !elem_of_app. intros [Hx|[[Hx|Hx]|Hx]].
  - specialize (Hn x). rewrite elem_of_app in Hn.
    destruct x as [v [?|]| | | | |]; try done; destruct Hn; auto.
  - unfold slot_sockets in Hx. rewrite Ha, Hh in Hx.
    destruct (activeLogin w) as [a|] eqn:Ea; [|by apply elem_of_nil in Hx].
    destruct (heap w !! a) as [lg|] eqn:El; [|by apply elem_of_nil in Hx].
    simpl in Hx. apply list_elem_of_singleton in Hx as ->. left. by exists a, lg.
  - unfold reason_log in Hx. destruct r; [destruct (truthy _)|];
      try (by apply elem_of_nil in Hx).
    by apply list_elem_of_singleton in Hx as ->.
  - specialize (Hn x). rewrite elem_of_app in Hn.
    destruct x as [v [?|]| | | | |]; try done; destruct Hn; auto.
Qed.

Ltac no_socket_effects :=
  let x := fresh "x" in let Hx := fresh "Hx" in
  intros x Hx; simpl in Hx;
  repeat (apply elem_of_cons in Hx as [->|Hx]; [done|]);
  by apply elem_of_nil in Hx.

Lemma start_resume_effects t opts locals pc w w' :
  start_resume t opts locals pc w = Some w' → step_effects_ok w w'.
Proof.
  intros H. destruct pc; simpl in H; try done.
  - destruct (linked (creds w) && negb (Boolean (o_force opts))).
    { injection H as <-. by apply effects_none. }
    destruct (reusable w) as [[lg|]|]; simpl in H; [| |done].
    + injection H as <-. by apply effects_none.
    + destruct (resetActiveLogin None w) as [w1|] eqn:Hr; simpl in H; [|done].
      injection H as <-.
      destruct (resetActiveLogin_frame _ _ _ Hr) as (Hs & _).
      eapply (effects_reset _ w w w1 _ [] []); try done.
      * by rewrite app_nil_r.
      * simpl. by rewrite app_nil_r.
      * no_socket_effects.
  - injection H as <-.
    eapply (effects_unjustified _ _ [ECreateSocket _ (Some t)]); [done|].
    no_socket_effects.
  - injection H as <-. by apply effects_none.
  - destruct locals as [q|]; simpl in H; [|done].
    destruct (qrPromise q); [done| |].
    + injection H as <-. by apply effects_none.
    + destruct (resetActiveLogin None w) as [w1|] eqn:Hr; simpl in H; [|done].
      injection H as <-.
      destruct (resetActiveLogin_frame _ _ _ Hr) as (Hs & _).
      eapply (effects_reset _ w w w1 _ [] []); try done.
      * by rewrite app_nil_r.
      * simpl. by rewrite app_nil_r.
      * no_socket_effects.
  - injection H as <-. by apply effects_none.
Qed.

Lemma effects_reset_only r w w1 t tk :
  resetActiveLogin r w = Some w1 → step_effects_ok w (set_task t tk w1).
Proof.
  intros Hr. destruct (resetActiveLogin_frame _ _ _ Hr) as (Hs & _).
  eapply (effects_reset _ w w w1 _ [] []); try done.
  - by rewrite app_nil_r.
  - simpl. by rewrite app_nil_r.
  - no_socket_effects.
Qed.

Lemma wait_loop_effects t l d w w' :
  wait_loop t l d w = Some w' → step_effects_ok w w'.
Proof.
  unfold wait_loop. intros H. destruct (js_le0 _).
  - injection H as <-. by apply effects_none.
  - destruct (heap w !! l); simpl in H; [|done]. injection H as <-.
    by apply effects_none.
Qed.

Lemma wait_fail_effects t l w w' :
  wait_fail t l w = Some w' → step_effects_ok w w'.
Proof.
  unfold wait_fail. intros H. destruct (heap w !! l); simpl in H; [|done].
  destruct (resetActiveLogin _ w) as [w1|] eqn:Hr; simpl in H; [|done].
  injection H as <-. by eapply effects_reset_only.
Qed.

Lemma restart_enter_effects t l d w w1 pc :
  restartLoginSocket_enter l d w = Some (w1, pc) →
  step_effects_ok w (wait_at t pc w1).
Proof.
  unfold restartLoginSocket_enter. intros H.
  destruct (heap w !! l) as [lg|] eqn:El; simpl in H; [|done].
  destruct (restartAttempted lg) eqn:Er; injection H as <- <-.
  { by apply effects_none. }
  exists [ERuntimeLog Info restart_notice; ECloseSocket (sock lg);
          ECreateSocket (verbose lg) None].
  split; [simpl; by rewrite <- !app_assoc|].
  assert (Hflip : restart_flip w
    (wait_at t (WAwaitRestartSocket l d)
       (emit (ECreateSocket (verbose lg) None)
          (closeSocket (sock lg)
             (emit (ERuntimeLog Info restart_notice)
                (write l (set_restartAttempted true) w))))) l lg).
  { split_and!; [done..|]. simpl. by rewrite lookup_alter_eq, El. }
  intros x Hx. repeat (apply elem_of_cons in Hx as [->|Hx]); simpl.
  - done.
  - right. by exists l, lg.
  - by exists l, lg.
  - by apply elem_of_nil in Hx.
Qed.

Lemma wait_done_effects t l d w w' :
  wait_done t l d w = Some w' → step_effects_ok w w'.
Proof.
  unfold wait_done. intros H.
  destruct (heap w !! l) as [lg|] eqn:El; simpl in H; [|done].
  destruct (truthy (error lg)).
  - case_bool_decide.
    { injection H as <-. eapply (effects_unjustified _ _ [ELogoutWeb]); [done|].
      no_socket_effects. }
    case_bool_decide; [|by eapply wait_fail_effects].
    destruct (restartLoginSocket_enter l d w) as [[w1 pc]|] eqn:Hr; simpl in H; [|done].
    injection H as <-. by eapply restart_enter_effects.
  - destruct (connected lg).
    + destruct (resetActiveLogin None _) as [w2|] eqn:Hr; simpl in H; [|done].
      injection H as <-.
      destruct (resetActiveLogin_frame _ _ _ Hr) as (Hs & _).
      eapply (effects_reset _ w _ w2 _ [ERuntimeLog Success msg_linked] []); try done.
      * simpl. by rewrite app_nil_r.
      * no_socket_effects.
    + injection H as <-. by apply effects_none.
Qed.

Lemma wait_resume_effects t pc w w' :
  wait_resume t pc w = Some w' → step_effects_ok w w'.
Proof.
  intros H. destruct pc; simpl in H; try done.
  - injection H as <-. by apply effects_none.
  - destruct (promises w !! p) as [[|]|]; try done. by eapply wait_done_effects.
  - destruct (resetActiveLogin _ w) as [w1|] eqn:Hr; simpl in H; [|done].
    injection H as <-. by eapply effects_reset_only.
  - injection H as <-.
    eapply (effects_unjustified _ _ [ERuntimeLog Danger message]); [done|].
    no_socket_effects.
  - destruct (heap w !! login) as [lg|]; simpl in H; [|done].
    destruct (restarted && isLoginFresh w lg);
      [by eapply wait_loop_effects|by eapply wait_fail_effects].
  - injection H as <-.
    eapply (effects_unjustified _ _ [ERuntimeLog Danger message]); [done|].
    no_socket_effects.
  - injection H as <-. by apply effects_none.
Qed.

Lemma waitForWebLogin_effects tm w w' :
  waitForWebLogin tm w = Some w' → step_effects_ok w w'.
Proof.
  unfold waitForWebLogin. intros H.
  destruct (activeLogin (bump_task w)) as [login|] eqn:Ea.
  - destruct (heap (bump_task w) !! login) as [lg|] eqn:El; simpl in H; [|done].
    destruct (negb (isLoginFresh (bump_task w) lg)).
    + destruct (resetActiveLogin None _) as [w1|] eqn:Hr; simpl in H; [|done].
      injection H as <-.
      destruct (resetActiveLogin_frame _ _ _ Hr) as (Hs & _).
      eapply (effects_reset _ w _ w1 _ [] []); try done.
      * simpl. by rewrite app_nil_r.
      * simpl. by rewrite app_nil_r.
      * no_socket_effects.
    + unfold wait_loop in H. destruct (js_le0 _).
      * injection H as <-. by apply effects_none.
      * rewrite El in H. simpl in H. injection H as <-. by apply effects_none.
  - injection H as <-. by apply effects_none.
Qed.

Lemma attachLoginWaiter_frame l w w' :
  attachLoginWaiter l w = Some w' →
  trace w' = trace w ∧ activeLogin w' = activeLogin w ∧ tasks w' = tasks w ∧
  heap w' = alter (set_waitPromise (next_promise w)) l (heap w).
Proof.
  unfold attachLoginWaiter. intros H.
  destruct (heap w !! l); simpl in H; [|done]. by injection H as <-.
Qed.

Lemma step_effects e w w' : step e w = Some w' → step_effects_ok w w'.
Proof.
  intros H. destruct e; simpl in H.
  - injection H as <-. by apply effects_none.
  - injection H as <-. by apply effects_none.
  - injection H as <-. by apply effects_none.
  - by eapply waitForWebLogin_effects.
  - destruct (tasks w !! t) as [[opts locals pc|pc]|]; simpl in H; [| |done].
    + by eapply start_resume_effects.
    + by eapply wait_resume_effects.
  - destruct (tasks w !! t) as [[opts locals pc|pc]|]; simpl in H; [| |done].
    + destruct pc; try done. unfold start_socket_opened in H.
      destruct (attachLoginWaiter _ _) as [w4|] eqn:Ha; simpl in H; [|done].
      injection H as <-. apply attachLoginWaiter_frame in Ha as (Ht & _).
      apply effects_none. simpl. by rewrite Ht.
    + destruct pc; try done. unfold restartLoginSocket_opened in H.
      destruct (attachLoginWaiter _ _) as [w4|] eqn:Ha; simpl in H; [|done].
      injection H as <-. apply attachLoginWaiter_frame in Ha as (Ht & _).
      apply effects_none. simpl. by rewrite Ht.
  - destruct (tasks w !! t) as [[opts locals pc|pc]|]; simpl in H; [| |done].
    + destruct pc; try done. unfold start_socket_failed in H.
      destruct (resetActiveLogin None w) as [w1|] eqn:Hr; simpl in H; [|done].
      injection H as <-. by eapply effects_reset_only.
    + destruct pc; try done. injection H as <-. by apply effects_none.
  - unfold onQr in H.
    destruct (tasks w !! t) as [[opts [q|] pc|]|]; simpl in H; try done.
    destruct (activeLogin w) as [a|]; [|injection H as <-; by apply effects_none].
    destruct (heap w !! a) as [lg|]; simpl in H; [|done].
    destruct (truthy (qr lg)); injection H as <-; [by apply effects_none|].
    eapply (effects_unjustified _ _ [ERuntimeLog Info _]); [done|].
    no_socket_effects.
  - unfold qr_timer_fires in H.
    destruct (tasks w !! t) as [[opts [q|] pc|]|] eqn:Ht; simpl in H; try done.
    destruct (qrTimer q) as [due|] eqn:Edue; [|done].
    destruct (due <=? mono w) eqn:Ed; [|done]. injection H as <-.
    destruct (qr_unhandled q pc) eqn:Eu; [|by apply effects_none].
    (* l.135 while the call is not at l.172 *)
    unfold qr_unhandled in Eu.
    destruct (qrPromise q) eqn:Eq; try done. apply negb_true_iff in Eu.
    exists [EUnhandledRejection qr_timeout_error]. split; [done|].
    intros x ->%list_elem_of_singleton. simpl.
    exists t, opts, q, pc, due. split_and!; try done.
    + by apply Z.leb_le.
    + apply lookup_insert_eq.
  - destruct (tasks w !! t) as [[opts locals pc|pc]|]; simpl in H; try done.
    destruct pc; try done. unfold start_rendered in H.
    destruct (heap _ !! login); simpl in H; [|done]. injection H as <-.
    by apply effects_none.
  - unfold conn_settles in H.
    destruct (promises w !! p) as [[|l s]|]; try done.
    destruct (continuation l o w) as [w1|] eqn:Hk; simpl in H; [|done].
    injection H as <-. apply effects_none. simpl.
    destruct o; simpl in Hk; unfold on_ready, on_rejected in Hk;
      destruct (same_attempt l w) as [[|]|]; simpl in Hk; try done;
      try (by injection Hk as <-);
      destruct (activeLogin w); simpl in Hk; try done; by injection Hk as <-.
  - unfold race_timeout in H.
    destruct (tasks w !! t) as [[|[]]|]; simpl in H; try done.
    destruct (promises w !! p) as [[|]|]; try done.
    destruct (due <=? mono w); [|done]. injection H as <-. by apply effects_none.
  - injection H as <-. by apply effects_none.
  - destruct (tasks w !! t) as [[opts locals pc|pc]|]; simpl in H; try done.
    destruct pc; try done. injection H as <-. by apply effects_none.
  - destruct (tasks w !! t) as [[opts locals pc|pc]|]; simpl in H; try done.
    destruct pc; try done. injection H as <-. by apply effects_none.
Qed.

Lemma he_refl h : heap_evolves h h.
Proof. intros k x Hx. exists x. by repeat split. Qed.

Lemma he_eq h h' : h' = h → heap_evolves h h'.
Proof. intros ->. apply he_refl. Qed.

Lemma he_alter h h1 f l :
  heap_evolves h h1 → (∀ y, evolves y (f y)) → heap_evolves h (alter f l h1).
Proof.
  intros H Hf k x Hx. destruct (H k x Hx) as (x1 & Hx1 & (E1 & E2 & E3 & E4)).
  destruct (decide (l = k)) as [->|Hne].
  - exists (f x1). rewrite lookup_alter_eq, Hx1. split; [done|].
    destruct (Hf x1) as (F1 & F2 & F3 & F4).
    split_and!; [congruence..|auto].
  - exists x1. rewrite lookup_alter_ne by done. by repeat split.
Qed.

Lemma he_insert_fresh h l x : h !! l = None → heap_evolves h (<[l := x]> h).
Proof.
  intros Hl k y Hy. exists y. rewrite lookup_insert_ne by congruence.
  by repeat split.
Qed.

Ltac evolve :=
  simpl;
  repeat (apply he_alter; [|by intros []]);
  first [apply he_refl | by apply he_eq].

Lemma reset_evolves r w w1 :
  resetActiveLogin r w = Some w1 → heap w1 = heap w.
Proof. intros H. by destruct (resetActiveLogin_frame _ _ _ H) as (_ & ? & _). Qed.

Lemma wait_loop_heap t l d w w' : wait_loop t l d w = Some w' → heap w' = heap w.
Proof.
  unfold wait_loop. intros H. destruct (js_le0 _); [by injection H as <-|].
  destruct (heap w !! l); simpl in H; [|done]. by injection H as <-.
Qed.

Lemma wait_fail_heap t l w w' : wait_fail t l w = Some w' → heap w' = heap w.
Proof.
  unfold wait_fail. intros H. destruct (heap w !! l); simpl in H; [|done].
  destruct (resetActiveLogin _ w) as [w1|] eqn:Hr; simpl in H; [|done].
  injection H as <-. simpl. by eapply reset_evolves.
Qed.

Lemma step_evolves e w w' :
  step e w = Some w' → Inv w → heap_evolves (heap w) (heap w').
Proof.
  intros H HI. destruct e; simpl in H.
  - injection H as <-. evolve.
  - injection H as <-. evolve.
  - injection H as <-. evolve.
  - unfold waitForWebLogin in H.
    destruct (activeLogin (bump_task w)) as [login|]; [|injection H as <-; evolve].
    destruct (heap (bump_task w) !! login) as [lg|]; simpl in H; [|done].
    destruct (negb (isLoginFresh (bump_task w) lg)).
    + destruct (resetActiveLogin None _) as [w1|] eqn:Hr; simpl in H; [|done].
      injection H as <-. apply he_eq. simpl. by rewrite (reset_evolves _ _ _ Hr).
    + apply he_eq. by rewrite (wait_loop_heap _ _ _ _ _ H).
  - destruct (tasks w !! t) as [[opts locals pc|pc]|]; simpl in H; [| |done].
    + destruct pc; simpl in H; try done.
      * destruct (linked (creds w) && negb (Boolean (o_force opts)));
          [injection H as <-; evolve|].
        destruct (reusable w) as [[lg|]|]; simpl in H; [| |done];
          [injection H as <-; evolve|].
        destruct (resetActiveLogin None w) as [w1|] eqn:Hr; simpl in H; [|done].
        injection H as <-. apply he_eq. simpl. by eapply reset_evolves.
      * injection H as <-. evolve.
      * injection H as <-. evolve.
      * destruct locals as [q|]; simpl in H; [|done].
        destruct (qrPromise q); [done|injection H as <-; evolve|].
        destruct (resetActiveLogin None w) as [w1|] eqn:Hr; simpl in H; [|done].
        injection H as <-. apply he_eq. simpl. by eapply reset_evolves.
      * injection H as <-. evolve.
    + destruct pc; simpl in H; try done; try (injection H as <-; evolve).
      * destruct (promises w !! p) as [[|]|]; try done. unfold wait_done in H.
        destruct (heap w !! login) as [lg|] eqn:El; simpl in H; [|done].
        destruct (truthy (error lg)).
        -- case_bool_decide; [injection H as <-; evolve|].
           case_bool_decide; [|apply he_eq; by eapply wait_fail_heap].
           unfold restartLoginSocket_enter in H. rewrite El in H. simpl in H.
           destruct (restartAttempted lg); simpl in H; injection H as <-; evolve.
        -- destruct (connected lg); [|injection H as <-; evolve].
           destruct (resetActiveLogin None _) as [w2|] eqn:Hr; simpl in H; [|done].
           injection H as <-. apply he_eq. simpl. by rewrite (reset_evolves _ _ _ Hr).
      * destruct (resetActiveLogin _ w) as [w1|] eqn:Hr; simpl in H; [|done].
        injection H as <-. apply he_eq. simpl. by eapply reset_evolves.
      * destruct (heap w !! login) as [lg|]; simpl in H; [|done].
        destruct (restarted && isLoginFresh w lg); apply he_eq;
          [by eapply wait_loop_heap|by eapply wait_fail_heap].
  - destruct (tasks w !! t) as [[opts locals pc|pc]|]; simpl in H; [| |done].
    + destruct pc; try done. unfold start_socket_opened in H.
      destruct (attachLoginWaiter _ _) as [w4|] eqn:Ha; simpl in H; [|done].
      injection H as <-. apply attachLoginWaiter_frame in Ha as (_ & _ & _ & Hh).
      simpl. rewrite Hh. simpl. apply he_alter; [|by intros []].
      apply he_insert_fresh.
      destruct (heap w !! next_login w) eqn:E; [|done].
      destruct (inv_ids _ HI _ _ E). lia.
    + destruct pc; try done. unfold restartLoginSocket_opened in H.
      destruct (attachLoginWaiter _ _) as [w4|] eqn:Ha; simpl in H; [|done].
      injection H as <-. apply attachLoginWaiter_frame in Ha as (_ & _ & _ & Hh).
      simpl. rewrite Hh. evolve.
  - destruct (tasks w !! t) as [[opts locals pc|pc]|]; simpl in H; [| |done].
    + destruct pc; try done. unfold start_socket_failed in H.
      destruct (resetActiveLogin None w) as [w1|] eqn:Hr; simpl in H; [|done].
      injection H as <-. apply he_eq. simpl. by eapply reset_evolves.
    + destruct pc; try done. injection H as <-. evolve.
  - unfold onQr in H.
    destruct (tasks w !! t) as [[opts [q|] pc|]|]; simpl in H; try done.
    destruct (activeLogin w) as [a|]; [|injection H as <-; evolve].
    destruct (heap w !! a) as [lg|]; simpl in H; [|done].
    destruct (truthy (qr lg)); injection H as <-; evolve.
  - unfold qr_timer_fires in H.
    destruct (tasks w !! t) as [[opts [q|] pc|]|]; simpl in H; try done.
    destruct (qrTimer q) as [due|]; [|done].
    destruct (due <=? mono w); [|done]. injection H as <-.
    destruct (qr_unhandled q pc); evolve.
  - destruct (tasks w !! t) as [[opts locals pc|pc]|]; simpl in H; try done.
    destruct pc; try done. unfold start_rendered in H.
    destruct (heap _ !! login); simpl in H; [|done]. injection H as <-. evolve.
  - unfold conn_settles in H.
    destruct (promises w !! p) as [[|l s]|]; try done.
    destruct (continuation l o w) as [w1|] eqn:Hk; simpl in H; [|done].
    injection H as <-. simpl.
    destruct o; simpl in Hk; unfold on_ready, on_rejected in Hk;
      destruct (same_attempt l w) as [[|]|]; simpl in Hk; try done;
      try (injection Hk as <-; evolve);
      destruct (activeLogin w); simpl in Hk; try done; injection Hk as <-; evolve.
  - unfold race_timeout in H.
    destruct (tasks w !! t) as [[|[]]|]; simpl in H; try done.
    destruct (promises w !! p) as [[|]|]; try done.
    destruct (due <=? mono w); [|done]. injection H as <-. evolve.
  - injection H as <-. evolve.
  - destruct (tasks w !! t) as [[opts locals pc|pc]|]; simpl in H; try done.
    destruct pc; try done. injection H as <-. evolve.
  - destruct (tasks w !! t) as [[opts locals pc|pc]|]; simpl in H; try done.
    destruct pc; try done. injection H as <-. evolve.
Qed.

(** [resetActiveLogin] in a reachable world. *)
Lemma resetActiveLogin_reachable r w :
  reachable w →
  ∃ w1, resetActiveLogin r w = Some w1 ∧ activeLogin w1 = None ∧
        heap w1 = heap w ∧ tasks w1 = tasks w ∧ creds w1 = creds w ∧
        trace w1 = (trace w ++ map ECloseSocket (slot_sockets w) ++ reason_log r)%list.
Proof.
  intros Hw. apply reachable_Inv in Hw.
  destruct (resetActiveLogin_is_Some r w (inv_slot _ Hw)) as [w1 Hr].
  exists w1. destruct (resetActiveLogin_frame _ _ _ Hr) as (? & ? & ? & ? & ? & _).
  split_and!; try done. by apply resetActiveLogin_effects.
Qed.

(** ** Calls of [startWebLoginWithQr] *)

Lemma start_result_kind_unique k k' r :
  start_result_is k r → start_result_is k' r → k = k'.
Proof.
  destruct k, k'; simpl; try done;
    intros [x Hx] [y Hy]; subst r;
    repeat match goal with H : _ ∨ _ |- _ => destruct H end;
    discriminate.
Qed.

Lemma start_call_never_stuck w t opts locals pc :
  Inv w → tasks w !! t = Some (TStart opts locals pc) →
  start_never_stuck w t locals pc.
Proof.
  intros HI Ht. pose proof (inv_task_ok _ HI _ _ Ht) as Hok.
  pose proof (resetActiveLogin_is_Some None w (inv_slot _ HI)) as [w1 Hr].
  destruct pc; simpl in Hok; unfold start_never_stuck;
    rewrite ?(step_Resume_start _ _ _ _ _ Ht); simpl; try done; try by eauto.
  - split; [|intros err; rewrite Ht; simpl; eauto].
    destruct (linked (creds w) && negb (Boolean (o_force opts))); [eauto|].
    unfold reusable. destruct (activeLogin w) as [a|] eqn:Ea.
    + destruct (inv_slot _ HI a Ea) as [lg ->]. simpl.
      destruct (isLoginFresh w lg && truthy (qrDataUrl lg)); simpl; [eauto|].
      rewrite Hr. simpl. eauto.
    + simpl. rewrite Hr. simpl. eauto.
  - rewrite Ht. simpl. split.
    + unfold start_socket_opened, attachLoginWaiter. simpl.
      rewrite lookup_insert_eq. simpl. eauto.
    + intros err. unfold start_socket_failed. rewrite Hr. simpl. eauto.
  - destruct Hok as (_ & q & -> & Hq). exists q. split; [done|].
    destruct (qrPromise q) eqn:Eq; simpl.
    + destruct (Hq eq_refl) as [due Hdue]. exists due. split; [done|].
      intros Hle. unfold qr_timer_fires. rewrite Ht. simpl. rewrite Hdue.
      replace (due <=? mono w) with true by (symmetry; by apply Z.leb_le). eauto.
    + rewrite Eq. eauto.
    + rewrite Eq, Hr. simpl. eauto.
  - rewrite Ht. simpl. split; [|eauto].
    intros base64. unfold start_rendered. simpl.
    destruct Hok as [lg Hl]. rewrite lookup_alter_eq, Hl. simpl. eauto.
Qed.

Lemma tasks_step_goto e w w1 t old tk' :
  tasks w !! t = Some old → tasks w1 = tasks w → task_step e t (Some old) tk' →
  tasks_step e w (set_task t tk' w1).
Proof.
  intros Ht Hts Hs. right. exists t, tk'. simpl. rewrite Hts, Ht. done.
Qed.

Ltac not_thrown :=
  let Hthrow := fresh "Hthrow" in
  intros ? Hthrow;
  first [ discriminate Hthrow
        | by left
        | by (injection Hthrow as <-; right; left)
        | by (injection Hthrow as <-; right; right) ].

Ltac task_moves :=
  simpl; first
    [ by eexists
    | eexists _, _; split; [reflexivity|];
      split; [first [by left | by right]|not_thrown] ].

Lemma reset_tasks r w w1 : resetActiveLogin r w = Some w1 → tasks w1 = tasks w.
Proof. intros H. by destruct (resetActiveLogin_frame _ _ _ H) as (_ & _ & _ & ? & _). Qed.

Lemma wait_loop_tasks e t old l d w w' :
  tasks w !! t = Some (TWait old) → wait_loop t l d w = Some w' → tasks_step e w w'.
Proof.
  unfold wait_loop. intros Ht H. destruct (js_le0 _).
  - injection H as <-. eapply tasks_step_goto; [done..|task_moves].
  - destruct (heap w !! l); simpl in H; [|done]. injection H as <-.
    eapply tasks_step_goto; [done..|task_moves].
Qed.

Lemma wait_fail_tasks e t old l w w' :
  tasks w !! t = Some (TWait old) → wait_fail t l w = Some w' → tasks_step e w w'.
Proof.
  unfold wait_fail. intros Ht H. destruct (heap w !! l); simpl in H; [|done].
  destruct (resetActiveLogin _ w) as [w1|] eqn:Hr; simpl in H; [|done].
  injection H as <-.
  eapply tasks_step_goto; [done|by eapply reset_tasks|task_moves].
Qed.

Lemma step_tasks e w w' : step e w = Some w' → Inv w → tasks_step e w w'.
Proof.
  intros H HI.
  assert (Hnew : tasks w !! next_task w = None).
  { destruct (tasks w !! next_task w) eqn:E; [|done].
    pose proof (inv_task_fresh _ HI _ _ E). lia. }
  assert (Hcall : ∀ e0 w1 tk, tasks w1 = tasks w →
            tasks_step e0 w (set_task (next_task w) tk w1)).
  { intros e0 w1 tk Hts. right. exists (next_task w), tk. simpl.
    by rewrite Hts, Hnew. }
  destruct e; simpl in H.
  - injection H as <-. by left.
  - injection H as <-. by left.
  - injection H as <-. by apply Hcall.
  - unfold waitForWebLogin in H.
    destruct (activeLogin (bump_task w)) as [login|];
      [|injection H as <-; by apply Hcall].
    destruct (heap (bump_task w) !! login) as [lg|] eqn:El; simpl in H; [|done].
    destruct (negb (isLoginFresh (bump_task w) lg)).
    + destruct (resetActiveLogin None _) as [w1|] eqn:Hr; simpl in H; [|done].
      injection H as <-. apply Hcall. by rewrite (reset_tasks _ _ _ Hr).
    + unfold wait_loop in H. destruct (js_le0 _); [injection H as <-; by apply Hcall|].
      rewrite El in H. simpl in H. injection H as <-. by apply Hcall.
  - destruct (tasks w !! t) as [[opts locals pc|pc]|] eqn:Ht; simpl in H; [| |done].
    + destruct pc; simpl in H; try done.
      * destruct (linked (creds w) && negb (Boolean (o_force opts)));
          [injection H as <-; eapply tasks_step_goto; [done..|task_moves]|].
        destruct (reusable w) as [[lg|]|]; simpl in H; [| |done];
          [injection H as <-; eapply tasks_step_goto; [done..|task_moves]|].
        destruct (resetActiveLogin None w) as [w1|] eqn:Hr; simpl in H; [|done].
        injection H as <-.
        eapply tasks_step_goto; [done|by eapply reset_tasks|task_moves].
      * injection H as <-. eapply tasks_step_goto; [done..|task_moves].
      * injection H as <-. eapply tasks_step_goto; [done..|task_moves].
      * destruct locals as [q|]; simpl in H; [|done].
        destruct (qrPromise q); [done| |].
        -- injection H as <-. eapply tasks_step_goto; [done..|task_moves].
        -- destruct (resetActiveLogin None w) as [w1|] eqn:Hr; simpl in H; [|done].
           injection H as <-.
           eapply tasks_step_goto; [done|by eapply reset_tasks|task_moves].
      * injection H as <-. eapply tasks_step_goto; [done..|task_moves].
    + destruct pc; simpl in H; try done;
        try (injection H as <-; eapply tasks_step_goto; [done..|task_moves]).
      * destruct (promises w !! p) as [[|]|]; try done. unfold wait_done in H.
        destruct (heap w !! login) as [lg|] eqn:El; simpl in H; [|done].
        destruct (truthy (error lg)).
        -- case_bool_decide;
             [injection H as <-; eapply tasks_step_goto; [done..|task_moves]|].
           case_bool_decide; [|by eapply wait_fail_tasks].
           unfold restartLoginSocket_enter in H. rewrite El in H. simpl in H.
           destruct (restartAttempted lg); simpl in H; injection H as <-;
             (eapply tasks_step_goto; [done..|task_moves]).
        -- destruct (connected lg);
             [|injection H as <-; eapply tasks_step_goto; [done..|task_moves]].
           destruct (resetActiveLogin None _) as [w2|] eqn:Hr; simpl in H; [|done].
           injection H as <-.
           eapply tasks_step_goto; [done|by rewrite (reset_tasks _ _ _ Hr)|task_moves].
      * destruct (resetActiveLogin _ w) as [w1|] eqn:Hr; simpl in H; [|done].
        injection H as <-.
        eapply tasks_step_goto; [done|by eapply reset_tasks|task_moves].
      * destruct (heap w !! login) as [lg|]; simpl in H; [|done].
        destruct (restarted && isLoginFresh w lg);
          [by eapply wait_loop_tasks|by eapply wait_fail_tasks].
  - destruct (tasks w !! t) as [[opts locals pc|pc]|] eqn:Ht; simpl in H; [| |done].
    + destruct pc; try done. unfold start_socket_opened in H.
      destruct (attachLoginWaiter _ _) as [w4|] eqn:Ha; simpl in H; [|done].
      injection H as <-. apply attachLoginWaiter_frame in Ha as (_ & _ & Hts & _).
      eapply tasks_step_goto; [done|by rewrite Hts|task_moves].
    + destruct pc; try done. unfold restartLoginSocket_opened in H.
      destruct (attachLoginWaiter _ _) as [w4|] eqn:Ha; simpl in H; [|done].
      injection H as <-. apply attachLoginWaiter_frame in Ha as (_ & _ & Hts & _).
      eapply tasks_step_goto; [done|by rewrite Hts|task_moves].
  - destruct (tasks w !! t) as [[opts locals pc|pc]|] eqn:Ht; simpl in H; [| |done].
    + destruct pc; try done. unfold start_socket_failed in H.
      destruct (resetActiveLogin None w) as [w1|] eqn:Hr; simpl in H; [|done].
      injection H as <-.
      eapply tasks_step_goto; [done|by eapply reset_tasks|task_moves].
    + destruct pc; try done. injection H as <-.
      eapply tasks_step_goto; [done..|task_moves].
  - unfold onQr in H.
    destruct (tasks w !! t) as [[opts [q|] pc|]|] eqn:Ht; simpl in H; try done.
    destruct (activeLogin w) as [a|]; [|injection H as <-; by left].
    destruct (heap w !! a) as [lg|]; simpl in H; [|done].
    destruct (truthy (qr lg)); injection H as <-; [by left|].
    eapply tasks_step_goto; [done..|task_moves].
  - unfold qr_timer_fires in H.
    destruct (tasks w !! t) as [[opts [q|] pc|]|] eqn:Ht; simpl in H; try done.
    destruct (qrTimer q) as [due|]; [|done].
    destruct (due <=? mono w); [|done]. injection H as <-.
    eapply tasks_step_goto; [done|by destruct (qr_unhandled q pc)|task_moves].
  - destruct (tasks w !! t) as [[opts locals pc|pc]|] eqn:Ht; simpl in H; try done.
    destruct pc; try done. unfold start_rendered in H.
    destruct (heap _ !! login); simpl in H; [|done]. injection H as <-.
    eapply tasks_step_goto; [done..|task_moves].
  - unfold conn_settles in H.
    destruct (promises w !! p) as [[|l s]|]; try done.
    destruct (continuation l o w) as [w1|] eqn:Hk; simpl in H; [|done].
    injection H as <-. left. simpl.
    destruct o; simpl in Hk; unfold on_ready, on_rejected in Hk;
      destruct (same_attempt l w) as [[|]|]; simpl in Hk; try done;
      try (by injection Hk as <-);
      destruct (activeLogin w); simpl in Hk; try done; by injection Hk as <-.
  - unfold race_timeout in H.
    destruct (tasks w !! t) as [[|[]]|] eqn:Ht; simpl in H; try done.
    destruct (promises w !! p) as [[|]|]; try done.
    destruct (due <=? mono w); [|done]. injection H as <-.
    eapply tasks_step_goto; [done..|task_moves].
  - injection H as <-. by left.
  - destruct (tasks w !! t) as [[opts locals pc|pc]|] eqn:Ht; simpl in H; try done.
    destruct pc; try done. injection H as <-.
    eapply tasks_step_goto; [done..|task_moves].
  - destruct (tasks w !! t) as [[opts locals pc|pc]|] eqn:Ht; simpl in H; try done.
    destruct pc; try done. injection H as <-.
    eapply tasks_step_goto; [done..|task_moves].
Qed.

Lemma step_start_next e w w' t opts locals pc :
  step e w = Some w' → Inv w →
  tasks w !! t = Some (TStart opts locals pc) →
  ∃ locals' pc', tasks w' !! t = Some (TStart opts locals' pc') ∧
                 (pc' = pc ∨ start_next pc pc').
Proof.
  intros H HI Ht. destruct (step_tasks _ _ _ H HI) as [->|(t0 & tk' & -> & Hs)].
  { exists locals, pc. eauto. }
  destruct (decide (t0 = t)) as [->|Hne].
  - rewrite Ht in Hs. simpl in Hs. destruct Hs as (l' & pc' & -> & Hr & _).
    exists l', pc'. by rewrite lookup_insert_eq.
  - exists locals, pc. rewrite lookup_insert_ne by done. eauto.
Qed.

(** A call rejects only when [webAuthExists] or the renderer does. *)
Lemma step_start_thrown e w w' t opts locals pc locals' err :
  step e w = Some w' → Inv w →
  tasks w !! t = Some (TStart opts locals pc) →
  tasks w' !! t = Some (TStart opts locals' (SThrown err)) →
  pc = SThrown err ∨ e = AuthFailed t err ∨ e = RenderFailed t err.
Proof.
  intros H HI Ht Ht'.
  destruct (step_tasks _ _ _ H HI) as [Hs|(t0 & tk' & Hs & Hm)]; rewrite Hs in Ht'.
  { rewrite Ht in Ht'. injection Ht' as _ <-. by left. }
  destruct (decide (t0 = t)) as [->|Hne].
  - rewrite Ht in Hm. simpl in Hm. destruct Hm as (l' & pc' & -> & _ & Hthrow).
    rewrite lookup_insert_eq in Ht'. injection Ht' as _ ->. by apply Hthrow.
  - rewrite lookup_insert_ne, Ht in Ht' by done. injection Ht' as _ <-. by left.
Qed.

Lemma start_next_rank pc pc' :
  start_next pc pc' → (start_rank pc' < start_rank pc)%nat.
Proof. destruct pc, pc'; simpl; intros H; try done; lia. Qed.

Lemma step_start_rank e w w' t opts locals pc :
  step e w = Some w' → Inv w →
  tasks w !! t = Some (TStart opts locals pc) →
  ∃ locals' pc', tasks w' !! t = Some (TStart opts locals' pc') ∧
                 (pc' = pc ∨ (start_rank pc' < start_rank pc)%nat).
Proof.
  intros H HI Ht.
  destruct (step_start_next _ _ _ _ _ _ _ H HI Ht) as (l' & pc' & Ht' & [->|Hn]).
  - exists l', pc. eauto.
  - exists l', pc'. split; [done|]. right. by apply start_next_rank.
Qed.

(** ** What a step does to the slot *)

Lemma wait_loop_slot t l d w w' :
  wait_loop t l d w = Some w' → activeLogin w' = activeLogin w.
Proof.
  unfold wait_loop. intros H. destruct (js_le0 _); [by injection H as <-|].
  destruct (heap w !! l); simpl in H; [|done]. by injection H as <-.
Qed.

Lemma reset_slot r w w1 : resetActiveLogin r w = Some w1 → activeLogin w1 = None.
Proof. intros H. by destruct (resetActiveLogin_frame _ _ _ H) as (? & _). Qed.

Lemma slot_reset e r w w0 w1 t tk pre :
  activeLogin w0 = activeLogin w → heap w0 = heap w →
  trace w0 = (trace w ++ pre)%list → resetActiveLogin r w0 = Some w1 →
  slot_step e w (set_task t tk w1).
Proof.
  intros Ha Hh Ht Hr. right. left. split; [simpl; by eapply reset_slot|].
  by exists r, w0, w1, pre, t, tk.
Qed.

Lemma slot_reset0 e r w w0 w1 t tk :
  activeLogin w0 = activeLogin w → heap w0 = heap w → trace w0 = trace w →
  resetActiveLogin r w0 = Some w1 → slot_step e w (set_task t tk w1).
Proof.
  intros Ha Hh Ht Hr. eapply (slot_reset _ _ _ _ _ _ _ []); [done..| |done].
  by rewrite app_nil_r.
Qed.

Lemma wait_fail_slot e t l w w' : wait_fail t l w = Some w' → slot_step e w w'.
Proof.
  unfold wait_fail. intros H. destruct (heap w !! l); simpl in H; [|done].
  destruct (resetActiveLogin _ w) as [w1|] eqn:Hr; simpl in H; [|done].
  injection H as <-. eapply slot_reset0; [| | |exact Hr]; done.
Qed.

Lemma step_slot e w w' : step e w = Some w' → slot_step e w w'.
Proof.
  intros H. destruct e; simpl in H.
  - injection H as <-. by left.
  - injection H as <-. by left.
  - injection H as <-. by left.
  - unfold waitForWebLogin in H.
    destruct (activeLogin (bump_task w)) as [login|] eqn:Ea;
      [|injection H as <-; by left].
    destruct (heap (bump_task w) !! login) as [lg|]; simpl in H; [|done].
    destruct (negb (isLoginFresh (bump_task w) lg)).
    + destruct (resetActiveLogin None _) as [w1|] eqn:Hr; simpl in H; [|done].
      injection H as <-. eapply slot_reset0; [| | |exact Hr]; done.
    + left. by rewrite (wait_loop_slot _ _ _ _ _ H).
  - destruct (tasks w !! t) as [[opts locals pc|pc]|]; simpl in H; [| |done].
    + destruct pc; simpl in H; try done.
      * destruct (linked (creds w) && negb (Boolean (o_force opts)));
          [injection H as <-; by left|].
        destruct (reusable w) as [[lg|]|]; simpl in H; [| |done];
          [injection H as <-; by left|].
        destruct (resetActiveLogin None w) as [w1|] eqn:Hr; simpl in H; [|done].
        injection H as <-. eapply slot_reset0; [| | |exact Hr]; done.
      * injection H as <-. by left.
      * injection H as <-. by left.
      * destruct locals as [q|]; simpl in H; [|done].
        destruct (qrPromise q); [done|injection H as <-; by left|].
        destruct (resetActiveLogin None w) as [w1|] eqn:Hr; simpl in H; [|done].
        injection H as <-. eapply slot_reset0; [| | |exact Hr]; done.
      * injection H as <-. by left.
    + destruct pc; simpl in H; try done; try (injection H as <-; by left).
      * destruct (promises w !! p) as [[|]|]; try done. unfold wait_done in H.
        destruct (heap w !! login) as [lg|] eqn:El; simpl in H; [|done].
        destruct (truthy (error lg)).
        -- case_bool_decide; [injection H as <-; by left|].
           case_bool_decide; [|by eapply wait_fail_slot].
           unfold restartLoginSocket_enter in H. rewrite El in H. simpl in H.
           destruct (restartAttempted lg); simpl in H; injection H as <-; by left.
        -- destruct (connected lg); [|injection H as <-; by left].
           destruct (resetActiveLogin None _) as [w2|] eqn:Hr; simpl in H; [|done].
           injection H as <-.
           eapply (slot_reset _ _ _ _ _ _ _ [ERuntimeLog Success msg_linked]);
             [| | |exact Hr]; done.
      * destruct (resetActiveLogin _ w) as [w1|] eqn:Hr; simpl in H; [|done].
        injection H as <-. eapply slot_reset0; [| | |exact Hr]; done.
      * destruct (heap w !! login) as [lg|]; simpl in H; [|done].
        destruct (restarted && isLoginFresh w lg);
          [left; by eapply wait_loop_slot|by eapply wait_fail_slot].
  - destruct (tasks w !! t) as [[opts locals pc|pc]|] eqn:Ht; simpl in H; [| |done].
    + destruct pc; try done. unfold start_socket_opened in H.
      destruct (attachLoginWaiter _ _) as [w4|] eqn:Ha; simpl in H; [|done].
      injection H as <-. apply attachLoginWaiter_frame in Ha as (Htr & Hs & _).
      right. right. exists t, opts, locals. split_and!; [done..| |].
      * simpl. by rewrite Hs.
      * simpl. by rewrite Htr.
    + destruct pc; try done. unfold restartLoginSocket_opened in H.
      destruct (attachLoginWaiter _ _) as [w4|] eqn:Ha; simpl in H; [|done].
      injection H as <-. apply attachLoginWaiter_frame in Ha as (_ & Hs & _).
      left. simpl. by rewrite Hs.
  - destruct (tasks w !! t) as [[opts locals pc|pc]|]; simpl in H; [| |done].
    + destruct pc; try done. unfold start_socket_failed in H.
      destruct (resetActiveLogin None w) as [w1|] eqn:Hr; simpl in H; [|done].
      injection H as <-. eapply slot_reset0; [| | |exact Hr]; done.
    + destruct pc; try done. injection H as <-. by left.
  - unfold onQr in H.
    destruct (tasks w !! t) as [[opts [q|] pc|]|]; simpl in H; try done.
    destruct (activeLogin w) as [a|] eqn:Ea; [|injection H as <-; by left].
    destruct (heap w !! a) as [lg|]; simpl in H; [|done].
    destruct (truthy (qr lg)); injection H as <-; by left.
  - unfold qr_timer_fires in H.
    destruct (tasks w !! t) as [[opts [q|] pc|]|]; simpl in H; try done.
    destruct (qrTimer q) as [due|]; [|done].
    destruct (due <=? mono w); [|done]. injection H as <-.
    left. by destruct (qr_unhandled q pc).
  - destruct (tasks w !! t) as [[opts locals pc|pc]|]; simpl in H; try done.
    destruct pc; try done. unfold start_rendered in H.
    destruct (heap _ !! login); simpl in H; [|done]. injection H as <-. by left.
  - unfold conn_settles in H.
    destruct (promises w !! p) as [[|l s]|]; try done.
    destruct (continuation l o w) as [w1|] eqn:Hk; simpl in H; [|done].
    injection H as <-. left. simpl.
    destruct o; simpl in Hk; unfold on_ready, on_rejected in Hk;
      destruct (same_attempt l w) as [[|]|]; simpl in Hk; try done;
      try (by injection Hk as <-);
      destruct (activeLogin w) eqn:Ea; simpl in Hk; try done;
      injection Hk as <-; simpl; by rewrite Ea.
  - unfold race_timeout in H.
    destruct (tasks w !! t) as [[|[]]|]; simpl in H; try done.
    destruct (promises w !! p) as [[|]|]; try done.
    destruct (due <=? mono w); [|done]. injection H as <-. by left.
  - injection H as <-. by left.
  - destruct (tasks w !! t) as [[opts locals pc|pc]|]; simpl in H; try done.
    destruct pc; try done. injection H as <-. by left.
  - destruct (tasks w !! t) as [[opts locals pc|pc]|]; simpl in H; try done.
    destruct pc; try done. injection H as <-. by left.
Qed.

Lemma reachable_step e w w' : reachable w → step e w = Some w' → reachable w'.
Proof.
  intros [es Hes] Hs. exists (es ++ [e])%list.
  by rewrite run_app, Hes, option_bind_Some, run_cons, Hs.
Qed.

(** An answer to its [await] takes a call strictly closer to its return. *)
Lemma step_start_answer e w w' t opts locals pc :
  answers t e → step e w = Some w' → Inv w →
  tasks w !! t = Some (TStart opts locals pc) →
  ∃ locals' pc', tasks w' !! t = Some (TStart opts locals' pc') ∧
                 (start_rank pc' < start_rank pc)%nat.
Proof.
  intros He H HI Ht.
  destruct (step_start_rank _ _ _ _ _ _ _ H HI Ht) as (l' & pc' & Ht' & [->|Hlt]);
    [|by eauto].
  exfalso. destruct e; simpl in He; try done; subst; simpl in H;
    rewrite Ht in H; simpl in H.
  - destruct pc; simpl in H; try done.
    + destruct (linked (creds w) && negb (Boolean (o_force opts)));
        [injection H as <-; simpl in Ht'; by rewrite lookup_insert_eq in Ht'|].
      destruct (reusable w) as [[lg|]|]; simpl in H; [| |done];
        [injection H as <-; simpl in Ht'; by rewrite lookup_insert_eq in Ht'|].
      destruct (resetActiveLogin None w) as [w1|]; simpl in H; [|done].
      injection H as <-. simpl in Ht'. by rewrite lookup_insert_eq in Ht'.
    + injection H as <-. simpl in Ht'. by rewrite lookup_insert_eq in Ht'.
    + injection H as <-. simpl in Ht'. by rewrite lookup_insert_eq in Ht'.
    + destruct locals as [q|]; simpl in H; [|done].
      destruct (qrPromise q); [done| |].
      * injection H as <-. simpl in Ht'. by rewrite lookup_insert_eq in Ht'.
      * destruct (resetActiveLogin None w) as [w1|]; simpl in H; [|done].
        injection H as <-. simpl in Ht'. by rewrite lookup_insert_eq in Ht'.
    + injection H as <-. simpl in Ht'. by rewrite lookup_insert_eq in Ht'.
  - destruct pc; try done. unfold start_socket_opened in H.
    destruct (attachLoginWaiter _ _) as [w4|]; simpl in H; [|done].
    injection H as <-. simpl in Ht'. by rewrite lookup_insert_eq in Ht'.
  - destruct pc; try done. unfold start_socket_failed in H.
    destruct (resetActiveLogin None w) as [w1|]; simpl in H; [|done].
    injection H as <-. simpl in Ht'. by rewrite lookup_insert_eq in Ht'.
  - destruct pc; try done. unfold start_rendered in H.
    destruct (heap _ !! login); simpl in H; [|done]. injection H as <-.
    simpl in Ht'. by rewrite lookup_insert_eq in Ht'.
  - destruct pc; try done. injection H as <-.
    simpl in Ht'. by rewrite lookup_insert_eq in Ht'.
  - destruct pc; try done. injection H as <-.
    simpl in Ht'. by rewrite lookup_insert_eq in Ht'.
Qed.

(** From any reachable world a call can be brought to its return. *)
(** An answer to the [await] of a call leaves no rejection unhandled. *)
Lemma answer_leaves_none_unhandled e w w' t opts locals pc :
  answers t e → step e w = Some w' → reachable w →
  tasks w !! t = Some (TStart opts locals pc) →
  ∃ new, trace w' = (trace w ++ new)%list ∧ ∀ err, EUnhandledRejection err ∉ new.
Proof.
  intros He Hs Hw Ht. pose proof (reachable_Inv _ Hw) as HI.
  destruct (step_effects _ _ _ Hs) as (new & Htr & Hj).
  exists new. split; [done|]. intros err Hin.
  pose proof (Hj _ Hin) as (t' & o' & q & pc0 & due & Ht0 & Hq & _ & _ & _ & _ & Ht1).
  destruct (step_start_answer _ _ _ _ _ _ _ He Hs HI Ht) as (l1 & pc1 & Ht' & Hlt).
  destruct (step_tasks _ _ _ Hs HI) as [Hts|(t0 & tk' & Hts & _)].
  - rewrite Hts, Ht in Ht'. injection Ht' as _ <-. lia.
  - destruct (decide (t0 = t)) as [->|Hne].
    + destruct (decide (t' = t)) as [->|Hne'].
      * rewrite Ht1 in Ht'. rewrite Ht0 in Ht.
        injection Ht' as _ _ <-. injection Ht as _ _ <-. lia.
      * rewrite Hts, lookup_insert_ne, Ht0 in Ht1 by done.
        injection Ht1 as ->. done.
    + rewrite Hts, lookup_insert_ne, Ht in Ht' by done. injection Ht' as _ <-. lia.
Qed.

Lemma start_can_finish n w t opts locals pc :
  (start_rank pc ≤ n)%nat → reachable w →
  tasks w !! t = Some (TStart opts locals pc) →
  (∀ err, pc ≠ SThrown err) →
  ∃ es w' locals' r new, run es w = Some w' ∧
    tasks w' !! t = Some (TStart opts locals' (SReturned r)) ∧
    trace w' = (trace w ++ new)%list ∧ ∀ err, EUnhandledRejection err ∉ new.
Proof.
  revert w locals pc. induction n as [|n IH]; intros w locals pc Hn Hw Ht Hnt.
  { destruct pc; simpl in Hn; try lia; [|by destruct (Hnt err)].
    exists [], w, locals, r, []. split_and!; [done|done|by rewrite app_nil_r|].
    intros err Hin. by apply elem_of_nil in Hin. }
  assert (Hgo : ∀ e, answers t e →
    (∀ err, e ≠ AuthFailed t err ∧ e ≠ RenderFailed t err) →
    is_Some (step e w) →
    ∃ es w' locals' r new, run es w = Some w' ∧
      tasks w' !! t = Some (TStart opts locals' (SReturned r)) ∧
      trace w' = (trace w ++ new)%list ∧ ∀ err, EUnhandledRejection err ∉ new).
  { intros e He Hne [w1 Hs].
    destruct (step_start_answer _ _ _ _ _ _ _ He Hs (reachable_Inv _ Hw) Ht)
      as (l1 & pc1 & Ht1 & Hlt).
    destruct (answer_leaves_none_unhandled _ _ _ _ _ _ _ He Hs Hw Ht)
      as (new1 & Htr1 & Hno1).
    destruct (IH w1 l1 pc1) as (es & w' & l' & r & new2 & Hrun & Hfin & Htr2 & Hno2);
      [lia|by eapply reachable_step|done| |].
    { intros err ->.
      destruct (step_start_thrown _ _ _ _ _ _ _ _ _ Hs (reachable_Inv _ Hw) Ht Ht1)
        as [->|[->| ->]]; [by destruct (Hnt err)|by destruct (Hne err)..]. }
    exists (e :: es), w', l', r, (new1 ++ new2)%list.
    rewrite run_cons, Hs. split_and!; [done|done| |].
    - by rewrite Htr2, Htr1, app_assoc.
    - intros err [Hin|Hin]%elem_of_app; [by apply (Hno1 err)|by apply (Hno2 err)]. }
  pose proof (start_call_never_stuck _ _ _ _ _ (reachable_Inv _ Hw) Ht) as Hns.
  destruct pc; simpl in Hns.
  - destruct Hns as [Hns _]. by apply (Hgo (Resume t)).
  - by apply (Hgo (Resume t)).
  - destruct Hns as [Hns _]. by apply (Hgo (SocketOpened t)).
  - by apply (Hgo (Resume t)).
  - destruct Hns as (q & -> & Hq).
    destruct (qrPromise q) eqn:Eq; [|by apply (Hgo (Resume t))..].
    destruct Hq as (due & Hdue & _).
    (* let time pass until the timer is due, and the timer fire *)
    set (d := Z.to_N (due - mono w)).
    set (w1 := set_mono (mono w + Z.of_N d) (set_now (now w + Z.of_N d) w)).
    set (q' := {| qrPromise := QrRejected qr_timeout_error; qrTimer := None |}).
    set (w2 := set_task t (TStart opts (Some q') (SAwaitQr login)) w1).
    assert (H1 : step (Tick d) w = Some w1) by done.
    assert (H2 : step (QrTimerFires t) w1 = Some w2).
    { simpl. unfold qr_timer_fires. simpl. rewrite Ht. simpl. rewrite Hdue.
      unfold qr_unhandled. rewrite Eq.
      replace (due <=? mono w + Z.of_N d) with true; [done|].
      symmetry. apply Z.leb_le. unfold d. lia. }
    assert (Hw2 : reachable w2) by (do 2 (eapply reachable_step; [|done]); done).
    assert (Ht2 : tasks w2 !! t = Some (TStart opts (Some q') (SAwaitQr login)))
      by (simpl; apply lookup_insert_eq).
    pose proof (start_call_never_stuck _ _ _ _ _ (reachable_Inv _ Hw2) Ht2) as Hns2.
    destruct Hns2 as (q2 & Hq2 & Hm). injection Hq2 as <-.
    change (is_Some (step (Resume t) w2)) in Hm. destruct Hm as [w3 Hs3].
    destruct (step_start_answer (Resume t) _ _ _ _ _ _ eq_refl Hs3
                (reachable_Inv _ Hw2) Ht2) as (l3 & pc3 & Ht3 & Hlt).
    destruct (answer_leaves_none_unhandled (Resume t) _ _ _ _ _ _ eq_refl Hs3 Hw2 Ht2)
      as (new1 & Htr1 & Hno1).
    destruct (IH w3 l3 pc3) as (es & w' & l' & r & new2 & Hrun & Hfin & Htr2 & Hno2);
      [simpl in *; lia|by eapply reachable_step|done| |].
    { intros err ->.
      by destruct (step_start_thrown _ _ _ _ _ _ _ _ _ Hs3 (reachable_Inv _ Hw2)
                     Ht2 Ht3) as [?|[?|?]]. }
    exists (Tick d :: QrTimerFires t :: Resume t :: es), w', l', r, (new1 ++ new2)%list.
    rewrite run_cons, H1, option_bind_Some, run_cons, H2, option_bind_Some,
      run_cons, Hs3.
    split_and!; [done|done| |].
    + by rewrite Htr2, Htr1, app_assoc.
    + intros err [Hin|Hin]%elem_of_app; [by apply (Hno1 err)|by apply (Hno2 err)].
  - by apply (Hgo (Resume t)).
  - destruct Hns as [Hns _]. apply (Hgo (Rendered t EmptyString)); [done..|apply Hns].
  - exists [], w, locals, r, []. split_and!; [done|done|by rewrite app_nil_r|].
    intros err Hin. by apply elem_of_nil in Hin.
  - by destruct (Hnt err).
Qed.

(** ** Failures of [startWebLoginWithQr] end in a result *)

Lemma start_open_failure_run w t opts locals err :
  reachable w → tasks w !! t = Some (TStart opts locals SAwaitSocket) →
  ∃ w', run [SocketFailed t err; Resume t] w = Some w' ∧
    activeLogin w' = None ∧
    tasks w' !! t =
      Some (TStart opts (clear_timer locals)
              (SReturned {| r_qrDataUrl := None;
                            r_message := msg_start_failed (e_string err) |})).
Proof.
  intros Hw Ht.
  destruct (resetActiveLogin_reachable None w Hw) as (w1 & Hr & Ha & Hh & Hts & Hc & Htr).
  set (w2 := set_task t (TStart opts (clear_timer locals)
                           (SAwaitResetOpenFailed (e_string err))) w1).
  assert (H1 : step (SocketFailed t err) w = Some w2).
  { simpl. rewrite Ht. simpl. unfold start_socket_failed. by rewrite Hr. }
  eexists. split_and!.
  - rewrite run_cons, H1, option_bind_Some, run_cons.
    rewrite (step_Resume_start _ _ opts (clear_timer locals)
               (SAwaitResetOpenFailed (e_string err)))
      by (simpl; apply lookup_insert_eq).
    done.
  - done.
  - simpl. by rewrite lookup_insert_eq.
Qed.

Lemma start_qr_timeout_run w t opts q l due :
  reachable w → tasks w !! t = Some (TStart opts (Some q) (SAwaitQr l)) →
  qrPromise q = QrPending → qrTimer q = Some due → due ≤ mono w →
  ∃ w', run [QrTimerFires t; Resume t; Resume t] w = Some w' ∧
    activeLogin w' = None ∧
    tasks w' !! t =
      Some (TStart opts (Some {| qrPromise := QrRejected qr_timeout_error;
                                 qrTimer := None |})
              (SReturned {| r_qrDataUrl := None;
                            r_message := msg_qr_failed qr_timeout_error |})).
Proof.
  intros Hw Ht Hq Hdue Hle.
  set (q' := {| qrPromise := QrRejected qr_timeout_error; qrTimer := None |}).
  set (w1 := set_task t (TStart opts (Some q') (SAwaitQr l)) w).
  assert (H1 : step (QrTimerFires t) w = Some w1).
  { simpl. unfold qr_timer_fires. rewrite Ht. simpl. rewrite Hdue.
    replace (due <=? mono w) with true by (symmetry; by apply Z.leb_le).
    unfold qr_unhandled. by rewrite Hq. }
  assert (Hw1 : reachable w1) by (by eapply reachable_step).
  destruct (resetActiveLogin_reachable None w1 Hw1)
    as (w2 & Hr & Ha & Hh & Hts & Hc & Htr).
  set (w3 := set_task t (TStart opts (Some q') (SAwaitResetQrFailed qr_timeout_error)) w2).
  assert (H2 : step (Resume t) w1 = Some w3).
  { rewrite (step_Resume_start _ _ opts (Some q') (SAwaitQr l))
      by (simpl; apply lookup_insert_eq).
    simpl. by rewrite Hr. }
  eexists. split_and!.
  - rewrite run_cons, H1, option_bind_Some, run_cons, H2, option_bind_Some, run_cons.
    rewrite (step_Resume_start _ _ opts (Some q') (SAwaitResetQrFailed qr_timeout_error))
      by (simpl; apply lookup_insert_eq).
    done.
  - done.
  - simpl. by rewrite lookup_insert_eq.
Qed.

(** ** No attempt is reconnected twice *)




(** ** The scenarios of the specification, run on the model *)

(** Scenario A: credentials exist, no [force]; nothing is opened. *)
Example scenario_A :
  start_result [CredsSaved creds_linked; CallStart opts0; Resume 0] 0 =
    Some {| r_qrDataUrl := None; r_message := msg_already_linked "+15550100" |} ∧
  outcome [CredsSaved creds_linked; CallStart opts0; Resume 0] = Some (None, []).
Proof. split; vm_compute; reflexivity. Qed.

(** Scenario B: the code arrives in time. *)
Example scenario_B :
  start_result run_to_pending 0 =
    Some {| r_qrDataUrl := Some (data_url "AAAA"); r_message := msg_scan |}.
Proof. vm_compute. reflexivity. Qed.

(** Scenario C: no code within 5000 ms; the singleton is disposed of. *)
Example scenario_C :
  let es := [CallStart opts_5s; Resume 0%nat; Resume 0%nat; SocketOpened 0%nat;
             Tick 5000; QrTimerFires 0%nat; Resume 0%nat; Resume 0%nat] in
  start_result es 0 =
    Some {| r_qrDataUrl := None; r_message := msg_qr_failed qr_timeout_error |} ∧
  outcome es = Some (None, [ECreateSocket false (Some 0%nat); ECloseSocket 0]).
Proof. split; vm_compute; reflexivity. Qed.

(** Scenario D: one 515, the restart succeeds, the connection opens. *)
Example scenario_D :
  wait_result (run_to_linked ++ [Resume 1%nat; Resume 1%nat]) 1 =
    Some {| r_connected := true; r_wmessage := msg_linked |}.
Proof. vm_compute. reflexivity. Qed.

(** Scenario E: a poll of 1000 ms on an attempt that never resolves. *)
Example scenario_E :
  let es := (run_to_pending ++ [CallWait (Some (Num 1000)); Tick 1000; RaceTimeout 1%nat])%list in
  wait_result es 1 =
    Some {| r_connected := false; r_wmessage := msg_still_waiting |} ∧
  outcome es = outcome run_to_pending.
Proof. split; vm_compute; reflexivity. Qed.

(** A second 515 after the restart is final. *)
Example second_515_is_final :
  let es := (run_to_515 ++ [Resume 1%nat; SocketOpened 1%nat; Resume 1%nat;
                            ConnSettles 2%nat (ConnRejected err515);
                            Resume 1%nat; Resume 1%nat; Resume 1%nat])%list in
  wait_result es 1 =
    Some {| r_connected := false;
            r_wmessage := msg_failed (Some "restart required") |} ∧
  reconnects 0 es init = 1%nat.
Proof. split; vm_compute; reflexivity. Qed.

(** * The properties of the specification *)

(** ** C5 *)

(** C5.  A continuation attached for attempt [login] that fires when the
    slot is empty, or holds an attempt with another id, changes nothing: the
    handler returns the world as it found it, and the only trace of the event
    is that the promise itself is now fulfilled. *)
Theorem stale_continuation_is_noop p login s lg o w :
  promises w !! p = Some (PWaiting login s) →
  heap w !! login = Some lg →
  match activeLogin w with
  | None => True
  | Some a => ∃ alg, heap w !! a = Some alg ∧ id alg ≠ id lg
  end →
  continuation login o w = Some w ∧
  step (ConnSettles p o) w = Some (set_promises (<[p := PFulfilled]> (promises w)) w).
Proof.
  intros Hp Hl Hslot.
  assert (Hg : same_attempt login w = Some false).
  { unfold same_attempt. rewrite Hl. simpl.
    destruct (activeLogin w) as [a|]; [|done].
    destruct Hslot as (alg & Ha & Hne). rewrite Ha. simpl.
    by rewrite bool_decide_eq_false_2. }
  assert (Hk : continuation login o w = Some w).
  { destruct o; simpl; unfold on_ready, on_rejected; by rewrite Hg. }
  split; [done|].
  simpl. unfold conn_settles. by rewrite Hp, Hk.
Qed.

(** ** C8 *)

(** C8.  When the slot's attempt started more than the TTL ago, a call of
    [waitForWebLogin] closes its transport once, empties the slot, and after
    the [await] of l.202 returns [connected: false] with the expired
    message, whatever happened in between. *)
Theorem stale_attempt_reported_expired tm w a lg :
  activeLogin w = Some a → heap w !! a = Some lg →
  ACTIVE_LOGIN_TTL_MS < now w - startedAt lg →
  ∃ w1, step (CallWait tm) w = Some w1 ∧
    activeLogin w1 = None ∧ heap w1 = heap w ∧
    trace w1 = (trace w ++ [ECloseSocket (sock lg)])%list ∧
    tasks w1 !! next_task w = Some (TWait WAwaitResetStale) ∧
    ∀ w2, tasks w2 !! next_task w = Some (TWait WAwaitResetStale) →
      ∃ w3, step (Resume (next_task w)) w2 = Some w3 ∧
        tasks w3 !! next_task w =
          Some (TWait (WReturned {| r_connected := false; r_wmessage := msg_expired |})) ∧
        activeLogin w3 = activeLogin w2 ∧ heap w3 = heap w2 ∧ trace w3 = trace w2.
Proof.
  intros Ha Hl Hold. eexists. split_and!.
  - simpl. unfold waitForWebLogin. simpl. rewrite Ha, Hl. simpl.
    unfold isLoginFresh. simpl.
    replace (now w - startedAt lg <? ACTIVE_LOGIN_TTL_MS) with false
      by (symmetry; apply Z.ltb_ge; lia).
    simpl. unfold resetActiveLogin. simpl. rewrite Ha. simpl. rewrite Hl. simpl.
    reflexivity.
  - done.
  - done.
  - done.
  - simpl. by rewrite lookup_insert_eq.
  - intros w2 Ht. eexists. split_and!.
    + simpl. rewrite Ht. simpl. reflexivity.
    + simpl. by rewrite lookup_insert_eq.
    + done.
    + done.
    + done.
Qed.

(** ** C9 *)

Lemma js_sub_add n a :
  js_le0 (js_sub (js_add n a) n) = js_le0 a ∧
  setTimeout_delay (js_sub (js_add n a) n) = setTimeout_delay a.
Proof. destruct a; simpl; try done. by replace (n + z - n) with z by lia. Qed.

Lemma poll_timeout_positive tm :
  js_le0 (Math_max (default (Num 120000) tm) 1000) = false.
Proof.
  destruct tm as [[z| | |]|]; simpl; try done. apply Z.leb_gt. lia.
Qed.

(** C9.  A call of [waitForWebLogin] on a fresh attempt whose completion
    promise is still pending when the timer it races against fires returns
    [connected: false] with the still-waiting message.  Entering the call
    and losing the race change nothing but the call's own record: slot,
    attempt, promises and trace (so no transport is closed) are as before.
    The timer is set for what is left of [max(timeoutMs ?? 120000, 1000)]
    ms, as [setTimeout] takes it: it has fired once that many ms have
    passed, if not before.  Whenever the timer wins, in whatever world, the
    same holds of that step; and so it does of the return at the head of the
    loop (l.213) once the deadline has passed. *)
Theorem poll_timeout_keeps_attempt tm w a lg l s d :
  activeLogin w = Some a → heap w !! a = Some lg →
  isLoginFresh w lg = true →
  promises w !! waitPromise lg = Some (PWaiting l s) →
  poll_delay tm ≤ Z.of_N d →
  (∃ w', run [CallWait tm; Tick d; RaceTimeout (next_task w)] w = Some w' ∧
     tasks w' !! next_task w =
       Some (TWait (WReturned {| r_connected := false; r_wmessage := msg_still_waiting |})) ∧
     activeLogin w' = Some a ∧ heap w' = heap w ∧
     promises w' = promises w ∧ trace w' = trace w) ∧
  (∀ z, Math_max (default (Num 120000) tm) 1000 = Num z →
     1000 ≤ z ∧ poll_delay tm ≤ z) ∧
  (∀ t w2 w3, step (RaceTimeout t) w2 = Some w3 →
     w3 = wait_return t {| r_connected := false; r_wmessage := msg_still_waiting |} w2) ∧
  (∀ t login deadline w2, deadline ≤ now w2 →
     wait_loop t login (Num deadline) w2 =
       Some (wait_return t {| r_connected := false; r_wmessage := msg_still_waiting |} w2)).
Proof.
  intros Ha Hl Hf Hp Hd.
  set (timeout := Math_max (default (Num 120000) tm) 1000).
  assert (Hcall : step (CallWait tm) w =
    Some (wait_at (next_task w)
            (WRace a (js_add (now w) timeout) (waitPromise lg)
               (mono w + poll_delay tm))
            (bump_task w))).
  { simpl. unfold waitForWebLogin. simpl. rewrite Ha, Hl. simpl.
    unfold isLoginFresh in *. simpl. rewrite Hf. simpl.
    unfold wait_loop. simpl. fold timeout.
    destruct (js_sub_add (now w) timeout) as [-> ->].
    unfold timeout. rewrite poll_timeout_positive. by rewrite Hl. }
  split_and!.
  - eexists. split_and!.
    + unfold run. rewrite Hcall. simpl. unfold race_timeout. simpl.
      rewrite lookup_insert_eq. simpl. rewrite Hp.
      replace (mono w + poll_delay tm <=? mono w + Z.of_N d)
        with true by (symmetry; apply Z.leb_le; lia).
      reflexivity.
    + simpl. by rewrite lookup_insert_eq.
    + done.
    + done.
    + done.
    + done.
  - intros z Hz. unfold timeout in Hz. unfold poll_delay. rewrite Hz.
    assert (1000 ≤ z).
    { destruct tm as [[z0| | |]|]; simpl in Hz; try done; injection Hz as <-; lia. }
    split; [done|]. simpl.
    destruct (1 <=? z) eqn:E1; simpl; [|lia].
    destruct (z <=? TIMEOUT_MAX); lia.
  - intros t w2 w3. simpl. unfold race_timeout.
    destruct (tasks w2 !! t) as [[|[]]|]; simpl; try done.
    destruct (promises w2 !! p) as [[|]|]; try done.
    destruct (due <=? mono w2); [|done]. by intros [= <-].
  - intros t login deadline w2 Hle. unfold wait_loop. simpl.
    by replace (deadline - now w2 <=? 0) with true by (symmetry; apply Z.leb_le; lia).
Qed.

(** ** C6 *)

(** C6.  In a reachable world where the already-linked short-circuit does
    not apply and the slot holds a fresh attempt whose [qrDataUrl] is set,
    [startWebLoginWithQr] returns that artifact with the already-active
    message and leaves slot, attempts, promises and trace as they are (no
    [createWaSocket] call).  Two calls in a row both return it. *)
Theorem start_reuses_pending_artifact opts opts' w a lg url :
  reachable w →
  linked (creds w) && negb (Boolean (o_force opts)) = false →
  linked (creds w) && negb (Boolean (o_force opts')) = false →
  activeLogin w = Some a → heap w !! a = Some lg →
  isLoginFresh w lg = true → qrDataUrl lg = Some url →
  (∀ t locals, tasks w !! t = Some (TStart opts locals SAwaitAuth) →
     step (Resume t) w =
       Some (start_return t opts locals
               {| r_qrDataUrl := Some url; r_message := msg_qr_active |} w)) ∧
  (∃ w', run [CallStart opts; Resume (next_task w);
              CallStart opts'; Resume (S (next_task w))] w = Some w' ∧
     tasks w' !! next_task w =
       Some (TStart opts None
               (SReturned {| r_qrDataUrl := Some url; r_message := msg_qr_active |})) ∧
     tasks w' !! S (next_task w) =
       Some (TStart opts' None
               (SReturned {| r_qrDataUrl := Some url; r_message := msg_qr_active |})) ∧
     activeLogin w' = Some a ∧ heap w' = heap w ∧
     promises w' = promises w ∧ trace w' = trace w).
Proof.
  intros Hw Hs Hs' Ha Hl Hf Hurl.
  assert (Hq : truthy (qrDataUrl lg) = true).
  { destruct (inv_artifact _ (reachable_Inv _ Hw) _ _ Hl) as [Hn|Hq]; [|done].
    by rewrite Hurl in Hn. }
  assert (Hres : ∀ o t locals w0,
    linked (creds w0) && negb (Boolean (o_force o)) = false →
    activeLogin w0 = Some a → heap w0 !! a = Some lg → now w0 = now w →
    start_resume t o locals SAwaitAuth w0 =
      Some (start_return t o locals
              {| r_qrDataUrl := Some url; r_message := msg_qr_active |} w0)).
  { intros o t locals w0 Hs0 Ha0 Hl0 Hn0. simpl. rewrite Hs0.
    unfold reusable. rewrite Ha0, Hl0. simpl.
    unfold isLoginFresh in *. rewrite Hn0, Hf, Hq. simpl. by rewrite Hurl. }
  split.
  - intros t locals Ht. rewrite (step_Resume_start _ _ _ _ _ Ht). by apply Hres.
  - set (t := next_task w).
    set (w1 := startWebLoginWithQr opts w).
    set (r := {| r_qrDataUrl := Some url; r_message := msg_qr_active |}).
    set (w2 := start_return t opts None r w1).
    set (w3 := startWebLoginWithQr opts' w2).
    assert (H2 : step (Resume t) w1 = Some w2).
    { rewrite (step_Resume_start _ _ opts None SAwaitAuth)
        by (simpl; apply lookup_insert_eq).
      by apply (Hres opts t None w1). }
    assert (H4 : step (Resume (S t)) w3 = Some (start_return (S t) opts' None r w3)).
    { rewrite (step_Resume_start _ _ opts' None SAwaitAuth)
        by (simpl; apply lookup_insert_eq).
      by apply (Hres opts' (S t) None w3). }
    exists (start_return (S t) opts' None r w3). split_and!.
    + rewrite run_cons. change (step (CallStart opts) w) with (Some w1).
      rewrite option_bind_Some, run_cons, H2, option_bind_Some, run_cons.
      change (step (CallStart opts') w2) with (Some w3).
      by rewrite option_bind_Some, run_cons, H4.
    + simpl. rewrite lookup_insert_ne by (unfold t; lia).
      rewrite lookup_insert_ne by (unfold t; lia).
      by rewrite lookup_insert_eq.
    + simpl. by rewrite lookup_insert_eq.
    + done.
    + done.
    + done.
    + done.
Qed.

(** ** C7 *)



(** ** C1 *)



(** ** C3 *)

(** C3, as stated, fails: in [run_to_linked] attempt 0 stays the slot's
    attempt throughout; after the 515 rejection its [error] is set, and
    after the restart its [connected] is set.  Both markers became set
    during one attempt's life. *)
Lemma both_markers_set_in_one_life :
  markers run_to_515 0 = Some (Some 0%nat, 0%nat, false, Some "restart required") ∧
  markers run_to_linked 0 = Some (Some 0%nat, 0%nat, true, None).
Proof. split; vm_compute; reflexivity. Qed.

(** C3, amended.  In no reachable state does an attempt have [connected]
    and [error] set together; and while a completion promise of an attempt
    is pending both are clear, so each completion signal sets at most one
    of them. *)
Theorem markers_never_both_set w :
  reachable w →
  (∀ l lg, heap w !! l = Some lg → connected lg = true → error lg = None) ∧
  (∀ p l s, promises w !! p = Some (PWaiting l s) →
     ∃ lg, heap w !! l = Some lg ∧ connected lg = false ∧ error lg = None).
Proof.
  intros Hw. apply reachable_Inv in Hw. split.
  - apply (inv_excl _ Hw).
  - apply (inv_pending _ Hw).
Qed.

(** ** C2 *)

(** C2, as stated, fails: the poll of [run_to_515] that sees the 515
    rejection closes transport 0 on its way through [restartLoginSocket],
    and the slot still holds attempt 0 afterwards, which no call of
    [resetActiveLogin] leaves behind. *)
Lemma restart_closes_without_reset :
  last_step run_to_515 (Resume 1) =
    Some (Some 0%nat, Some 0%nat,
          [ERuntimeLog Info restart_notice; ECloseSocket 0;
           ECreateSocket false None]) ∧
  (∀ r w w1, resetActiveLogin r w = Some w1 → activeLogin w1 = None).
Proof.
  split; [vm_compute; reflexivity|].
  intros r w w1 H. by destruct (resetActiveLogin_frame _ _ _ H) as (? & _).
Qed.

(** A restart leaves the slot as it is. *)
Lemma restart_keeps_slot e w w' l lg :
  step e w = Some w' → Inv w → restart_flip w w' l lg →
  activeLogin w' = activeLogin w.
Proof.
  intros Hstep HI (Hl & Hf & Hl').
  assert (Hno : heap w' !! l = heap w !! l → activeLogin w' = activeLogin w).
  { rewrite Hl, Hl'. intros [= Heq]. rewrite <- Heq in Hf. done. }
  destruct (step_slot _ _ _ Hstep)
    as [Hsame|[[_ Hr]|(t & opts & locals & -> & Ht & _ & _)]]; [done| |].
  - destruct Hr as (r & w0 & w1 & pre & t & tk & _ & Hh0 & _ & Hr & ->).
    apply Hno. simpl.
    destruct (resetActiveLogin_frame _ _ _ Hr) as (_ & -> & _). by rewrite Hh0.
  - apply Hno. simpl in Hstep. rewrite Ht in Hstep. simpl in Hstep.
    unfold start_socket_opened, attachLoginWaiter in Hstep. simpl in Hstep.
    rewrite lookup_insert_eq in Hstep. simpl in Hstep. injection Hstep as <-.
    simpl. destruct (inv_ids _ HI _ _ Hl) as [_ Hlt].
    rewrite lookup_alter_ne, lookup_insert_ne by lia. done.
Qed.

(** C2, amended.  A transport handle is closed in two ways only: by
    [resetActiveLogin], which closes the handle of the slot's attempt and
    empties the slot, and by [restartLoginSocket], which closes the old
    handle of the attempt it restarts (its [restartAttempted] going from
    [false] to [true]) without going through reset, and leaves the slot as
    it is.  The slot itself changes
    in two ways only: it is emptied by a call of [resetActiveLogin] made in
    that step, which closes the handle of the attempt that was in it; or it
    is given the attempt a call of [startWebLoginWithQr] creates at l.167,
    which closes nothing.  Such a call gets there along its control flow,
    whose first step past l.108 either ends the call or is
    [resetActiveLogin]. *)
Theorem closes_by_reset_or_restart e w w' :
  step e w = Some w' →
  (∃ new, trace w' = (trace w ++ new)%list ∧
     ∀ s, ECloseSocket s ∈ new →
       reset_closed w w' s ∨ ∃ l lg, restart_flip w w' l lg ∧ sock lg = s) ∧
  (reachable w → ∀ l lg, restart_flip w w' l lg → activeLogin w' = activeLogin w) ∧
  slot_step e w w' ∧
  (∀ a lg, activeLogin w = Some a → heap w !! a = Some lg →
     activeLogin w' = None →
     emptied_by_reset w w' ∧
     ∃ new, trace w' = (trace w ++ new)%list ∧ ECloseSocket (sock lg) ∈ new) ∧
  (∀ t opts locals pc, reachable w →
     tasks w !! t = Some (TStart opts locals pc) →
     ∃ locals' pc', tasks w' !! t = Some (TStart opts locals' pc') ∧
                    (pc' = pc ∨ start_next pc pc')) ∧
  (∀ t opts locals, e = Resume t →
     tasks w !! t = Some (TStart opts locals SAwaitAuth) →
     (∃ r, w' = start_return t opts locals r w) ∨
     (∃ w1, resetActiveLogin None w = Some w1 ∧
            w' = set_task t (TStart opts locals SAwaitReset) w1)).
Proof.
  intros Hstep. split_and!.
  - destruct (step_effects _ _ _ Hstep) as (new & Hnew & Hj).
    exists new. split; [done|]. intros s Hs. exact (Hj _ Hs).
  - intros Hw l lg Hf. by eapply restart_keeps_slot; [|apply reachable_Inv|].
  - by apply step_slot.
  - intros a lg Ha Hl Hnone.
    destruct (step_slot _ _ _ Hstep) as [Hsame|[[_ Hr]|(? & ? & ? & _ & _ & Hin & _)]];
      [congruence| |congruence].
    split; [done|].
    destruct Hr as (r & w0 & w1 & pre & t & tk & Ha0 & Hh0 & Ht0 & Hr & ->).
    exists (pre ++ [ECloseSocket (sock lg)] ++ reason_log r)%list. split.
    + simpl. rewrite (resetActiveLogin_effects _ _ _ Hr), Ht0.
      unfold slot_sockets. rewrite Ha0, Hh0, Ha, Hl. by rewrite <- !app_assoc.
    + rewrite !elem_of_app. right. left. by apply list_elem_of_singleton.
  - intros t opts locals pc Hw Ht.
    by eapply step_start_next; [|apply reachable_Inv|].
  - intros t opts locals -> Ht. rewrite (step_Resume_start _ _ _ _ _ Ht) in Hstep.
    simpl in Hstep.
    destruct (linked (creds w) && negb (Boolean (o_force opts)));
      [injection Hstep as <-; left; eauto|].
    destruct (reusable w) as [[lg|]|]; simpl in Hstep; [| |done];
      [injection Hstep as <-; left; eauto|].
    destruct (resetActiveLogin None w) as [w1|]; simpl in Hstep; [|done].
    injection Hstep as <-. right. eauto.
Qed.

(** ** C10 *)

(** C10, as stated, fails in its last part: in [run_early_code] the first
    code arrives while the slot is still empty and is dropped, yet the call
    ends with the rendered artifact, completed by the second code. *)
Lemma early_code_dropped_yet_start_succeeds :
  last_step (take 3 run_early_code) (QrEmitted 0 "early") = Some (None, None, []) ∧
  run (take 4 run_early_code) init = run (take 3 run_early_code) init ∧
  start_result run_early_code 0 =
    Some {| r_qrDataUrl := Some (data_url "AAAA"); r_message := msg_scan |}.
Proof. split_and!; vm_compute; reflexivity. Qed.

(** C10, amended.  When the slot is empty, or its attempt has a non-empty
    code recorded (as l.144 tests it), the [onQr] callback changes nothing
    at all: the world after it, the call's [qrPromise] and [qrTimer]
    included, is the world before, and every run goes on as it would have
    without the emission.  So the call is not bound to the timeout path: it
    ends that way when its timer fires while it waits at l.172, but a code
    that arrives while the slot's attempt has none is recorded there and
    resolves [qrPromise], wherever the call is. *)
Theorem dropped_code_changes_nothing t opts q pc w :
  tasks w !! t = Some (TStart opts (Some q) pc) →
  (∀ code,
     (activeLogin w = None ∨
      ∃ a lg, activeLogin w = Some a ∧ heap w !! a = Some lg ∧ truthy (qr lg) = true) →
     step (QrEmitted t code) w = Some w ∧
     ∀ es, run (QrEmitted t code :: es) w = run es w) ∧
  (∀ l due, reachable w → pc = SAwaitQr l → qrPromise q = QrPending →
     qrTimer q = Some due → due ≤ mono w →
     ∃ w', run [QrTimerFires t; Resume t; Resume t] w = Some w' ∧
       activeLogin w' = None ∧
       tasks w' !! t = Some (TStart opts (Some {| qrPromise := QrRejected qr_timeout_error;
                                                  qrTimer := None |})
                               (SReturned {| r_qrDataUrl := None;
                                             r_message := msg_qr_failed qr_timeout_error |}))) ∧
  (∀ code a lg, activeLogin w = Some a → heap w !! a = Some lg →
     truthy (qr lg) = false → qrPromise q = QrPending →
     ∃ w', step (QrEmitted t code) w = Some w' ∧
       heap w' = alter (set_qr (Some code)) a (heap w) ∧
       tasks w' !! t = Some (TStart opts (Some {| qrPromise := QrResolved code;
                                                  qrTimer := None |}) pc)).
Proof.
  intros Ht. split_and!.
  - intros code Hdrop.
    assert (Hs : step (QrEmitted t code) w = Some w).
    { simpl. unfold onQr. rewrite Ht. simpl.
      destruct Hdrop as [->|(a & lg & -> & Hl & Hq)]; [done|].
      rewrite Hl. simpl. by rewrite Hq. }
    split; [done|]. intros es. by rewrite run_cons, Hs.
  - intros l due Hw -> Hq Hdue Hle. by eapply start_qr_timeout_run.
  - intros code a lg Ha Hl Hf Hq. simpl. unfold onQr. rewrite Ht. simpl.
    rewrite Ha, Hl. simpl. rewrite Hf, Hq. eexists. split; [done|]. simpl.
    split; [done|]. by rewrite lookup_insert_eq.
Qed.

(** ** C4 *)

(** C4, as stated, fails: [webAuthExists()] (l.108) and
    [renderQrPngBase64(qr)] (l.181) are awaited inside no [try].  When the
    renderer rejects, the call rejects with that error; it has returned
    nothing, and the attempt it installed stays in the slot with its
    transport open.  When [webAuthExists] rejects, the call rejects at
    once. *)
Lemma start_throws_what_it_does_not_catch :
  let es := (take 6 run_to_515 ++ [RenderFailed 0 err500])%list in
  start_pc es 0 = Some (SThrown err500) ∧
  start_result es 0 = None ∧
  outcome es = Some (Some 0%nat, [ECreateSocket false (Some 0%nat);
                                  ERuntimeLog Info "WhatsApp QR received."]) ∧
  start_pc [CallStart opts0; AuthFailed 0 err500] 0 = Some (SThrown err500).
Proof. split_and!; vm_compute; reflexivity. Qed.

(** C4, amended.  In every reachable world a call of
    [startWebLoginWithQr]
    - takes every answer its collaborators can give at the [await] it is
      suspended at, rejections included;
    - is taken no further from its end by any step, and strictly closer by
      each such answer, so after at most five of them it has ended;
    - rejects, with the error and with nothing else changed, when
      [webAuthExists] (l.108) or the renderer (l.181) rejects, and in no
      other way; a call that has not rejected can be brought to its return
      by a run that leaves no rejection unhandled;
    - once returned, has a result of exactly one of the four kinds: the
      already-linked message, the pending artifact, a new artifact, or a
      failure message;
    - when [createWaSocket] rejects, or the code timer fires while the call
      waits for the code at l.172, empties the slot and returns the failure
      message that carries the error.
    A rejection is left unhandled by a step only when a code timer fires
    while its call does not yet wait for the code. *)
Theorem start_always_returns_a_result w t opts locals pc :
  reachable w → tasks w !! t = Some (TStart opts locals pc) →
  start_never_stuck w t locals pc ∧
  (start_rank pc ≤ 5)%nat ∧
  (∀ e w', step e w = Some w' →
     ∃ locals' pc', tasks w' !! t = Some (TStart opts locals' pc') ∧
       (pc' = pc ∨ (start_rank pc' < start_rank pc)%nat) ∧
       (answers t e → (start_rank pc' < start_rank pc)%nat) ∧
       (∀ err, pc' = SThrown err →
          pc = SThrown err ∨ e = AuthFailed t err ∨ e = RenderFailed t err)) ∧
  (∀ err, (pc = SAwaitAuth → step (AuthFailed t err) w =
                               Some (set_task t (TStart opts locals (SThrown err)) w)) ∧
          (∀ l code, pc = SAwaitRender l code →
             step (RenderFailed t err) w =
               Some (set_task t (TStart opts locals (SThrown err)) w))) ∧
  ((∀ err, pc ≠ SThrown err) →
   ∃ es w' locals' r new, run es w = Some w' ∧
     tasks w' !! t = Some (TStart opts locals' (SReturned r)) ∧
     trace w' = (trace w ++ new)%list ∧ ∀ err, EUnhandledRejection err ∉ new) ∧
  (∀ r, pc = SReturned r →
     ∃ k, start_result_is k r ∧ ∀ k', start_result_is k' r → k' = k) ∧
  (∀ err, pc = SAwaitSocket →
     ∃ w', run [SocketFailed t err; Resume t] w = Some w' ∧
       activeLogin w' = None ∧
       tasks w' !! t =
         Some (TStart opts (clear_timer locals)
                 (SReturned {| r_qrDataUrl := None;
                               r_message := "Failed to start WhatsApp login: "
                                            +:+ e_string err |}))) ∧
  (∀ l q due, pc = SAwaitQr l → locals = Some q → qrPromise q = QrPending →
     qrTimer q = Some due → due ≤ mono w →
     ∃ w', run [QrTimerFires t; Resume t; Resume t] w = Some w' ∧
       activeLogin w' = None ∧
       tasks w' !! t =
         Some (TStart opts (Some {| qrPromise := QrRejected qr_timeout_error;
                                    qrTimer := None |})
                 (SReturned
                    {| r_qrDataUrl := None;
                       r_message :=
                         "Failed to get QR: Error: Timed out waiting for WhatsApp QR" |}))) ∧
  (∀ e w', step e w = Some w' →
     ∃ new, trace w' = (trace w ++ new)%list ∧
       ∀ err, EUnhandledRejection err ∈ new → timer_unhandled w w' err).
Proof.
  intros Hw Ht. pose proof (reachable_Inv _ Hw) as HI. split_and!.
  - by eapply start_call_never_stuck.
  - destruct pc; simpl; lia.
  - intros e w' Hs.
    destruct (step_start_rank _ _ _ _ _ _ _ Hs HI Ht) as (l' & pc' & Ht' & Hr).
    exists l', pc'. split_and!; [done..| |].
    + intros He.
      destruct (step_start_answer _ _ _ _ _ _ _ He Hs HI Ht) as (l2 & pc2 & Ht2 & Hlt).
      by simplify_eq.
    + intros err ->. by eapply step_start_thrown.
  - intros err. split; [intros ->|intros l code ->]; simpl; by rewrite Ht.
  - intros Hnt. by eapply (start_can_finish (start_rank pc)).
  - intros r ->. destruct (inv_task_ok _ HI _ _ Ht) as [k Hk]. exists k.
    split; [done|]. intros k' Hk'. by eapply start_result_kind_unique.
  - intros err ->. by apply start_open_failure_run.
  - intros l q due -> -> Hq Hdue Hle. by eapply start_qr_timeout_run.
  - intros e w' Hs. destruct (step_effects _ _ _ Hs) as (new & Hnew & Hj).
    exists new. split; [done|]. intros err Hin. exact (Hj _ Hin).
Qed.

(** ** The theorems at concrete inputs *)

Lemma reachable_world_after es :
  is_Some (run es init) → reachable (world_after es).
Proof. intros [w H]. exists es. unfold world_after. by rewrite H. Qed.

(** C5 at the end of [run_to_superseded]: attempt 1 holds the slot when the
    connection of attempt 0 becomes ready. *)
Lemma stale_continuation_witness :
  step (ConnSettles 1 ConnReady) (world_after run_to_superseded) =
    Some (set_promises (<[1%nat := PFulfilled]> (promises (world_after run_to_superseded)))
            (world_after run_to_superseded)).
Proof.
  set (lg := {| id := 0; sock := 0; startedAt := 0; qr := None; qrDataUrl := None;
                connected := false; error := None; errorStatus := None;
                waitPromise := 1; restartAttempted := false; verbose := false |}).
  refine (proj2 (stale_continuation_is_noop 1 0 0 lg ConnReady
                   (world_after run_to_superseded) _ _ _)).
  - vm_compute. reflexivity.
  - vm_compute. reflexivity.
  - vm_compute. eexists. split; [reflexivity|]. intros H. discriminate H.
Defined.


(** C2, amended, at the step that follows [run_to_515]. *)
Lemma closes_witness :
  ∃ new, trace (world_after (run_to_515 ++ [Resume 1%nat])) =
           (trace (world_after run_to_515) ++ new)%list ∧
    ∀ s, ECloseSocket s ∈ new →
      reset_closed (world_after run_to_515)
        (world_after (run_to_515 ++ [Resume 1%nat])) s ∨
      ∃ l lg, restart_flip (world_after run_to_515)
                (world_after (run_to_515 ++ [Resume 1%nat])) l lg ∧ sock lg = s.
Proof.
  refine (proj1 (closes_by_reset_or_restart (Resume 1) (world_after run_to_515)
                   (world_after (run_to_515 ++ [Resume 1%nat])) _)).
  vm_compute. reflexivity.
Defined.

(** C3, amended, at the end of [run_to_linked]. *)
Lemma markers_witness :
  error (set_connected true
           (set_restartAttempted true (set_waitPromise 2 (set_sock 1
              (attempt_rendered None None))))) = None.
Proof.
  refine (proj1 (markers_never_both_set (world_after run_to_linked) _) 0%nat _ _ _).
  - apply reachable_world_after. vm_compute. eauto.
  - vm_compute. reflexivity.
  - reflexivity.
Defined.

(** C4 right after a call of [startWebLoginWithQr]. *)
Lemma start_returns_witness :
  start_never_stuck (world_after [CallStart opts0]) 0 None SAwaitAuth.
Proof.
  refine (proj1 (start_always_returns_a_result (world_after [CallStart opts0])
                   0 opts0 None SAwaitAuth _ _)).
  - apply reachable_world_after. vm_compute. eauto.
  - vm_compute. reflexivity.
Defined.

(** C6 at the end of [run_to_pending]. *)
Lemma start_reuse_witness :
  ∃ w', run [CallStart opts0; Resume (next_task (world_after run_to_pending));
             CallStart opts0; Resume (S (next_task (world_after run_to_pending)))]
          (world_after run_to_pending) = Some w' ∧
        trace w' = trace (world_after run_to_pending).
Proof.
  assert (H := start_reuses_pending_artifact opts0 opts0
                 (world_after run_to_pending) 0 (attempt_rendered None None)
                 (data_url "AAAA")).
  destruct H as (_ & w' & Hr & _ & _ & _ & _ & _ & Ht);
    [apply reachable_world_after; vm_compute; eauto|vm_compute; reflexivity..|].
  by exists w'.
Defined.


(** C8 at the end of [run_to_stale]. *)
Lemma stale_attempt_witness :
  ∃ w1, step (CallWait None) (world_after run_to_stale) = Some w1 ∧
        activeLogin w1 = None ∧
        trace w1 = (trace (world_after run_to_stale) ++ [ECloseSocket 0])%list.
Proof.
  assert (H := stale_attempt_reported_expired None (world_after run_to_stale) 0
                 (attempt_rendered None None)).
  destruct H as (w1 & Hs & Ha & _ & Ht & _); try (vm_compute; reflexivity).
  by exists w1.
Defined.

(** C9 at the end of [run_to_pending], polled with the default timeout. *)
Lemma poll_timeout_witness :
  ∃ w', run [CallWait None; Tick 120000; RaceTimeout (next_task (world_after run_to_pending))]
          (world_after run_to_pending) = Some w' ∧
        activeLogin w' = Some 0%nat ∧
        heap w' = heap (world_after run_to_pending) ∧
        trace w' = trace (world_after run_to_pending).
Proof.
  assert (H := poll_timeout_keeps_attempt None (world_after run_to_pending) 0
                 (attempt_rendered None None) 0 0 120000).
  destruct H as ((w' & Hr & _ & Ha & Hh & _ & Ht) & _); try (vm_compute; reflexivity).
  { vm_compute. intros H. discriminate H. }
  by exists w'.
Defined.

(** C10, amended, while [createWaSocket] of call 0 is still awaited. *)
Lemma dropped_code_witness :
  step (QrEmitted 0 "early") (world_after (take 3 run_early_code)) =
    Some (world_after (take 3 run_early_code)).
Proof.
  refine (proj1 (proj1 (dropped_code_changes_nothing 0 opts0
                          {| qrPromise := QrPending; qrTimer := Some 30000 |}
                          SAwaitSocket (world_after (take 3 run_early_code)) _)
                   "early" _)).
  - vm_compute. reflexivity.
  - left. vm_compute. reflexivity.
Defined.

(** * Further properties of the module *)

(** ** The clock and the credentials *)

Lemma env_same e w w' : now w' = now w → creds w' = creds w → env_step e w w'.
Proof. intros Hn Hc. split; by left. Qed.

Lemma reset_env r w w1 :
  resetActiveLogin r w = Some w1 → now w1 = now w ∧ creds w1 = creds w.
Proof. intros H. by destruct (resetActiveLogin_frame _ _ _ H) as (_ & _ & _ & _ & ? & ? & _). Qed.

Lemma wait_loop_env e t l d w w' : wait_loop t l d w = Some w' → env_step e w w'.
Proof.
  unfold wait_loop. intros H. destruct (js_le0 _);
    [injection H as <-; by apply env_same|].
  destruct (heap w !! l); simpl in H; [|done]. injection H as <-. by apply env_same.
Qed.

Lemma wait_fail_env e t l w w' : wait_fail t l w = Some w' → env_step e w w'.
Proof.
  unfold wait_fail. intros H. destruct (heap w !! l); simpl in H; [|done].
  destruct (resetActiveLogin _ w) as [w1|] eqn:Hr; simpl in H; [|done].
  injection H as <-. destruct (reset_env _ _ _ Hr). by apply env_same.
Qed.

Lemma attach_env l w w' :
  attachLoginWaiter l w = Some w' → now w' = now w ∧ creds w' = creds w.
Proof.
  unfold attachLoginWaiter. intros H.
  destruct (heap w !! l); simpl in H; [|done]. by injection H as <-.
Qed.

Lemma step_env e w w' : step e w = Some w' → env_step e w w'.
Proof.
  intros H. destruct e; simpl in H.
  - injection H as <-. split; [right; left; by exists d|by left].
  - injection H as <-. split; [by left|right; left; by exists c].
  - injection H as <-. by apply env_same.
  - unfold waitForWebLogin in H.
    destruct (activeLogin (bump_task w)) as [login|];
      [|injection H as <-; by apply env_same].
    destruct (heap (bump_task w) !! login) as [lg|] eqn:El; simpl in H; [|done].
    destruct (negb (isLoginFresh (bump_task w) lg)).
    + destruct (resetActiveLogin None _) as [w1|] eqn:Hr; simpl in H; [|done].
      injection H as <-. destruct (reset_env _ _ _ Hr). by apply env_same.
    + unfold wait_loop in H. destruct (js_le0 _);
        [injection H as <-; by apply env_same|].
      rewrite El in H. simpl in H. injection H as <-. by apply env_same.
  - destruct (tasks w !! t) as [[opts locals pc|pc]|] eqn:Ht; simpl in H; [| |done].
    + destruct pc; simpl in H; try done.
      * destruct (linked (creds w) && negb (Boolean (o_force opts)));
          [injection H as <-; by apply env_same|].
        destruct (reusable w) as [[lg|]|]; simpl in H; [| |done];
          [injection H as <-; by apply env_same|].
        destruct (resetActiveLogin None w) as [w1|] eqn:Hr; simpl in H; [|done].
        injection H as <-. destruct (reset_env _ _ _ Hr). by apply env_same.
      * injection H as <-. by apply env_same.
      * injection H as <-. by apply env_same.
      * destruct locals as [q|]; simpl in H; [|done].
        destruct (qrPromise q); [done|injection H as <-; by apply env_same|].
        destruct (resetActiveLogin None w) as [w1|] eqn:Hr; simpl in H; [|done].
        injection H as <-. destruct (reset_env _ _ _ Hr). by apply env_same.
      * injection H as <-. by apply env_same.
    + destruct pc; simpl in H; try done;
        try (injection H as <-; by apply env_same).
      * destruct (promises w !! p) as [[|]|] eqn:Hp; try done. unfold wait_done in H.
        destruct (heap w !! login) as [lg|] eqn:El; simpl in H; [|done].
        destruct (truthy (error lg)) eqn:Ee.
        -- case_bool_decide.
           { injection H as <-. split; [by left|]. right. right. split; [|done].
             by exists t, login, deadline, p, due, lg. }
           case_bool_decide; [|by eapply wait_fail_env].
           unfold restartLoginSocket_enter in H. rewrite El in H. simpl in H.
           destruct (restartAttempted lg); simpl in H; injection H as <-;
             by apply env_same.
        -- destruct (connected lg); [|injection H as <-; by apply env_same].
           destruct (resetActiveLogin None _) as [w2|] eqn:Hr; simpl in H; [|done].
           injection H as <-. destruct (reset_env _ _ _ Hr). by apply env_same.
      * destruct (resetActiveLogin _ w) as [w1|] eqn:Hr; simpl in H; [|done].
        injection H as <-. destruct (reset_env _ _ _ Hr). by apply env_same.
      * destruct (heap w !! login) as [lg|]; simpl in H; [|done].
        destruct (restarted && isLoginFresh w lg);
          [by eapply wait_loop_env|by eapply wait_fail_env].
  - destruct (tasks w !! t) as [[opts locals pc|pc]|]; simpl in H; [| |done].
    + destruct pc; try done. unfold start_socket_opened in H.
      destruct (attachLoginWaiter _ _) as [w4|] eqn:Ha; simpl in H; [|done].
      injection H as <-. destruct (attach_env _ _ _ Ha). by apply env_same.
    + destruct pc; try done. unfold restartLoginSocket_opened in H.
      destruct (attachLoginWaiter _ _) as [w4|] eqn:Ha; simpl in H; [|done].
      injection H as <-. destruct (attach_env _ _ _ Ha). by apply env_same.
  - destruct (tasks w !! t) as [[opts locals pc|pc]|]; simpl in H; [| |done].
    + destruct pc; try done. unfold start_socket_failed in H.
      destruct (resetActiveLogin None w) as [w1|] eqn:Hr; simpl in H; [|done].
      injection H as <-. destruct (reset_env _ _ _ Hr). by apply env_same.
    + destruct pc; try done. injection H as <-. by apply env_same.
  - unfold onQr in H.
    destruct (tasks w !! t) as [[opts [q|] pc|]|]; simpl in H; try done.
    destruct (activeLogin w) as [a|]; [|injection H as <-; by apply env_same].
    destruct (heap w !! a) as [lg|]; simpl in H; [|done].
    destruct (truthy (qr lg)); injection H as <-; by apply env_same.
  - unfold qr_timer_fires in H.
    destruct (tasks w !! t) as [[opts [q|] pc|]|]; simpl in H; try done.
    destruct (qrTimer q) as [due|]; [|done].
    destruct (due <=? mono w); [|done]. injection H as <-.
    destruct (qr_unhandled q pc); by apply env_same.
  - destruct (tasks w !! t) as [[opts locals pc|pc]|]; simpl in H; try done.
    destruct pc; try done. unfold start_rendered in H.
    destruct (heap _ !! login); simpl in H; [|done]. injection H as <-.
    by apply env_same.
  - unfold conn_settles in H.
    destruct (promises w !! p) as [[|l s]|]; try done.
    destruct (continuation l o w) as [w1|] eqn:Hk; simpl in H; [|done].
    injection H as <-. apply env_same; simpl;
    destruct o; simpl in Hk; unfold on_ready, on_rejected in Hk;
      destruct (same_attempt l w) as [[|]|]; simpl in Hk; try done;
      try (by injection Hk as <-);
      destruct (activeLogin w); simpl in Hk; try done; by injection Hk as <-.
  - unfold race_timeout in H.
    destruct (tasks w !! t) as [[|[]]|]; simpl in H; try done.
    destruct (promises w !! p) as [[|]|]; try done.
    destruct (due <=? mono w); [|done]. injection H as <-. by apply env_same.
  - injection H as <-. split; [right; right; by exists z|by left].
  - destruct (tasks w !! t) as [[opts locals pc|pc]|]; simpl in H; try done.
    destruct pc; try done. injection H as <-. by apply env_same.
  - destruct (tasks w !! t) as [[opts locals pc|pc]|]; simpl in H; try done.
    destruct pc; try done. injection H as <-. by apply env_same.
Qed.

(** ** A recorded code stays *)

Lemma hk_refl h : heap_keeps_code h h.
Proof. intros k x Hx. exists x. by split. Qed.

Lemma hk_eq h h' : h' = h → heap_keeps_code h h'.
Proof. intros ->. apply hk_refl. Qed.

Lemma hk_alter h h1 f l :
  heap_keeps_code h h1 → (∀ y, qr (f y) = qr y) → heap_keeps_code h (alter f l h1).
Proof.
  intros H Hf k x Hx. destruct (H k x Hx) as (x1 & Hx1 & Hk).
  destruct (decide (l = k)) as [->|Hne].
  - exists (f x1). rewrite lookup_alter_eq, Hx1. split; [done|].
    intros Ht. rewrite Hf. by apply Hk.
  - exists x1. by rewrite lookup_alter_ne.
Qed.

Lemma hk_insert_fresh h l x : h !! l = None → heap_keeps_code h (<[l := x]> h).
Proof.
  intros Hl k y Hy. exists y. rewrite lookup_insert_ne by congruence. by split.
Qed.

Lemma hk_trans h1 h2 h3 :
  heap_keeps_code h1 h2 → heap_keeps_code h2 h3 → heap_keeps_code h1 h3.
Proof.
  intros H12 H23 k x Hx. destruct (H12 k x Hx) as (y & Hy & Hxy).
  destruct (H23 k y Hy) as (z & Hz & Hyz). exists z. split; [done|].
  intros Ht. specialize (Hxy Ht). rewrite <- Hxy. apply Hyz. by rewrite Hxy.
Qed.

Ltac keep_code :=
  simpl;
  repeat (apply hk_alter; [|by intros []]);
  first [apply hk_refl | by apply hk_eq].

Lemma step_keeps_code e w w' :
  step e w = Some w' → Inv w → heap_keeps_code (heap w) (heap w').
Proof.
  intros H HI. destruct e; simpl in H.
  - injection H as <-. keep_code.
  - injection H as <-. keep_code.
  - injection H as <-. keep_code.
  - unfold waitForWebLogin in H.
    destruct (activeLogin (bump_task w)) as [login|]; [|injection H as <-; keep_code].
    destruct (heap (bump_task w) !! login) as [lg|]; simpl in H; [|done].
    destruct (negb (isLoginFresh (bump_task w) lg)).
    + destruct (resetActiveLogin None _) as [w1|] eqn:Hr; simpl in H; [|done].
      injection H as <-. apply hk_eq. simpl. by rewrite (reset_evolves _ _ _ Hr).
    + apply hk_eq. by rewrite (wait_loop_heap _ _ _ _ _ H).
  - destruct (tasks w !! t) as [[opts locals pc|pc]|]; simpl in H; [| |done].
    + destruct pc; simpl in H; try done.
      * destruct (linked (creds w) && negb (Boolean (o_force opts)));
          [injection H as <-; keep_code|].
        destruct (reusable w) as [[lg|]|]; simpl in H; [| |done];
          [injection H as <-; keep_code|].
        destruct (resetActiveLogin None w) as [w1|] eqn:Hr; simpl in H; [|done].
        injection H as <-. apply hk_eq. simpl. by eapply reset_evolves.
      * injection H as <-. keep_code.
      * injection H as <-. keep_code.
      * destruct locals as [q|]; simpl in H; [|done].
        destruct (qrPromise q); [done|injection H as <-; keep_code|].
        destruct (resetActiveLogin None w) as [w1|] eqn:Hr; simpl in H; [|done].
        injection H as <-. apply hk_eq. simpl. by eapply reset_evolves.
      * injection H as <-. keep_code.
    + destruct pc; simpl in H; try done; try (injection H as <-; keep_code).
      * destruct (promises w !! p) as [[|]|]; try done. unfold wait_done in H.
        destruct (heap w !! login) as [lg|] eqn:El; simpl in H; [|done].
        destruct (truthy (error lg)).
        -- case_bool_decide; [injection H as <-; keep_code|].
           case_bool_decide; [|apply hk_eq; by eapply wait_fail_heap].
           unfold restartLoginSocket_enter in H. rewrite El in H. simpl in H.
           destruct (restartAttempted lg); simpl in H; injection H as <-; keep_code.
        -- destruct (connected lg); [|injection H as <-; keep_code].
           destruct (resetActiveLogin None _) as [w2|] eqn:Hr; simpl in H; [|done].
           injection H as <-. apply hk_eq. simpl. by rewrite (reset_evolves _ _ _ Hr).
      * destruct (resetActiveLogin _ w) as [w1|] eqn:Hr; simpl in H; [|done].
        injection H as <-. apply hk_eq. simpl. by eapply reset_evolves.
      * destruct (heap w !! login) as [lg|]; simpl in H; [|done].
        destruct (restarted && isLoginFresh w lg); apply hk_eq;
          [by eapply wait_loop_heap|by eapply wait_fail_heap].
  - destruct (tasks w !! t) as [[opts locals pc|pc]|]; simpl in H; [| |done].
    + destruct pc; try done. unfold start_socket_opened in H.
      destruct (attachLoginWaiter _ _) as [w4|] eqn:Ha; simpl in H; [|done].
      injection H as <-. apply attachLoginWaiter_frame in Ha as (_ & _ & _ & Hh).
      simpl. rewrite Hh. simpl. apply hk_alter; [|by intros []].
      apply hk_insert_fresh.
      destruct (heap w !! next_login w) eqn:E; [|done].
      destruct (inv_ids _ HI _ _ E). lia.
    + destruct pc; try done. unfold restartLoginSocket_opened in H.
      destruct (attachLoginWaiter _ _) as [w4|] eqn:Ha; simpl in H; [|done].
      injection H as <-. apply attachLoginWaiter_frame in Ha as (_ & _ & _ & Hh).
      simpl. rewrite Hh. keep_code.
  - destruct (tasks w !! t) as [[opts locals pc|pc]|]; simpl in H; [| |done].
    + destruct pc; try done. unfold start_socket_failed in H.
      destruct (resetActiveLogin None w) as [w1|] eqn:Hr; simpl in H; [|done].
      injection H as <-. apply hk_eq. simpl. by eapply reset_evolves.
    + destruct pc; try done. injection H as <-. keep_code.
  - unfold onQr in H.
    destruct (tasks w !! t) as [[opts [q|] pc|]|]; simpl in H; try done.
    destruct (activeLogin w) as [a|]; [|injection H as <-; keep_code].
    destruct (heap w !! a) as [lg|] eqn:El; simpl in H; [|done].
    destruct (truthy (qr lg)) eqn:Eq; injection H as <-; [keep_code|].
    (* l.145: the only write to [qr], on an attempt that has no code *)
    simpl. intros k x Hx. destruct (decide (a = k)) as [->|Hne].
    + exists (set_qr (Some code) x). rewrite lookup_alter_eq, Hx. split; [done|].
      intros Ht. simplify_eq. congruence.
    + exists x. by rewrite lookup_alter_ne.
  - unfold qr_timer_fires in H.
    destruct (tasks w !! t) as [[opts [q|] pc|]|]; simpl in H; try done.
    destruct (qrTimer q) as [due|]; [|done].
    destruct (due <=? mono w); [|done]. injection H as <-.
    destruct (qr_unhandled q pc); keep_code.
  - destruct (tasks w !! t) as [[opts locals pc|pc]|]; simpl in H; try done.
    destruct pc; try done. unfold start_rendered in H.
    destruct (heap _ !! login); simpl in H; [|done]. injection H as <-. keep_code.
  - unfold conn_settles in H.
    destruct (promises w !! p) as [[|l s]|]; try done.
    destruct (continuation l o w) as [w1|] eqn:Hk; simpl in H; [|done].
    injection H as <-. simpl.
    destruct o; simpl in Hk; unfold on_ready, on_rejected in Hk;
      destruct (same_attempt l w) as [[|]|]; simpl in Hk; try done;
      try (injection Hk as <-; keep_code);
      destruct (activeLogin w); simpl in Hk; try done; injection Hk as <-; keep_code.
  - unfold race_timeout in H.
    destruct (tasks w !! t) as [[|[]]|]; simpl in H; try done.
    destruct (promises w !! p) as [[|]|]; try done.
    destruct (due <=? mono w); [|done]. injection H as <-. keep_code.
  - injection H as <-. keep_code.
  - destruct (tasks w !! t) as [[opts locals pc|pc]|]; simpl in H; try done.
    destruct pc; try done. injection H as <-. keep_code.
  - destruct (tasks w !! t) as [[opts locals pc|pc]|]; simpl in H; try done.
    destruct pc; try done. injection H as <-. keep_code.
Qed.

(** ** Transports that are left behind *)

Lemma ss_refl n h : socks_from n h h.
Proof. intros k x Hx. right. by exists x. Qed.

Lemma ss_eq n h h' : h' = h → socks_from n h h'.
Proof. intros ->. apply ss_refl. Qed.

Lemma ss_alter n h h1 f l :
  socks_from n h h1 → (∀ y, sock (f y) = sock y) → socks_from n h (alter f l h1).
Proof.
  intros H Hf k x' Hx'. destruct (decide (l = k)) as [->|Hne].
  - rewrite lookup_alter_eq in Hx'. destruct (h1 !! k) as [y|] eqn:Ey; [|done].
    injection Hx' as <-. rewrite Hf. by apply (H k).
  - rewrite lookup_alter_ne in Hx' by done. by apply H.
Qed.

Lemma ss_alter_new n h h1 l :
  socks_from n h h1 → socks_from n h (alter (set_sock n) l h1).
Proof.
  intros H k x' Hx'. destruct (decide (l = k)) as [->|Hne].
  - rewrite lookup_alter_eq in Hx'. destruct (h1 !! k) as [y|] eqn:Ey; [|done].
    injection Hx' as <-. by left.
  - rewrite lookup_alter_ne in Hx' by done. by apply H.
Qed.

Lemma ss_insert_new n h l x : sock x = n → socks_from n h (<[l := x]> h).
Proof.
  intros Hs k x' Hx'. destruct (decide (l = k)) as [->|Hne].
  - rewrite lookup_insert_eq in Hx'. injection Hx' as <-. by left.
  - rewrite lookup_insert_ne in Hx' by done. right. by exists x'.
Qed.

Lemma socks_same w w' :
  heap w' = heap w → next_sock w' = next_sock w → socks_step w w'.
Proof. intros Hh Hn. split; [lia|by apply ss_eq]. Qed.

Ltac socks :=
  split; [simpl; lia|];
  simpl;
  repeat (apply ss_alter; [|by intros []]);
  first [apply ss_refl | by apply ss_eq].

Lemma reset_socks r w w1 :
  resetActiveLogin r w = Some w1 → heap w1 = heap w ∧ next_sock w1 = next_sock w.
Proof.
  intros H.
  by destruct (resetActiveLogin_frame _ _ _ H) as (_ & ? & _ & _ & _ & _ & _ & ? & _).
Qed.

Lemma wait_loop_socks t l d w w' : wait_loop t l d w = Some w' → socks_step w w'.
Proof.
  unfold wait_loop. intros H. destruct (js_le0 _);
    [injection H as <-; by apply socks_same|].
  destruct (heap w !! l); simpl in H; [|done]. injection H as <-. by apply socks_same.
Qed.

Lemma wait_fail_socks t l w w' : wait_fail t l w = Some w' → socks_step w w'.
Proof.
  unfold wait_fail. intros H. destruct (heap w !! l); simpl in H; [|done].
  destruct (resetActiveLogin _ w) as [w1|] eqn:Hr; simpl in H; [|done].
  injection H as <-. destruct (reset_socks _ _ _ Hr). by apply socks_same.
Qed.

Lemma attach_socks l w w' :
  attachLoginWaiter l w = Some w' →
  next_sock w' = next_sock w ∧
  heap w' = alter (set_waitPromise (next_promise w)) l (heap w).
Proof.
  unfold attachLoginWaiter. intros H.
  destruct (heap w !! l); simpl in H; [|done]. by injection H as <-.
Qed.

Ltac reset_socks_case Hr :=
  let Hh := fresh in let Hn := fresh in
  destruct (reset_socks _ _ _ Hr) as [Hh Hn]; by apply socks_same.

Lemma step_socks e w w' : step e w = Some w' → socks_step w w'.
Proof.
  intros H. destruct e; simpl in H.
  - injection H as <-. socks.
  - injection H as <-. socks.
  - injection H as <-. socks.
  - unfold waitForWebLogin in H.
    destruct (activeLogin (bump_task w)) as [login|]; [|injection H as <-; socks].
    destruct (heap (bump_task w) !! login) as [lg|]; simpl in H; [|done].
    destruct (negb (isLoginFresh (bump_task w) lg)).
    + destruct (resetActiveLogin None _) as [w1|] eqn:Hr; simpl in H; [|done].
      injection H as <-. reset_socks_case Hr.
    + by apply (wait_loop_socks _ _ _ _ _ H).
  - destruct (tasks w !! t) as [[opts locals pc|pc]|]; simpl in H; [| |done].
    + destruct pc; simpl in H; try done.
      * destruct (linked (creds w) && negb (Boolean (o_force opts)));
          [injection H as <-; socks|].
        destruct (reusable w) as [[lg|]|]; simpl in H; [| |done];
          [injection H as <-; socks|].
        destruct (resetActiveLogin None w) as [w1|] eqn:Hr; simpl in H; [|done].
        injection H as <-. reset_socks_case Hr.
      * injection H as <-. socks.
      * injection H as <-. socks.
      * destruct locals as [q|]; simpl in H; [|done].
        destruct (qrPromise q); [done|injection H as <-; socks|].
        destruct (resetActiveLogin None w) as [w1|] eqn:Hr; simpl in H; [|done].
        injection H as <-. reset_socks_case Hr.
      * injection H as <-. socks.
    + destruct pc; simpl in H; try done; try (injection H as <-; socks).
      * destruct (promises w !! p) as [[|]|]; try done. unfold wait_done in H.
        destruct (heap w !! login) as [lg|] eqn:El; simpl in H; [|done].
        destruct (truthy (error lg)).
        -- case_bool_decide; [injection H as <-; socks|].
           case_bool_decide; [|by eapply wait_fail_socks].
           unfold restartLoginSocket_enter in H. rewrite El in H. simpl in H.
           destruct (restartAttempted lg); simpl in H; injection H as <-; socks.
        -- destruct (connected lg); [|injection H as <-; socks].
           destruct (resetActiveLogin None _) as [w2|] eqn:Hr; simpl in H; [|done].
           injection H as <-. reset_socks_case Hr.
      * destruct (resetActiveLogin _ w) as [w1|] eqn:Hr; simpl in H; [|done].
        injection H as <-. reset_socks_case Hr.
      * destruct (heap w !! login) as [lg|]; simpl in H; [|done].
        destruct (restarted && isLoginFresh w lg);
          [by eapply wait_loop_socks|by eapply wait_fail_socks].
  - destruct (tasks w !! t) as [[opts locals pc|pc]|]; simpl in H; [| |done].
    + (* l.158-168: the new attempt holds the handle just created *)
      destruct pc; try done. unfold start_socket_opened in H.
      destruct (attachLoginWaiter _ _) as [w4|] eqn:Ha; simpl in H; [|done].
      injection H as <-. apply attach_socks in Ha as [Hn Hh].
      split; simpl; [rewrite Hn; simpl; lia|]. rewrite Hh. simpl.
      apply ss_alter; [|by intros []]. by apply ss_insert_new.
    + (* l.86: the restarted attempt gets the handle just created *)
      destruct pc; try done. unfold restartLoginSocket_opened in H.
      destruct (attachLoginWaiter _ _) as [w4|] eqn:Ha; simpl in H; [|done].
      injection H as <-. apply attach_socks in Ha as [Hn Hh].
      split; simpl; [rewrite Hn; simpl; lia|]. rewrite Hh. simpl.
      do 4 (apply ss_alter; [|by intros []]). apply ss_alter_new, ss_refl.
  - destruct (tasks w !! t) as [[opts locals pc|pc]|]; simpl in H; [| |done].
    + destruct pc; try done. unfold start_socket_failed in H.
      destruct (resetActiveLogin None w) as [w1|] eqn:Hr; simpl in H; [|done].
      injection H as <-. reset_socks_case Hr.
    + destruct pc; try done. injection H as <-. socks.
  - unfold onQr in H.
    destruct (tasks w !! t) as [[opts [q|] pc|]|]; simpl in H; try done.
    destruct (activeLogin w) as [a|]; [|injection H as <-; socks].
    destruct (heap w !! a) as [lg|] eqn:El; simpl in H; [|done].
    destruct (truthy (qr lg)) eqn:Eq; injection H as <-; socks.
  - unfold qr_timer_fires in H.
    destruct (tasks w !! t) as [[opts [q|] pc|]|]; simpl in H; try done.
    destruct (qrTimer q) as [due|]; [|done].
    destruct (due <=? mono w); [|done]. injection H as <-.
    destruct (qr_unhandled q pc); socks.
  - destruct (tasks w !! t) as [[opts locals pc|pc]|]; simpl in H; try done.
    destruct pc; try done. unfold start_rendered in H.
    destruct (heap _ !! login); simpl in H; [|done]. injection H as <-. socks.
  - unfold conn_settles in H.
    destruct (promises w !! p) as [[|l s]|]; try done.
    destruct (continuation l o w) as [w1|] eqn:Hk; simpl in H; [|done].
    injection H as <-.
    destruct o; simpl in Hk; unfold on_ready, on_rejected in Hk;
      destruct (same_attempt l w) as [[|]|]; simpl in Hk; try done;
      try (injection Hk as <-; socks);
      destruct (activeLogin w); simpl in Hk; try done; injection Hk as <-; socks.
  - unfold race_timeout in H.
    destruct (tasks w !! t) as [[|[]]|]; simpl in H; try done.
    destruct (promises w !! p) as [[|]|]; try done.
    destruct (due <=? mono w); [|done]. injection H as <-. socks.
  - injection H as <-. socks.
  - destruct (tasks w !! t) as [[opts locals pc|pc]|]; simpl in H; try done.
    destruct pc; try done. injection H as <-. socks.
  - destruct (tasks w !! t) as [[opts locals pc|pc]|]; simpl in H; try done.
    destruct pc; try done. injection H as <-. socks.
Qed.

Lemma abandoned_spec w s :
  abandoned w s = true ↔
  (s < next_sock w)%nat ∧
  ∀ k x, heap w !! k = Some x → sock x = s →
    activeLogin w ≠ Some k ∧ restartAttempted x = true.
Proof.
  unfold abandoned. rewrite andb_true_iff, bool_decide_eq_true, forallb_forall.
  split; intros [Hlt H]; (split; [done|]).
  - intros k x Hk Hs. specialize (H (k, x)). unfold abandoned_by in H. simpl in H.
    rewrite bool_decide_true in H by done. simpl in H.
    apply andb_true_iff in H as [Hslot Hf].
    + split; [|done]. apply negb_true_iff, bool_decide_eq_false in Hslot. done.
    + apply list_elem_of_In, elem_of_map_to_list. done.
  - intros [k x] Hin. apply list_elem_of_In, elem_of_map_to_list in Hin.
    unfold abandoned_by. simpl. case_bool_decide as Hs; [|done]. simpl.
    destruct (H k x Hin Hs) as [Hslot ->]. rewrite bool_decide_false by done. done.
Qed.

Lemma step_abandoned e w w' s :
  step e w = Some w' → Inv w → abandoned w s = true →
  abandoned w' s = true ∧
  ∃ new, trace w' = (trace w ++ new)%list ∧ ECloseSocket s ∉ new.
Proof.
  intros Hs HI [Hlt Hu]%abandoned_spec.
  destruct (step_socks _ _ _ Hs) as [Hn Hss].
  split.
  - apply abandoned_spec. split; [lia|]. intros k x' Hk Hsx.
    destruct (Hss k x' Hk) as [Hnew|(x & Hx & Hsock)]; [lia|].
    destruct (Hu k x Hx) as [Hslot Hflag]; [congruence|]. split.
    + destruct (step_slot _ _ _ Hs) as [->|[[-> _]|(t & opts & locals & _ & _ & -> & _)]];
        [done..|].
      intros [= <-]. destruct (inv_ids _ HI _ _ Hx). lia.
    + destruct (step_evolves _ _ _ Hs HI _ _ Hx) as (x2 & Hx2 & _ & _ & _ & Hm).
      rewrite Hk in Hx2. injection Hx2 as <-. auto.
  - destruct (step_effects _ _ _ Hs) as (new & Htr & Hj). exists new.
    split; [done|]. intros Hin. specialize (Hj _ Hin). simpl in Hj.
    destruct Hj as [(a & lg & Ha & Hl & Hsk & _)|(l & lg & (Hl & Hf & _) & Hsk)].
    + by destruct (Hu a lg Hl Hsk).
    + destruct (Hu l lg Hl Hsk). congruence.
Qed.

(** ** Results of [waitForWebLogin] *)

Lemma waits_ok_goto w t tk w1 :
  waits_ok w → tasks w1 = tasks w → wait_pc_ok tk → waits_ok (set_task t tk w1).
Proof.
  intros Hw Hts Hok t' tk'. simpl. rewrite Hts, lookup_insert.
  case_decide; [by intros [= <-]|apply Hw].
Qed.

Lemma waits_ok_frame w w' : tasks w' = tasks w → waits_ok w → waits_ok w'.
Proof. intros Hts Hw t tk. rewrite Hts. apply Hw. Qed.

Lemma wait_result_false m :
  m = msg_no_login ∨ m = msg_expired ∨ m = msg_still_waiting ∨
  m = msg_logged_out ∨ m = msg_no_connection ∨ (∃ err, m = msg_failed err) →
  wait_result_ok {| r_connected := false; r_wmessage := m |}.
Proof. intros H. right. by split. Qed.

Ltac wait_ok :=
  simpl; first
    [ done
    | by eexists
    | by left
    | apply wait_result_false; tauto
    | apply wait_result_false; do 5 right; by eexists ].

Lemma wait_loop_ok t l d w w' :
  wait_loop t l d w = Some w' → waits_ok w → waits_ok w'.
Proof.
  unfold wait_loop. intros H Hw. destruct (js_le0 _).
  - injection H as <-. apply (waits_ok_goto w); [done..|wait_ok].
  - destruct (heap w !! l); simpl in H; [|done]. injection H as <-.
    apply (waits_ok_goto w); [done..|wait_ok].
Qed.

Lemma wait_fail_ok t l w w' :
  wait_fail t l w = Some w' → waits_ok w → waits_ok w'.
Proof.
  unfold wait_fail. intros H Hw. destruct (heap w !! l); simpl in H; [|done].
  destruct (resetActiveLogin _ w) as [w1|] eqn:Hr; simpl in H; [|done].
  injection H as <-. apply (waits_ok_goto w); [done|by eapply reset_tasks|wait_ok].
Qed.

Lemma step_waits_ok e w w' : step e w = Some w' → waits_ok w → waits_ok w'.
Proof.
  intros H Hw. destruct e; simpl in H.
  - injection H as <-. by eapply waits_ok_frame.
  - injection H as <-. by eapply waits_ok_frame.
  - injection H as <-. apply (waits_ok_goto w); [done..|wait_ok].
  - unfold waitForWebLogin in H.
    destruct (activeLogin (bump_task w)) as [login|];
      [|injection H as <-; apply (waits_ok_goto w); [done..|wait_ok]].
    destruct (heap (bump_task w) !! login) as [lg|] eqn:El; simpl in H; [|done].
    destruct (negb (isLoginFresh (bump_task w) lg)).
    + destruct (resetActiveLogin None _) as [w1|] eqn:Hr; simpl in H; [|done].
      injection H as <-.
      apply (waits_ok_goto w); [done|by rewrite (reset_tasks _ _ _ Hr)|wait_ok].
    + unfold wait_loop in H. destruct (js_le0 _);
        [injection H as <-; apply (waits_ok_goto w); [done..|wait_ok]|].
      rewrite El in H. simpl in H. injection H as <-.
      apply (waits_ok_goto w); [done..|wait_ok].
  - destruct (tasks w !! t) as [[opts locals pc|pc]|] eqn:Ht; simpl in H; [| |done].
    + destruct pc; simpl in H; try done.
      * destruct (linked (creds w) && negb (Boolean (o_force opts)));
          [injection H as <-; apply (waits_ok_goto w); [done..|wait_ok]|].
        destruct (reusable w) as [[lg|]|]; simpl in H; [| |done];
          [injection H as <-; apply (waits_ok_goto w); [done..|wait_ok]|].
        destruct (resetActiveLogin None w) as [w1|] eqn:Hr; simpl in H; [|done].
        injection H as <-. apply (waits_ok_goto w); [done|by eapply reset_tasks|wait_ok].
      * injection H as <-. apply (waits_ok_goto w); [done..|wait_ok].
      * injection H as <-. apply (waits_ok_goto w); [done..|wait_ok].
      * destruct locals as [q|]; simpl in H; [|done].
        destruct (qrPromise q); [done| |].
        -- injection H as <-. apply (waits_ok_goto w); [done..|wait_ok].
        -- destruct (resetActiveLogin None w) as [w1|] eqn:Hr; simpl in H; [|done].
           injection H as <-.
           apply (waits_ok_goto w); [done|by eapply reset_tasks|wait_ok].
      * injection H as <-. apply (waits_ok_goto w); [done..|wait_ok].
    + pose proof (Hw _ _ Ht) as Hpc. destruct pc; simpl in H, Hpc; try done.
      * injection H as <-. apply (waits_ok_goto w); [done..|wait_ok].
      * destruct (promises w !! p) as [[|]|]; try done. unfold wait_done in H.
        destruct (heap w !! login) as [lg|] eqn:El; simpl in H; [|done].
        destruct (truthy (error lg)).
        -- case_bool_decide;
             [injection H as <-; apply (waits_ok_goto w); [done..|wait_ok]|].
           case_bool_decide; [|by eapply wait_fail_ok].
           unfold restartLoginSocket_enter in H. rewrite El in H. simpl in H.
           destruct (restartAttempted lg); simpl in H; injection H as <-;
             (apply (waits_ok_goto w); [done..|wait_ok]).
        -- destruct (connected lg);
             [|injection H as <-; apply (waits_ok_goto w); [done..|wait_ok]].
           destruct (resetActiveLogin None _) as [w2|] eqn:Hr; simpl in H; [|done].
           injection H as <-.
           apply (waits_ok_goto w); [done|by rewrite (reset_tasks _ _ _ Hr)|wait_ok].
      * destruct (resetActiveLogin _ w) as [w1|] eqn:Hr; simpl in H; [|done].
        injection H as <-. apply (waits_ok_goto w); [done|by eapply reset_tasks|wait_ok].
      * injection H as <-. subst message. apply (waits_ok_goto w); [done..|wait_ok].
      * destruct (heap w !! login) as [lg|]; simpl in H; [|done].
        destruct (restarted && isLoginFresh w lg);
          [by eapply wait_loop_ok|by eapply wait_fail_ok].
      * injection H as <-. destruct Hpc as [err ->].
        apply (waits_ok_goto w); [done..|wait_ok].
      * injection H as <-. subst message. apply (waits_ok_goto w); [done..|wait_ok].
  - destruct (tasks w !! t) as [[opts locals pc|pc]|] eqn:Ht; simpl in H; [| |done].
    + destruct pc; try done. unfold start_socket_opened in H.
      destruct (attachLoginWaiter _ _) as [w4|] eqn:Ha; simpl in H; [|done].
      injection H as <-. apply attachLoginWaiter_frame in Ha as (_ & _ & Hts & _).
      apply (waits_ok_goto w); [done|by rewrite Hts|wait_ok].
    + destruct pc; try done. unfold restartLoginSocket_opened in H.
      destruct (attachLoginWaiter _ _) as [w4|] eqn:Ha; simpl in H; [|done].
      injection H as <-. apply attachLoginWaiter_frame in Ha as (_ & _ & Hts & _).
      apply (waits_ok_goto w); [done|by rewrite Hts|wait_ok].
  - destruct (tasks w !! t) as [[opts locals pc|pc]|] eqn:Ht; simpl in H; [| |done].
    + destruct pc; try done. unfold start_socket_failed in H.
      destruct (resetActiveLogin None w) as [w1|] eqn:Hr; simpl in H; [|done].
      injection H as <-. apply (waits_ok_goto w); [done|by eapply reset_tasks|wait_ok].
    + destruct pc; try done. injection H as <-.
      apply (waits_ok_goto w); [done..|wait_ok].
  - unfold onQr in H.
    destruct (tasks w !! t) as [[opts [q|] pc|]|] eqn:Ht; simpl in H; try done.
    destruct (activeLogin w) as [a|]; [|by injection H as <-].
    destruct (heap w !! a) as [lg|]; simpl in H; [|done].
    destruct (truthy (qr lg)); injection H as <-; [done|].
    apply (waits_ok_goto w); [done..|wait_ok].
  - unfold qr_timer_fires in H.
    destruct (tasks w !! t) as [[opts [q|] pc|]|] eqn:Ht; simpl in H; try done.
    destruct (qrTimer q) as [due|]; [|done].
    destruct (due <=? mono w); [|done]. injection H as <-.
    apply (waits_ok_goto w); [done|by destruct (qr_unhandled q pc)|wait_ok].
  - destruct (tasks w !! t) as [[opts locals pc|pc]|] eqn:Ht; simpl in H; try done.
    destruct pc; try done. unfold start_rendered in H.
    destruct (heap _ !! login); simpl in H; [|done]. injection H as <-.
    apply (waits_ok_goto w); [done..|wait_ok].
  - unfold conn_settles in H.
    destruct (promises w !! p) as [[|l s]|]; try done.
    destruct (continuation l o w) as [w1|] eqn:Hk; simpl in H; [|done].
    injection H as <-. eapply waits_ok_frame; [|done]. simpl.
    destruct o; simpl in Hk; unfold on_ready, on_rejected in Hk;
      destruct (same_attempt l w) as [[|]|]; simpl in Hk; try done;
      try (by injection Hk as <-);
      destruct (activeLogin w); simpl in Hk; try done; by injection Hk as <-.
  - unfold race_timeout in H.
    destruct (tasks w !! t) as [[|[]]|] eqn:Ht; simpl in H; try done.
    destruct (promises w !! p) as [[|]|]; try done.
    destruct (due <=? mono w); [|done]. injection H as <-.
    apply (waits_ok_goto w); [done..|wait_ok].
  - injection H as <-. by eapply waits_ok_frame.
  - destruct (tasks w !! t) as [[opts locals pc|pc]|] eqn:Ht; simpl in H; try done.
    destruct pc; try done. injection H as <-.
    apply (waits_ok_goto w); [done..|wait_ok].
  - destruct (tasks w !! t) as [[opts locals pc|pc]|] eqn:Ht; simpl in H; try done.
    destruct pc; try done. injection H as <-.
    apply (waits_ok_goto w); [done..|wait_ok].
Qed.

Lemma run_waits_ok es w w' : run es w = Some w' → waits_ok w → waits_ok w'.
Proof.
  revert w. induction es as [|e es IH]; simpl; intros w H Hw.
  - by injection H as <-.
  - destruct (step e w) as [w1|] eqn:Hs; simpl in H; [|done].
    eapply IH; [done|]. by eapply step_waits_ok.
Qed.

Lemma reachable_waits_ok w : reachable w → waits_ok w.
Proof.
  intros [es H]. eapply run_waits_ok; [done|]. intros t tk. simpl.
  by rewrite lookup_empty.
Qed.

(** ** The session store *)

(** X1.  [resetActiveLogin] closes the transport of the slot's attempt once
    and empties the slot; called again it closes nothing, and without a
    reason it then changes nothing at all. *)
Theorem resetActiveLogin_twice r w w1 :
  resetActiveLogin r w = Some w1 →
  activeLogin w1 = None ∧ heap w1 = heap w ∧
  trace w1 = (trace w ++ map ECloseSocket (slot_sockets w) ++ reason_log r)%list ∧
  resetActiveLogin None w1 = Some w1 ∧
  ∀ r2, ∃ w2, resetActiveLogin r2 w1 = Some w2 ∧ activeLogin w2 = None ∧
              trace w2 = (trace w1 ++ reason_log r2)%list.
Proof.
  intros H. destruct (resetActiveLogin_frame _ _ _ H) as (Ha & Hh & _).
  split_and!; [done|done|by apply resetActiveLogin_effects|..].
  - unfold resetActiveLogin. by rewrite Ha.
  - intros r2. unfold resetActiveLogin. rewrite Ha. simpl. eexists.
    split; [done|]. unfold log_reason, reason_log.
    destruct r2; [destruct (truthy _)|]; simpl; by rewrite ?app_nil_r.
Qed.

(** ** startWebLoginWithQr *)

(** X2.  The code timer of a call is armed, once the call is past l.124,
    with [setTimeout] of [max(timeoutMs ?? 30000, 5000)] ms: 30000 ms when
    no [timeoutMs] is given, 5000 ms for one below 5000 (or [-Infinity]),
    the value itself up to 2^31-1, and, as [setTimeout] replaces a delay it
    cannot hold, 1 ms for one above 2^31-1, for [Infinity] and for [NaN]. *)
Theorem qr_timer_floor t opts locals w :
  tasks w !! t = Some (TStart opts locals SAwaitReset) →
  ∃ w' due, step (Resume t) w = Some w' ∧
    tasks w' !! t = Some (TStart opts (Some {| qrPromise := QrPending;
                                               qrTimer := Some due |}) SAwaitSocket) ∧
    due = mono w + qr_delay opts ∧
    (o_timeoutMs opts = None → qr_delay opts = 30000) ∧
    (∀ z, o_timeoutMs opts = Some (Num z) → z ≤ TIMEOUT_MAX →
       qr_delay opts = Z.max z 5000) ∧
    (∀ z, o_timeoutMs opts = Some (Num z) → TIMEOUT_MAX < z → qr_delay opts = 1) ∧
    (o_timeoutMs opts = Some PosInf → qr_delay opts = 1) ∧
    (o_timeoutMs opts = Some NaN → qr_delay opts = 1) ∧
    (o_timeoutMs opts = Some NegInf → qr_delay opts = 5000).
Proof.
  intros Ht. rewrite (step_Resume_start _ _ _ _ _ Ht). simpl.
  eexists _, _. split; [done|]. simpl. split_and!.
  - by rewrite lookup_insert_eq.
  - done.
  - unfold qr_delay. by intros ->.
  - unfold qr_delay. intros z -> Hz. simpl.
    replace (1 <=? Z.max z 5000) with true by (symmetry; apply Z.leb_le; lia).
    replace (Z.max z 5000 <=? TIMEOUT_MAX) with true; [done|].
    symmetry. apply Z.leb_le. unfold TIMEOUT_MAX in *. lia.
  - unfold qr_delay. intros z -> Hz. simpl.
    replace (Z.max z 5000 <=? TIMEOUT_MAX) with false; [by rewrite andb_false_r|].
    symmetry. apply Z.leb_gt. lia.
  - unfold qr_delay. by intros ->.
  - unfold qr_delay. by intros ->.
  - unfold qr_delay. by intros ->.
Qed.


(** X13.  A call that is not short-circuited and finds in the slot an
    attempt it cannot serve again (stale, or without a rendered code)
    disposes of that attempt: its transport is closed, the slot emptied, and
    the call goes on to open a transport of its own. *)
Theorem start_supersedes_unusable_attempt t opts locals w a lg :
  reachable w →
  tasks w !! t = Some (TStart opts locals SAwaitAuth) →
  linked (creds w) && negb (Boolean (o_force opts)) = false →
  activeLogin w = Some a → heap w !! a = Some lg →
  isLoginFresh w lg && truthy (qrDataUrl lg) = false →
  ∃ w', step (Resume t) w = Some w' ∧
    activeLogin w' = None ∧ heap w' = heap w ∧
    trace w' = (trace w ++ [ECloseSocket (sock lg)])%list ∧
    tasks w' !! t = Some (TStart opts locals SAwaitReset).
Proof.
  intros Hw Ht Hs Ha Hl Hu. rewrite (step_Resume_start _ _ _ _ _ Ht). simpl.
  rewrite Hs. unfold reusable. rewrite Ha, Hl. simpl. rewrite Hu.
  destruct (resetActiveLogin_reachable None w Hw) as (w1 & -> & Ha1 & Hh & _ & _ & Htr).
  simpl. eexists. split; [done|]. simpl. split_and!; try done.
  - rewrite Htr. unfold slot_sockets. by rewrite Ha, Hl.
  - by rewrite lookup_insert_eq.
Qed.

(** X14.  With persisted credentials and no [force], the call returns the
    already-linked message and changes nothing else; the message names the
    [e164] of the stored identity, or else its [jid], or else "unknown". *)
Theorem already_linked_short_circuit t opts locals w :
  tasks w !! t = Some (TStart opts locals SAwaitAuth) →
  linked (creds w) = true → Boolean (o_force opts) = false →
  ∃ who, step (Resume t) w =
           Some (start_return t opts locals
                   {| r_qrDataUrl := None; r_message := msg_already_linked who |} w) ∧
    (∀ n, e164 (creds w) = Some n → who = n) ∧
    (∀ j, e164 (creds w) = None → jid (creds w) = Some j → who = j) ∧
    (e164 (creds w) = None → jid (creds w) = None → who = "unknown").
Proof.
  intros Ht Hl Hf. rewrite (step_Resume_start _ _ _ _ _ Ht). simpl.
  rewrite Hl, Hf. simpl. eexists. split; [done|].
  split_and!.
  - by intros n ->.
  - by intros j -> ->.
  - by intros -> ->.
Qed.

(** ** waitForWebLogin *)

Lemma step_wait_done t login d p due w :
  tasks w !! t = Some (TWait (WRace login d p due)) →
  promises w !! p = Some PFulfilled →
  step (Resume t) w = wait_done t login d w.
Proof. intros Ht Hp. rewrite (step_Resume_wait _ _ _ Ht). simpl. by rewrite Hp. Qed.

Lemma resetActiveLogin_total r w :
  (∀ a, activeLogin w = Some a → is_Some (heap w !! a)) →
  ∃ w1, resetActiveLogin r w = Some w1 ∧ activeLogin w1 = None ∧
        heap w1 = heap w ∧ tasks w1 = tasks w ∧ creds w1 = creds w ∧
        trace w1 = (trace w ++ map ECloseSocket (slot_sockets w) ++ reason_log r)%list.
Proof.
  intros Hs. destruct (resetActiveLogin_is_Some r w Hs) as [w1 Hr].
  exists w1. destruct (resetActiveLogin_frame _ _ _ Hr) as (? & ? & ? & ? & ? & _).
  split_and!; try done. by apply resetActiveLogin_effects.
Qed.


(** X4.  A poll that finds on the attempt a non-empty error (as l.236
    tests it) with a status that is neither logged-out nor 515 (or with
    none) fails at once: no credentials are cleared and nothing is reopened;
    the transport of the slot's attempt is closed, the slot emptied, and the
    call returns [connected: false] with the failure message that carries
    the error. *)
Theorem other_rejection_is_final t login d p due lg w :
  reachable w →
  tasks w !! t = Some (TWait (WRace login d p due)) →
  promises w !! p = Some PFulfilled →
  heap w !! login = Some lg → truthy (error lg) = true →
  errorStatus lg ≠ Some DisconnectReason_loggedOut →
  errorStatus lg ≠ Some 515 →
  (∃ w1, step (Resume t) w = Some w1 ∧
     activeLogin w1 = None ∧ heap w1 = heap w ∧ creds w1 = creds w ∧
     trace w1 = (trace w ++ map ECloseSocket (slot_sockets w)
                         ++ [ELogInfo (msg_failed (error lg))])%list ∧
     tasks w1 !! t = Some (TWait (WAwaitResetFailed (msg_failed (error lg))))) ∧
  (activeLogin w = Some login →
     ∃ w', run [Resume t; Resume t] w = Some w' ∧ activeLogin w' = None ∧
       trace w' = (trace w ++ [ECloseSocket (sock lg);
                               ELogInfo (msg_failed (error lg));
                               ERuntimeLog Danger (msg_failed (error lg))])%list ∧
       tasks w' !! t = Some (TWait (WReturned
         {| r_connected := false; r_wmessage := msg_failed (error lg) |}))).
Proof.
  intros Hw Ht Hp Hl He H401 H515. pose proof (reachable_Inv _ Hw) as HI.
  destruct (resetActiveLogin_total (Some (msg_failed (error lg))) w)
    as (w1 & Hr & Ha1 & Hh1 & Hts1 & Hc1 & Htr1); [apply (inv_slot _ HI)|].
  assert (H1 : step (Resume t) w =
                 Some (wait_at t (WAwaitResetFailed (msg_failed (error lg))) w1)).
  { rewrite (step_wait_done _ _ _ _ _ _ Ht Hp). unfold wait_done.
    rewrite Hl. simpl. rewrite He.
    rewrite !bool_decide_eq_false_2 by done.
    unfold wait_fail. rewrite Hl. simpl. by rewrite Hr. }
  split.
  - eexists. split; [done|]. simpl. split_and!; try done.
    by rewrite lookup_insert_eq.
  - intros Ha. eexists. split_and!.
    + rewrite run_cons, H1, option_bind_Some, run_cons.
      rewrite (step_Resume_wait _ _ (WAwaitResetFailed (msg_failed (error lg))))
        by (simpl; apply lookup_insert_eq).
      done.
    + done.
    + simpl. rewrite Htr1. unfold slot_sockets. rewrite Ha, Hl. simpl.
      by rewrite <- !app_assoc.
    + simpl. by rewrite lookup_insert_eq.
Qed.

(** X7.  A poll that wins the race on an attempt with neither an error nor
    [connected] returns the no-connection message and disposes of nothing:
    slot, attempts and trace stay as they are.  Such a state is reachable:
    at the end of [run_two_polls] call 1 is in it, on an attempt that was
    restarted after call 2 had disposed of it, whose new transport (handle
    1) nothing has closed. *)
Theorem unconnected_poll_leaves_attempt :
  (∀ t login d p due lg w,
     tasks w !! t = Some (TWait (WRace login d p due)) →
     promises w !! p = Some PFulfilled →
     heap w !! login = Some lg →
     truthy (error lg) = false → connected lg = false →
     step (Resume t) w =
       Some (wait_return t {| r_connected := false;
                              r_wmessage := msg_no_connection |} w)) ∧
  (∃ w lg, reachable w ∧
     tasks w !! 1%nat = Some (TWait (WRace 0 (Num 120000) 2 120000)) ∧
     promises w !! 2%nat = Some PFulfilled ∧
     heap w !! 0%nat = Some lg ∧
     truthy (error lg) = false ∧ connected lg = false ∧
     activeLogin w = None ∧ sock lg = 1%nat ∧ ECloseSocket 1 ∉ trace w).
Proof.
  split.
  - intros t login d p due lg w Ht Hp Hl He Hc.
    rewrite (step_wait_done _ _ _ _ _ _ Ht Hp).
    unfold wait_done. rewrite Hl. simpl. by rewrite He, Hc.
  - exists (world_after run_two_polls). eexists. split_and!.
    + apply reachable_world_after. vm_compute. eauto.
    + vm_compute. reflexivity.
    + vm_compute. reflexivity.
    + vm_compute. reflexivity.
    + reflexivity.
    + reflexivity.
    + vm_compute. reflexivity.
    + reflexivity.
    + vm_compute. intros H. repeat (apply elem_of_cons in H as [H|H]; [discriminate H|]).
      by apply elem_of_nil in H.
Qed.


(** X6.  After a successful restart the poll goes on against the deadline
    it computed on entry, and the attempt keeps the start time it had: if
    the attempt is still fresh and the deadline not reached it waits for the
    new connection, with a timer for what is left; if the deadline is
    reached it returns the still-waiting message and leaves everything in
    place; if the attempt has become stale it fails, disposing of the slot's
    attempt, with the message built from [login.error], which reads
    "undefined" when no error is recorded. *)
Theorem restarted_poll_continues t login d lg w :
  tasks w !! t = Some (TWait (WAwaitRestart login d true)) →
  heap w !! login = Some lg →
  (isLoginFresh w lg = true → js_le0 (js_sub d (now w)) = false →
     step (Resume t) w =
       Some (wait_at t (WRace login d (waitPromise lg)
                          (mono w + setTimeout_delay (js_sub d (now w)))) w)) ∧
  (isLoginFresh w lg = true → js_le0 (js_sub d (now w)) = true →
     step (Resume t) w =
       Some (wait_return t {| r_connected := false;
                              r_wmessage := msg_still_waiting |} w)) ∧
  (∀ z, d = Num z → js_le0 (js_sub d (now w)) = false ↔ now w < z) ∧
  (isLoginFresh w lg = false → reachable w →
     ∃ w1, step (Resume t) w = Some w1 ∧ activeLogin w1 = None ∧
       trace w1 = (trace w ++ map ECloseSocket (slot_sockets w)
                           ++ [ELogInfo (msg_failed (error lg))])%list ∧
       tasks w1 !! t = Some (TWait (WAwaitResetFailed (msg_failed (error lg))))) ∧
  msg_failed None = "WhatsApp login failed: undefined".
Proof.
  intros Ht Hl. rewrite (step_Resume_wait _ _ _ Ht). simpl. rewrite Hl. simpl.
  split_and!.
  - intros -> Hd. unfold wait_loop. rewrite Hd. by rewrite Hl.
  - intros -> Hd. unfold wait_loop. by rewrite Hd.
  - intros z ->. simpl. rewrite Z.leb_gt. lia.
  - intros -> Hw. unfold wait_fail. rewrite Hl. simpl.
    destruct (resetActiveLogin_reachable (Some (msg_failed (error lg))) w Hw)
      as (w1 & -> & Ha & Hh & Hts & Hc & Htr).
    simpl. eexists. split; [done|]. simpl. split_and!; try done.
    by rewrite lookup_insert_eq.
  - done.
Qed.


(** ** Along a run *)

Lemma heap_evolves_trans h1 h2 h3 :
  heap_evolves h1 h2 → heap_evolves h2 h3 → heap_evolves h1 h3.
Proof.
  intros H12 H23 k x Hx. destruct (H12 k x Hx) as (y & Hy & Hxy).
  destruct (H23 k y Hy) as (z & Hz & Hyz). exists z. split; [done|].
  destruct Hxy as (? & ? & ? & ?), Hyz as (? & ? & ? & ?).
  split_and!; try congruence. auto.
Qed.

Lemma run_evolves es w w' :
  run es w = Some w' → Inv w → heap_evolves (heap w) (heap w').
Proof.
  revert w. induction es as [|e es IH]; simpl; intros w H HI.
  - injection H as <-. intros k x Hx. exists x. by split.
  - destruct (step e w) as [w1|] eqn:Hs; simpl in H; [|done].
    eapply heap_evolves_trans; [by eapply step_evolves|].
    apply IH; [done|]. by eapply step_Inv.
Qed.

Lemma run_keeps_code es w w' :
  run es w = Some w' → Inv w → heap_keeps_code (heap w) (heap w').
Proof.
  revert w. induction es as [|e es IH]; simpl; intros w H HI.
  - injection H as <-. intros k x Hx. exists x. by split.
  - destruct (step e w) as [w1|] eqn:Hs; simpl in H; [|done].
    eapply hk_trans; [by eapply step_keeps_code|].
    apply IH; [done|]. by eapply step_Inv.
Qed.

(** X8.  Whatever happens after an attempt was created, the module never
    removes it from the store, and never changes its [id], [startedAt] or
    [verbose]: a restart does not renew the start time.  A
    [restartAttempted] that is set stays set. *)
Theorem attempt_identity_is_fixed es w w' k lg :
  reachable w → run es w = Some w' → heap w !! k = Some lg →
  ∃ lg', heap w' !! k = Some lg' ∧
    id lg' = id lg ∧ startedAt lg' = startedAt lg ∧ verbose lg' = verbose lg ∧
    (restartAttempted lg = true → restartAttempted lg' = true).
Proof.
  intros Hw Hr Hk. apply reachable_Inv in Hw.
  destruct (run_evolves _ _ _ Hr Hw k lg Hk) as (lg' & Hk' & Hid & Hst & Hv & Hra).
  by exists lg'.
Qed.


(** X9.  [onQr] writes [activeLogin.qr] only while it is not set (l.144-145), and
    nothing else writes it: once an attempt has a non-empty code, no later
    event replaces or clears it, also not a restart, whose transport gets no
    [onQr] at all. *)
Theorem recorded_code_is_never_replaced es w w' k lg :
  reachable w → run es w = Some w' → heap w !! k = Some lg →
  truthy (qr lg) = true →
  ∃ lg', heap w' !! k = Some lg' ∧ qr lg' = qr lg.
Proof.
  intros Hw Hr Hk Hq. apply reachable_Inv in Hw.
  destruct (run_keeps_code _ _ _ Hr Hw k lg Hk) as (lg' & Hk' & Hkc).
  exists lg'. split; [done|]. by apply Hkc.
Qed.

(** X10.  Every result [waitForWebLogin] returns is [connected: true] with
    the linked message, or [connected: false] with one of: no active login,
    expired, still waiting, logged out, no connection, or the failure
    message built from the attempt's error. *)
Theorem wait_results_are_of_seven_kinds w t r :
  reachable w → tasks w !! t = Some (TWait (WReturned r)) →
  wait_result_ok r ∧ (r_connected r = true ↔ r_wmessage r = msg_linked).
Proof.
  intros Hw Ht. pose proof (reachable_waits_ok _ Hw _ _ Ht) as Hok.
  simpl in Hok. split; [done|].
  destruct Hok as [->|[Hc Hm]]; [done|]. rewrite Hc. split; [done|].
  intros Hl. exfalso. revert Hl.
  destruct Hm as [->|[->|[->|[->|[->|[err ->]]]]]]; discriminate.
Qed.

(** X11.  In every reachable state an attempt has at most one pending
    completion promise and at most one call inside [restartLoginSocket]
    between closing the old transport and getting the new one; while a call
    is there the attempt has [restartAttempted] set, is not connected and
    has no pending completion promise, so no completion of the old
    transport can be delivered to it. *)
Theorem one_completion_and_one_restart_per_attempt w :
  reachable w →
  (∀ p q l s s', promises w !! p = Some (PWaiting l s) →
     promises w !! q = Some (PWaiting l s') → p = q ∧ s = s') ∧
  (∀ t t' l d d', tasks w !! t = Some (TWait (WAwaitRestartSocket l d)) →
     tasks w !! t' = Some (TWait (WAwaitRestartSocket l d')) → t = t') ∧
  (∀ t l d, tasks w !! t = Some (TWait (WAwaitRestartSocket l d)) →
     ∃ lg, heap w !! l = Some lg ∧ restartAttempted lg = true ∧
       connected lg = false ∧
       ∀ p s, promises w !! p ≠ Some (PWaiting l s)).
Proof.
  intros Hw. apply reachable_Inv in Hw. split_and!.
  - intros p q l s s' Hp Hq.
    pose proof (inv_pending_uniq _ Hw _ _ _ _ _ Hp Hq) as ->.
    split; [done|]. congruence.
  - apply (inv_restart_uniq _ Hw).
  - intros t l d Ht. destruct (inv_task_ok _ Hw _ _ Ht) as (lg & Hl & Hra & Hc & Hnp).
    exists lg. split_and!; try done. intros p s Hp. apply Hnp. by exists p, s.
Qed.

(** X12.  The module unlinks the account only in one place: a step that
    takes the persisted credentials from linked to not linked is either the
    environment saving credentials, or a poll that sees its attempt rejected
    with the logged-out status (l.236-238). *)
Theorem only_logged_out_poll_unlinks e w w' :
  step e w = Some w' →
  linked (creds w) = true → linked (creds w') = false →
  (∃ c, e = CredsSaved c) ∨ logout_step e w.
Proof.
  intros Hs H1 H2. destruct (step_env _ _ _ Hs) as [_ [Hc|[(c & -> & _)|[Hl _]]]].
  - congruence.
  - left. by exists c.
  - by right.
Qed.

(** ** Installing, coding and rendering an attempt *)

(** X15.  When [createWaSocket] resolves, the call installs a new attempt
    over whatever the slot holds (l.158-168): it is not connected, has no
    error, code or artifact, has not been restarted, starts now, and has a
    pending completion promise over its transport.  Nothing is closed: an
    attempt that was in the slot stays in the store with its transport
    open.  With two overlapping calls this happens: at the end of
    [run_two_starts] call 1 is about to install over attempt 0, whose
    transport nothing has closed. *)
Theorem install_replaces_slot_without_closing :
  (∀ t opts locals w,
     tasks w !! t = Some (TStart opts locals SAwaitSocket) →
     ∃ w', step (SocketOpened t) w = Some w' ∧
       activeLogin w' = Some (next_login w) ∧
       heap w' = <[next_login w :=
                    {| id := next_login w; sock := next_sock w;
                       startedAt := now w; qr := None; qrDataUrl := None;
                       connected := false; error := None; errorStatus := None;
                       waitPromise := S (next_promise w);
                       restartAttempted := false;
                       verbose := Boolean (o_verbose opts) |}]> (heap w) ∧
       promises w' !! S (next_promise w) =
         Some (PWaiting (next_login w) (next_sock w)) ∧
       trace w' = trace w ∧
       tasks w' !! t = Some (TStart opts locals (SAwaitQr (next_login w)))) ∧
  (∃ w lg q, reachable w ∧
     tasks w !! 1%nat = Some (TStart opts0 (Some q) SAwaitSocket) ∧
     activeLogin w = Some 0%nat ∧ heap w !! 0%nat = Some lg ∧
     ECloseSocket (sock lg) ∉ trace w).
Proof.
  split.
  - intros t opts locals w Ht. eexists. split.
    + simpl. rewrite Ht. simpl. unfold start_socket_opened, attachLoginWaiter.
      simpl. rewrite lookup_insert_eq. simpl. done.
    + simpl. split_and!; try done.
      * by rewrite alter_insert_eq.
      * by rewrite lookup_insert_eq.
      * by rewrite lookup_insert_eq.
  - exists (world_after run_two_starts). eexists. eexists. split_and!.
    + apply reachable_world_after. vm_compute. eauto.
    + vm_compute. reflexivity.
    + vm_compute. reflexivity.
    + vm_compute. reflexivity.
    + vm_compute. intros H. repeat (apply elem_of_cons in H as [H|H]; [discriminate H|]).
      by apply elem_of_nil in H.
Qed.

(** X16.  [onQr] tests and writes the attempt in the slot, not the one its
    own call made (l.144-145): when the slot's attempt has no code yet, the
    code is recorded on it, the receipt is logged, and the timer and the
    code promise of the call whose transport emitted it are cleared and
    resolved; no other attempt is touched.  So the transport of one call can
    code the attempt of another: at the end of [run_two_starts] call 1 has
    no attempt yet, and a code from its transport goes to attempt 0. *)
Theorem code_goes_to_slot_attempt :
  (∀ t opts q pc a lg code w,
     tasks w !! t = Some (TStart opts (Some q) pc) →
     activeLogin w = Some a → heap w !! a = Some lg →
     truthy (qr lg) = false →
     ∃ w', step (QrEmitted t code) w = Some w' ∧
       heap w' = <[a := set_qr (Some code) lg]> (heap w) ∧
       activeLogin w' = Some a ∧
       trace w' = (trace w ++ [ERuntimeLog Info "WhatsApp QR received."])%list ∧
       ∃ q', tasks w' !! t = Some (TStart opts (Some q') pc) ∧
         qrTimer q' = None ∧
         (qrPromise q = QrPending → qrPromise q' = QrResolved code) ∧
         (qrPromise q ≠ QrPending → qrPromise q' = qrPromise q)) ∧
  (∃ w q lg, reachable w ∧
     tasks w !! 1%nat = Some (TStart opts0 (Some q) SAwaitSocket) ∧
     activeLogin w = Some 0%nat ∧ heap w !! 0%nat = Some lg ∧
     truthy (qr lg) = false ∧
     tasks w !! 0%nat = Some (TStart opts0 (Some q) (SAwaitQr 0))).
Proof.
  split.
  - intros t opts q pc a lg code w Ht Ha Hl Hq. eexists. split.
    + simpl. unfold onQr. rewrite Ht. simpl. rewrite Ha, Hl. simpl. rewrite Hq. done.
    + simpl. split_and!; try done.
      * apply map_eq. intros k. destruct (decide (k = a)) as [->|Hk].
        -- by rewrite lookup_alter_eq, lookup_insert_eq, Hl.
        -- by rewrite lookup_alter_ne, lookup_insert_ne.
      * eexists. split; [by rewrite lookup_insert_eq|]. simpl. split_and!; try done.
        -- by intros ->.
        -- intros Hp. by destruct (qrPromise q).
  - exists (world_after run_two_starts). eexists. eexists. split_and!.
    + apply reachable_world_after. vm_compute. eauto.
    + vm_compute. reflexivity.
    + vm_compute. reflexivity.
    + vm_compute. reflexivity.
    + reflexivity.
    + vm_compute. reflexivity.
Qed.

(** X17.  The artifact a call renders is [data:image/png;base64,] followed
    by the payload, it is written to the call's own attempt and returned
    with the scan message (l.181-186).  When that attempt is in the slot and
    fresh, a call of [startWebLoginWithQr] made next (on an account that is
    not linked, or with [force]) returns the same artifact with the
    already-active message, and neither call touches a transport. *)
Theorem rendered_artifact_is_served_again t opts locals login code lg b opts' w :
  reachable w →
  tasks w !! t = Some (TStart opts locals (SAwaitRender login code)) →
  heap w !! login = Some lg →
  (∃ w1, step (Rendered t b) w = Some w1 ∧
     heap w1 = <[login := set_qrDataUrl (Some (data_url b)) lg]> (heap w) ∧
     activeLogin w1 = activeLogin w ∧ trace w1 = trace w ∧
     tasks w1 !! t = Some (TStart opts locals (SReturned
       {| r_qrDataUrl := Some (data_url b); r_message := msg_scan |}))) ∧
  (activeLogin w = Some login → isLoginFresh w lg = true →
   linked (creds w) && negb (Boolean (o_force opts')) = false →
   ∃ w', run [Rendered t b; CallStart opts'; Resume (next_task w)] w = Some w' ∧
     tasks w' !! next_task w = Some (TStart opts' None (SReturned
       {| r_qrDataUrl := Some (data_url b); r_message := msg_qr_active |})) ∧
     tasks w' !! t = Some (TStart opts locals (SReturned
       {| r_qrDataUrl := Some (data_url b); r_message := msg_scan |})) ∧
     activeLogin w' = Some login ∧ trace w' = trace w).
Proof.
  intros Hw Ht Hl. pose proof (reachable_Inv _ Hw) as HI.
  pose proof (inv_task_fresh _ HI _ _ Ht) as Hlt.
  set (lg1 := set_qrDataUrl (Some (data_url b)) lg).
  set (r := {| r_qrDataUrl := Some (data_url b); r_message := msg_scan |}).
  set (w1 := start_return t opts locals r
               (write login (set_qrDataUrl (Some (data_url b))) w)).
  assert (H1 : step (Rendered t b) w = Some w1).
  { simpl. rewrite Ht. simpl. unfold start_rendered. simpl.
    by rewrite lookup_alter_eq, Hl. }
  assert (Hh : heap w1 = <[login := lg1]> (heap w)).
  { simpl. apply map_eq. intros k. destruct (decide (k = login)) as [->|Hk].
    - by rewrite lookup_alter_eq, lookup_insert_eq, Hl.
    - by rewrite lookup_alter_ne, lookup_insert_ne. }
  split.
  - exists w1. split_and!; try done. simpl. by rewrite lookup_insert_eq.
  - intros Ha Hf Hlk. eexists. split_and!.
    + rewrite run_cons, H1, option_bind_Some, run_cons. simpl step.
      rewrite option_bind_Some, run_cons.
      rewrite (step_Resume_start _ _ opts' None SAwaitAuth)
        by (simpl; apply lookup_insert_eq).
      unfold start_resume. simpl creds. rewrite Hlk.
      unfold reusable. simpl activeLogin. rewrite Ha. simpl heap.
      rewrite lookup_alter_eq, Hl. simpl.
      unfold isLoginFresh in *. simpl. rewrite Hf. simpl. done.
    + simpl. by rewrite lookup_insert_eq.
    + simpl. rewrite lookup_insert_ne by lia. rewrite lookup_insert_ne by lia.
      by rewrite lookup_insert_eq.
    + done.
    + done.
Qed.

(** ** Transports the module never closes *)

(** X18.  A transport handle whose attempt is out of the slot and has used
    up its restart is never closed by the module, whatever happens next:
    [resetActiveLogin] closes only the handle of the slot's attempt, no
    attempt returns to the slot, and [restartLoginSocket] closes only the
    handle of an attempt that was not restarted before. *)
Theorem abandoned_transport_is_never_closed es w w' s :
  reachable w → abandoned w s = true → run es w = Some w' →
  abandoned w' s = true ∧
  ∃ new, trace w' = (trace w ++ new)%list ∧ ECloseSocket s ∉ new.
Proof.
  intros Hw. apply reachable_Inv in Hw. revert w Hw.
  induction es as [|e es IH]; simpl; intros w HI Ha H.
  - injection H as <-. split; [done|]. exists []. rewrite app_nil_r.
    split; [done|]. apply not_elem_of_nil.
  - destruct (step e w) as [w1|] eqn:Hs; simpl in H; [|done].
    destruct (step_abandoned _ _ _ _ Hs HI Ha) as (Ha1 & new1 & Ht1 & Hn1).
    destruct (IH w1 (step_Inv _ _ _ Hs HI) Ha1 H) as (Ha' & new2 & Ht2 & Hn2).
    split; [done|]. exists (new1 ++ new2)%list. split.
    + by rewrite Ht2, Ht1, app_assoc.
    + intros [?|?]%elem_of_app; tauto.
Qed.

(** ** The further theorems at concrete inputs *)

(** X1 at the end of [run_to_pending]. *)
Lemma resetActiveLogin_twice_witness :
  activeLogin (disposed (Some "bye") run_to_pending) = None ∧
  resetActiveLogin None (disposed (Some "bye") run_to_pending) =
    Some (disposed (Some "bye") run_to_pending).
Proof.
  destruct (resetActiveLogin_twice (Some "bye") (world_after run_to_pending)
              (disposed (Some "bye") run_to_pending)) as (Ha & _ & _ & Hr & _).
  - vm_compute. reflexivity.
  - by split.
Defined.

(** X2 for a call with [timeoutMs: 5000]. *)
Lemma qr_timer_floor_witness :
  ∃ w' due, step (Resume 0) (world_after [CallStart opts_5s; Resume 0%nat]) = Some w' ∧
    due = 5000.
Proof.
  destruct (qr_timer_floor 0 opts_5s None (world_after [CallStart opts_5s; Resume 0%nat]))
    as (w' & due & Hs & _ & Hd & _).
  - vm_compute. reflexivity.
  - exists w', due. split; [done|]. rewrite Hd. vm_compute. reflexivity.
Defined.

(** X13 at the end of [run_to_second_start]. *)
Lemma start_supersedes_witness :
  ∃ w', step (Resume 1) (world_after run_to_second_start) = Some w' ∧
    activeLogin w' = None ∧
    trace w' = (trace (world_after run_to_second_start) ++ [ECloseSocket 0])%list.
Proof.
  destruct (start_supersedes_unusable_attempt 1 opts0 None
              (world_after run_to_second_start) 0 attempt_installed)
    as (w' & Hs & Ha & _ & Ht & _);
    [apply reachable_world_after; vm_compute; eauto|vm_compute; reflexivity..|].
  exists w'. exact (conj Hs (conj Ha Ht)).
Defined.

(** X14 for a call made on a linked account. *)
Lemma already_linked_witness :
  ∃ who, step (Resume 0) (world_after [CredsSaved creds_linked; CallStart opts0]) =
           Some (start_return 0 opts0 None
                   {| r_qrDataUrl := None; r_message := msg_already_linked who |}
                   (world_after [CredsSaved creds_linked; CallStart opts0])) ∧
    who = "+15550100".
Proof.
  destruct (already_linked_short_circuit 0 opts0 None
              (world_after [CredsSaved creds_linked; CallStart opts0]))
    as (who & Hs & He & _); try (vm_compute; reflexivity).
  exists who. split; [done|]. apply He. vm_compute. reflexivity.
Defined.


(** X4 at the end of [run_to_other_error]. *)
Lemma other_rejection_witness :
  ∃ w', run [Resume 1%nat; Resume 1%nat] (world_after run_to_other_error) = Some w' ∧
    activeLogin w' = None ∧
    tasks w' !! 1%nat = Some (TWait (WReturned
      {| r_connected := false; r_wmessage := msg_failed (Some "boom") |})).
Proof.
  destruct (other_rejection_is_final 1 0 (Num 120000) 1 120000
              (attempt_rendered (Some "boom") (Some 500))
              (world_after run_to_other_error))
    as (_ & Hrun);
    [apply reachable_world_after; vm_compute; eauto|vm_compute; reflexivity..| | |].
  - vm_compute. intros H. discriminate H.
  - vm_compute. intros H. discriminate H.
  - destruct Hrun as (w' & Hr & Ha & _ & Ht); [vm_compute; reflexivity|].
    exists w'. exact (conj Hr (conj Ha Ht)).
Defined.


(** X6 at the end of [run_to_restarted]. *)
Lemma restarted_poll_witness :
  step (Resume 1) (world_after run_to_restarted) =
    Some (wait_at 1 (WRace 0 (Num 120000) 2 120000) (world_after run_to_restarted)).
Proof.
  refine (proj1 (restarted_poll_continues 1 0 (Num 120000)
                   (set_error None (set_errorStatus None attempt_restarted))
                   (world_after run_to_restarted) _ _) _ _).
  - vm_compute. reflexivity.
  - vm_compute. reflexivity.
  - vm_compute. reflexivity.
  - vm_compute. reflexivity.
Defined.

(** X8 from the end of [run_to_515] to the end of [run_to_linked]. *)
Lemma attempt_identity_witness :
  ∃ lg', heap (world_after run_to_linked) !! 0%nat = Some lg' ∧
    id lg' = 0%nat ∧ startedAt lg' = 0.
Proof.
  destruct (attempt_identity_is_fixed (drop 9 run_to_linked)
              (world_after run_to_515) (world_after run_to_linked) 0
              (attempt_rendered (Some "restart required") (Some 515)))
    as (lg' & Hl & Hi & Hs & _);
    [apply reachable_world_after; vm_compute; eauto|vm_compute; reflexivity..|].
  exists lg'. exact (conj Hl (conj Hi Hs)).
Defined.

(** X9 along the same run. *)
Lemma recorded_code_witness :
  ∃ lg', heap (world_after run_to_linked) !! 0%nat = Some lg' ∧
    qr lg' = Some "abc".
Proof.
  destruct (recorded_code_is_never_replaced (drop 9 run_to_linked)
              (world_after run_to_515) (world_after run_to_linked) 0
              (attempt_rendered (Some "restart required") (Some 515)))
    as (lg' & Hl & Hq);
    [apply reachable_world_after; vm_compute; eauto|vm_compute; reflexivity..|].
  exists lg'. exact (conj Hl Hq).
Defined.

(** X10 for the poll of [run_to_connected], once it has returned. *)
Lemma wait_results_witness :
  wait_result_ok {| r_connected := true; r_wmessage := msg_linked |}.
Proof.
  refine (proj1 (wait_results_are_of_seven_kinds
                   (world_after (run_to_connected ++ [Resume 1%nat; Resume 1%nat]))
                   1 _ _ _)).
  - apply reachable_world_after. vm_compute. eauto.
  - vm_compute. reflexivity.
Defined.

(** X11 at the end of [run_to_restart_socket]. *)
Lemma one_restart_witness :
  ∃ lg, heap (world_after run_to_restart_socket) !! 0%nat = Some lg ∧
    restartAttempted lg = true ∧ connected lg = false ∧
    ∀ p s, promises (world_after run_to_restart_socket) !! p ≠ Some (PWaiting 0 s).
Proof.
  refine (proj2 (proj2 (one_completion_and_one_restart_per_attempt
                          (world_after run_to_restart_socket) _)) 1%nat 0%nat (Num 120000) _).
  - apply reachable_world_after. vm_compute. eauto.
  - vm_compute. reflexivity.
Defined.

(** X12 at the end of [run_to_relinked]. *)
Lemma only_logged_out_poll_witness :
  (∃ c, Resume 1 = CredsSaved c) ∨
  logout_step (Resume 1) (world_after run_to_relinked).
Proof.
  refine (only_logged_out_poll_unlinks (Resume 1) (world_after run_to_relinked)
            (world_after (run_to_relinked ++ [Resume 1%nat])) _ _ _).
  - vm_compute. reflexivity.
  - vm_compute. reflexivity.
  - vm_compute. reflexivity.
Defined.

(** X17 for call 0 of [run_to_515], about to render its code. *)
Lemma rendered_artifact_witness :
  ∃ w', run [Rendered 0 "AAAA"; CallStart opts0; Resume 1%nat]
          (world_after (take 6 run_to_515)) = Some w' ∧
    tasks w' !! 1%nat = Some (TStart opts0 None (SReturned
      {| r_qrDataUrl := Some (data_url "AAAA"); r_message := msg_qr_active |})) ∧
    trace w' = trace (world_after (take 6 run_to_515)).
Proof.
  destruct (rendered_artifact_is_served_again 0 opts0
              (Some {| qrPromise := QrResolved "abc"; qrTimer := None |})
              0 "abc" (set_qr (Some "abc") attempt_installed) "AAAA" opts0
              (world_after (take 6 run_to_515)))
    as (_ & Hrun);
    [apply reachable_world_after; vm_compute; eauto|vm_compute; reflexivity..|].
  destruct Hrun as (w' & Hr & Ht & _ & _ & Htr); try (vm_compute; reflexivity).
  exists w'. exact (conj Hr (conj Ht Htr)).
Defined.

(** X18 at the end of [run_two_polls]: handle 1, opened by the restart of
    attempt 0 after the attempt was disposed of. *)
Lemma abandoned_transport_witness :
  ∃ new, trace (world_after (run_two_polls ++ [Resume 1%nat; CallStart opts0])) =
           (trace (world_after run_two_polls) ++ new)%list ∧
    ECloseSocket 1 ∉ new.
Proof.
  refine (proj2 (abandoned_transport_is_never_closed [Resume 1%nat; CallStart opts0]
                   (world_after run_two_polls)
                   (world_after (run_two_polls ++ [Resume 1%nat; CallStart opts0]))
                   1 _ _ _)).
  - apply reachable_world_after. vm_compute. eauto.
  - vm_compute. reflexivity.
  - vm_compute. reflexivity.
Defined.
